(** * Ralph: the agent loop of [ralph.py], embedded and verified

    The development follows the layout of the source file:
    - Python string primitives the program relies on ([in], [startswith],
      [strip], [replace]);
    - JSON values and the [LLMConfig] record;
    - the [RalphLLMClient] (provider detection, probes, [chat]);
    - the [RalphOrchestrator] (archival, progress log, branch tracking,
      [run_iteration], [run]);
    - [load_config] and [main].

    Effects are modelled by a small monad over the program state (the file
    system and the client's memoised provider) that also collects the
    observable events (messages printed, chat calls, sleeps) and that
    distinguishes a normal return from a raised [Exception] and from
    [sys.exit].

    The platform is POSIX with a UTF-8 locale. A file holds bytes; a text
    is kept as its UTF-8 bytes. Reading a file as text decodes it (and
    fails on bytes that are not UTF-8) and translates the newlines;
    writing a text stores its bytes as they are. A file is named by the
    text of its path as [pathlib] builds it; the file system is not asked
    to resolve [..] steps or links, so statements about what is written
    into the archive are made for folder names without such steps. *)

From Stdlib Require Import ZArith Lia Ascii String.
From stdpp Require Import gmap strings list fin_maps.

Local Set Warnings "-register-all".

Local Open Scope string_scope.
Local Open Scope list_scope.

(** ** Python string primitives *)

Module PyStr.

(** [s.startswith(p)] *)
Definition startswith (s p : string) : bool := String.prefix p s.

(** [needle in hay] on strings: [needle] occurs as a substring. *)
Fixpoint contains (needle hay : string) : bool :=
  match hay with
  | EmptyString => String.prefix needle hay
  | String _ rest => String.prefix needle hay || contains needle rest
  end.

(** *** Text and its white space

    A Python [str] is kept as the UTF-8 bytes of its characters, so a
    character is one to four bytes of the string. [in], [startswith],
    [replace] and [==] on such texts are those on the bytes. *)

Definition bytes (l : list nat) : string :=
  fold_right (fun n s => String (ascii_of_nat n) s) EmptyString l.

(** The characters [str.strip] removes, those for which [str.isspace]
    holds: U+0009 to U+000D, U+001C to U+0020, U+0085, U+00A0, U+1680,
    U+2000 to U+200A, U+2028, U+2029, U+202F, U+205F and U+3000. *)
Definition whitespace : list string :=
  map bytes
    [ [9]; [10]; [11]; [12]; [13]; [28]; [29]; [30]; [31]; [32];
      [194; 133]; [194; 160]; [225; 154; 128];
      [226; 128; 128]; [226; 128; 129]; [226; 128; 130]; [226; 128; 131];
      [226; 128; 132]; [226; 128; 133]; [226; 128; 134]; [226; 128; 135];
      [226; 128; 136]; [226; 128; 137]; [226; 128; 138];
      [226; 128; 168]; [226; 128; 169]; [226; 128; 175];
      [226; 129; 159]; [227; 128; 128] ].

(** [Some rest] when [s] is [p] followed by [rest]. *)
Fixpoint strip_prefix (p s : string) : option string :=
  match p, s with
  | EmptyString, _ => Some s
  | String a p', String b s' => if Ascii.eqb a b then strip_prefix p' s' else None
  | String _ _, EmptyString => None
  end.

Fixpoint first_match (tokens : list string) (s : string) : option string :=
  match tokens with
  | [] => None
  | t :: rest =>
      match strip_prefix t s with
      | Some r => Some r
      | None => first_match rest s
      end
  end.

(** What follows the white-space character at the head of [s], if there
    is one. *)
Definition space_head (s : string) : option string := first_match whitespace s.

Fixpoint lstrip_go (fuel : nat) (s : string) : string :=
  match fuel with
  | O => s
  | S fuel' =>
      match space_head s with
      | Some rest => lstrip_go fuel' rest
      | None => s
      end
  end.

(** [s.lstrip()]; every step drops at least one byte, so the length of
    [s] is fuel enough. *)
Definition lstrip (s : string) : string := lstrip_go (String.length s) s.

Definition is_empty (s : string) : bool :=
  match s with EmptyString => true | _ => false end.

(** [s.rstrip()]: what is left of [s] once its longest suffix of white
    space is gone. A suffix is white space throughout when [lstrip] leaves
    nothing of it; one that starts inside a character never is. *)
Fixpoint rstrip (s : string) : string :=
  match s with
  | EmptyString => EmptyString
  | String c rest => if is_empty (lstrip s) then EmptyString else String c (rstrip rest)
  end.

(** [s.strip()] *)
Definition strip (s : string) : string := rstrip (lstrip s).

(** *** Reading text from a file

    [open(path, 'r')] decodes the bytes of the file as UTF-8, the encoding
    of a POSIX locale, and fails on bytes that are not well-formed UTF-8
    (an overlong form, a surrogate, a code point above U+10FFFF, a
    truncated character). *)
Definition in_range (lo hi n : nat) : bool := (lo <=? n)%nat && (n <=? hi)%nat.

Definition continuation (c : ascii) : bool := in_range 128 191 (nat_of_ascii c).

Fixpoint utf8_valid (s : string) : bool :=
  match s with
  | EmptyString => true
  | String a r1 =>
      let n := nat_of_ascii a in
      if (n <? 128)%nat then utf8_valid r1
      else
        match r1 with
        | EmptyString => false
        | String b r2 =>
            let m := nat_of_ascii b in
            if in_range 194 223 n then continuation b && utf8_valid r2
            else
              match r2 with
              | EmptyString => false
              | String c r3 =>
                  if in_range 224 239 n then
                    (if (n =? 224)%nat then in_range 160 191 m
                     else if (n =? 237)%nat then in_range 128 159 m
                     else continuation b)
                    && continuation c && utf8_valid r3
                  else
                    match r3 with
                    | EmptyString => false
                    | String d r4 =>
                        in_range 240 244 n
                        && (if (n =? 240)%nat then in_range 144 191 m
                            else if (n =? 244)%nat then in_range 128 143 m
                            else continuation b)
                        && continuation c && continuation d && utf8_valid r4
                    end
              end
        end
  end.

(** The newline translation of text mode on reading: a carriage return,
    with the line feed after it if there is one, is read as one line
    feed. *)
Fixpoint universal_newlines (s : string) : string :=
  match s with
  | EmptyString => EmptyString
  | String c rest =>
      if (nat_of_ascii c =? 13)%nat then
        match rest with
        | String c' rest' =>
            if (nat_of_ascii c' =? 10)%nat
            then String (ascii_of_nat 10) (universal_newlines rest')
            else String (ascii_of_nat 10) (universal_newlines rest)
        | EmptyString => String (ascii_of_nat 10) EmptyString
        end
      else String c (universal_newlines rest)
  end.

(** [f.read()] on the bytes of a file opened with [open(path, 'r')];
    [None] when it raises [UnicodeDecodeError]. *)
Definition decode (content : string) : option string :=
  if utf8_valid content then Some (universal_newlines content) else None.

(** [s.replace(old, new)] for a non-empty [old]: the occurrences of [old]
    are found from left to right and do not overlap. [skip] counts the
    characters of the current occurrence still to be dropped. *)
Fixpoint replace_go (old new : string) (skip : nat) (s : string) : string :=
  match s with
  | EmptyString => EmptyString
  | String c rest =>
      match skip with
      | S k => replace_go old new k rest
      | O =>
          if String.prefix old s
          then new +:+ replace_go old new (String.length old - 1) rest
          else String c (replace_go old new O rest)
      end
  end.

(** With an empty [old], Python puts [new] before every character and at
    the end. *)
Fixpoint intersperse (new s : string) : string :=
  match s with
  | EmptyString => new
  | String c rest => new +:+ String c (intersperse new rest)
  end.

Definition replace (s old new : string) : string :=
  match old with
  | EmptyString => intersperse new s
  | _ => replace_go old new O s
  end.

(** [s.removeprefix(p)], the operation the specification describes. *)
Definition removeprefix (s p : string) : string :=
  if String.prefix p s
  then String.substring (String.length p) (String.length s - String.length p) s
  else s.

End PyStr.

(** ** JSON values, as [json.load] returns them

    Numbers are kept as integers; the program never computes with a number,
    it only tests the truth value of what it reads. *)

Inductive json : Type :=
| JNull
| JBool (b : bool)
| JNum (n : Z)
| JStr (s : string)
| JArr (l : list json)
| JObj (fields : list (string * json)).

Module Json.

(** Python truth value of a loaded JSON value. *)
Definition truthy (v : json) : bool :=
  match v with
  | JNull => false
  | JBool b => b
  | JNum n => negb (n =? 0)%Z
  | JStr s => negb (String.eqb s "")
  | JArr l => match l with [] => false | _ => true end
  | JObj f => match f with [] => false | _ => true end
  end.

(** [v == s] for a Python string [s]. *)
Definition eq_str (v : json) (s : string) : bool :=
  match v with
  | JStr t => String.eqb t s
  | _ => false
  end.

Fixpoint assoc (k : string) (fields : list (string * json)) : option json :=
  match fields with
  | [] => None
  | (k', v) :: rest => if String.eqb k k' then Some v else assoc k rest
  end.

(** [d.get(k, default)] on a dict [d]; on any other value the attribute
    [get] does not exist. *)
Definition get (d : json) (k : string) (default : json) : option json :=
  match d with
  | JObj fields =>
      Some (match assoc k fields with Some v => v | None => default end)
  | _ => None
  end.

End Json.


(** ** Configuration

    [LLMConfig] is a dataclass whose annotations are not enforced: the
    fields hold whatever [load_config] read from the JSON file. *)

Record LLMConfig : Type := {
  provider : json;
  model : json;
  apiKey : json;
  ollamaUrl : json
}.

Definition default_config : LLMConfig :=
  {| provider := JStr "auto";
     model := JStr "llama3.1";
     apiKey := JStr "";
     ollamaUrl := JStr "http://localhost:11434" |}.

(** ** Exceptions, messages and events *)

(** The subclasses of [Exception] the program can meet. *)
Inductive exn : Type :=
| FileNotFoundError (path : string)
| UnicodeDecodeError
| JSONDecodeError
| AttributeError
| TypeError
| NoProviderAvailable
| UnknownProvider (p : json)
| BackendError (msg : string).

(** What the program prints, one constructor per [print] site (the banner
    and the closing report, printed over several lines, are one message
    each). *)
Inductive message : Type :=
| MsgOllamaCheckFailed
| MsgArchiving (last_branch : string)
| MsgArchivedTo (folder : string)
| MsgStarting (max_iterations : Z) (p m : json)
| MsgStartupError (e : exn)
| MsgBanner (i max_iterations : Z)
| MsgOutput (output : string)
| MsgCompleted (i max_iterations : Z)
| MsgContinuing (i : Z)
| MsgIterationError (i : Z) (e : exn)
| MsgMaxReached (max_iterations : Z) (progress_file : string)
| MsgConfigNotFound (path : string)
| MsgInvalidJson
| MsgUncaught (e : exn).

Inductive event : Type :=
| EvOut (m : message)          (* print(...) *)
| EvErr (m : message)          (* print(..., file=sys.stderr), traceback *)
| EvChat (prompt : string)     (* self.llm_client.chat(prompt) is entered *)
| EvSleep (seconds : Z).       (* time.sleep(seconds) *)

(** ** State and environment *)

(** The part of the file system the program touches: regular files by
    path, and the directories it creates. *)
Record Disk : Type := {
  files : gmap string string;
  dirs : gset string
}.

(** [detected] is [RalphLLMClient._detected_provider]; [calls] counts the
    backend exchanges made so far. *)
Record State : Type := {
  disk : Disk;
  detected : option json;
  calls : nat
}.

(** Everything the program obtains from outside: library functions
    ([json.load], [str] on a value that is not a string), the clock, the
    three probes' observations and the three backends. A backend exchange
    may change files (the agent behind it edits the working directory).

    [json_loads] is [json.load] on an open file, as a function of the
    content of the file: the value it returns, or [None] when it raises
    [JSONDecodeError]. [date_str] is a date as [strftime] prints it,
    digits and dashes, so the folder name it starts is a relative one. *)
Record World : Type := {
  json_loads : string -> option json;
  py_str : json -> string;
  date_str : string;                      (* now().strftime('%Y-%m-%d') *)
  now_str : string;                       (* str(datetime.now()) *)
  ollama_list : option (list string);     (* names listed, None: the listing raised *)
  env_api_key : option string;            (* os.getenv('ANTHROPIC_API_KEY') *)
  amp_on_path : bool;                     (* shutil.which('amp') is not None *)
  ollama_chat : nat -> Disk -> LLMConfig -> string -> (exn + string) * Disk;
  claude_create : nat -> Disk -> LLMConfig -> string -> (exn + list (string * string)) * Disk;
  amp_run : nat -> Disk -> string -> (exn + string * string) * Disk
}.

(** ** The effect monad *)

Inductive outcome (A : Type) : Type :=
| Ret (a : A)
| Raise (e : exn)
| SysExit (code : Z).
Arguments Ret {A} a.
Arguments Raise {A} e.
Arguments SysExit {A} code.

Definition M (A : Type) : Type := State -> outcome A * State * list event.

Definition ret {A} (a : A) : M A := fun st => (Ret a, st, []).

Definition bind {A B} (m : M A) (k : A -> M B) : M B :=
  fun st =>
    match m st with
    | (Ret a, st1, ev1) =>
        match k a st1 with
        | (r, st2, ev2) => (r, st2, ev1 ++ ev2)
        end
    | (Raise e, st1, ev1) => (Raise e, st1, ev1)
    | (SysExit c, st1, ev1) => (SysExit c, st1, ev1)
    end.

Notation "'do' x <- m ; k" := (bind m (fun x => k))
  (at level 10, x name, m at level 99, k at level 200).
Notation "m ;; k" := (bind m (fun _ => k))
  (at level 100, k at level 200, right associativity).

Definition raise {A} (e : exn) : M A := fun st => (Raise e, st, []).
Definition sys_exit {A} (code : Z) : M A := fun st => (SysExit code, st, []).
Definition emit (e : event) : M unit := fun st => (Ret tt, st, [e]).
Definition get_state : M State := fun st => (Ret st, st, []).
Definition put_state (st : State) : M unit := fun _ => (Ret tt, st, []).

(** [try: body except Exception as e: handler e]. [sys.exit] raises
    [SystemExit], which is not an [Exception] and passes through. *)
Definition try_except {A} (body : M A) (handler : exn -> M A) : M A :=
  fun st =>
    match body st with
    | (Raise e, st1, ev1) =>
        match handler e st1 with
        | (r, st2, ev2) => (r, st2, ev1 ++ ev2)
        end
    | other => other
    end.

(** *** File operations *)

Definition set_files (f : gmap string string) (st : State) : State :=
  {| disk := {| files := f; dirs := dirs (disk st) |};
     detected := detected st; calls := calls st |}.

Definition path_exists (path : string) : M bool :=
  fun st => (Ret (bool_decide (is_Some (files (disk st) !! path))), st, []).

(** The bytes of the file at [path], as [json.load] and [shutil.copy]
    take them from an open file. *)
Definition read_bytes (path : string) : M string :=
  fun st =>
    match files (disk st) !! path with
    | Some content => (Ret content, st, [])
    | None => (Raise (FileNotFoundError path), st, [])
    end.

(** [with open(path, 'r') as f: f.read()]: the text of the file. *)
Definition read_file (path : string) : M string :=
  fun st =>
    match files (disk st) !! path with
    | Some content =>
        match PyStr.decode content with
        | Some text => (Ret text, st, [])
        | None => (Raise UnicodeDecodeError, st, [])
        end
    | None => (Raise (FileNotFoundError path), st, [])
    end.

(** [open(path, 'w')] followed by writing [content]: on POSIX the text
    is written as it is, in UTF-8. *)
Definition write_file (path content : string) : M unit :=
  fun st => (Ret tt, set_files (<[path := content]> (files (disk st))) st, []).

(** [shutil.copy(src, dst)] of an existing file: the bytes are copied. *)
Definition copy_file (src dst : string) : M unit :=
  do content <- read_bytes src;
  write_file dst content.

(** [path.mkdir(parents=True, exist_ok=True)]; the ancestors are implied. *)
Definition mkdir (path : string) : M unit :=
  fun st =>
    (Ret tt,
     {| disk := {| files := files (disk st); dirs := {[ path ]} ∪ dirs (disk st) |};
        detected := detected st; calls := calls st |},
     []).

(** *** Paths

    A path is the text [str] gives for a [pathlib] path on POSIX. *)

Module PyPath.

(** The texts between the slashes of [s]. *)
Fixpoint components (s : string) : list string :=
  match s with
  | EmptyString => [EmptyString]
  | String c rest =>
      if Ascii.eqb c "/" then EmptyString :: components rest
      else
        match components rest with
        | h :: t => String c h :: t
        | [] => [String c EmptyString]
        end
  end.

(** The components [pathlib] keeps: it drops the empty ones (a doubled or
    a trailing slash) and the single dots; [..] stays. *)
Definition kept (c : string) : bool :=
  negb (String.eqb c "") && negb (String.eqb c ".").

Definition parts (name : string) : list string := List.filter kept (components name).

Fixpoint ends_with_slash (s : string) : bool :=
  match s with
  | EmptyString => false
  | String c EmptyString => Ascii.eqb c "/"
  | String _ rest => ends_with_slash rest
  end.

(** [base / c] for one component [c]; only a root ends with a slash. *)
Definition separator (base : string) : string :=
  if ends_with_slash base then "" else "/".

Definition child (base c : string) : string := base +:+ separator base +:+ c.

(** A relative name that stays below its base: it does not start at the
    root, and no component of it is [..], the step to the parent directory
    that the file system, and not [pathlib], resolves. The files below a
    base are then told apart by the text of their paths. *)
Definition stays_below (name : string) : bool :=
  negb (String.prefix "/" name)
  && forallb (fun c => negb (String.eqb c "..")) (components name).

End PyPath.

(** [base / name] of [pathlib], for a relative [name]: every name the
    program joins is one, a literal file name or the folder name that
    starts with the date. *)
Definition path_join (base name : string) : string :=
  fold_left PyPath.child (PyPath.parts name) base.

(** ** [RalphLLMClient] *)

Module Client.

(** The text an f-string puts for a configuration value. *)
Definition fmt (w : World) (v : json) : string :=
  match v with
  | JStr s => s
  | _ => py_str w v
  end.

(** The three tests of [_check_ollama] on the listed names: exact name,
    name with [:latest], name followed by [:] as a prefix. *)
Definition model_listed (w : World) (m : json) (model_names : list string) : bool :=
  if existsb (Json.eq_str m) model_names then true
  else if existsb (String.eqb (fmt w m +:+ ":latest")) model_names then true
  else existsb (fun name => PyStr.startswith name (fmt w m +:+ ":")) model_names.

Definition _check_ollama (w : World) (cfg : LLMConfig) : M bool :=
  match ollama_list w with
  | Some model_names => ret (model_listed w (model cfg) model_names)
  | None => emit (EvErr MsgOllamaCheckFailed) ;; ret false
  end.

(** [bool(self.config.apiKey or os.getenv('ANTHROPIC_API_KEY'))] *)
Definition _check_claude (w : World) (cfg : LLMConfig) : M bool :=
  ret (if Json.truthy (apiKey cfg) then true
       else match env_api_key w with
            | Some k => negb (String.eqb k "")
            | None => false
            end).

Definition _check_amp (w : World) : M bool := ret (amp_on_path w).

Definition set_detected (p : json) : M unit :=
  fun st =>
    (Ret tt, {| disk := disk st; detected := Some p; calls := calls st |}, []).

Definition memoised (st : State) : option json :=
  match detected st with
  | Some p => if Json.truthy p then Some p else None
  | None => None
  end.

Definition detect_provider (w : World) (cfg : LLMConfig) : M json :=
  do st <- get_state;
  match memoised st with
  | Some p => ret p
  | None =>
      if negb (Json.eq_str (provider cfg) "auto") then
        set_detected (provider cfg) ;; ret (provider cfg)
      else
        do ollama_ok <- _check_ollama w cfg;
        if ollama_ok then set_detected (JStr "ollama") ;; ret (JStr "ollama")
        else
          do claude_ok <- _check_claude w cfg;
          if claude_ok then set_detected (JStr "claude") ;; ret (JStr "claude")
          else
            do amp_ok <- _check_amp w;
            if amp_ok then set_detected (JStr "amp") ;; ret (JStr "amp")
            else raise NoProviderAvailable
  end.

(** One exchange with a backend: the answer (or the exception) comes from
    the world, as does the state of the files afterwards. *)
Definition exchange {T} (backend : nat -> Disk -> (exn + T) * Disk) : M T :=
  fun st =>
    match backend (calls st) (disk st) with
    | (r, d) =>
        let st' := {| disk := d; detected := detected st; calls := S (calls st) |} in
        match r with
        | inl e => (Raise e, st', [])
        | inr t => (Ret t, st', [])
        end
    end.

Definition _chat_ollama (w : World) (cfg : LLMConfig) (prompt : string) : M string :=
  exchange (fun n d => ollama_chat w n d cfg prompt).

(** The text of the blocks whose type is ["text"], concatenated. *)
Fixpoint text_content (blocks : list (string * string)) : string :=
  match blocks with
  | [] => ""
  | (type, text) :: rest =>
      if String.eqb type "text" then text +:+ text_content rest
      else text_content rest
  end.

Definition _chat_claude (w : World) (cfg : LLMConfig) (prompt : string) : M string :=
  do blocks <- exchange (fun n d => claude_create w n d cfg prompt);
  ret (text_content blocks).

Definition _chat_amp (w : World) (prompt : string) : M string :=
  do result <- exchange (fun n d => amp_run w n d prompt);
  ret (fst result +:+ snd result).

Definition chat (w : World) (cfg : LLMConfig) (prompt : string) : M string :=
  emit (EvChat prompt) ;;
  do p <- detect_provider w cfg;
  if Json.eq_str p "ollama" then _chat_ollama w cfg prompt
  else if Json.eq_str p "claude" then _chat_claude w cfg prompt
  else if Json.eq_str p "amp" then _chat_amp w prompt
  else raise (UnknownProvider p).

End Client.

(** ** [load_config] *)

Definition dict_get (d : json) (k : string) (default : json) : M json :=
  match Json.get d k default with
  | Some v => ret v
  | None => raise AttributeError
  end.

(** [json.load(f)] on an open file with this content. *)
Definition json_load (w : World) (text : string) : M json :=
  match json_loads w text with
  | Some v => ret v
  | None => raise JSONDecodeError
  end.

Definition load_config (w : World) (config_path : string) : M LLMConfig :=
  fun st =>
    match files (disk st) !! config_path with
    | None =>
        (* except FileNotFoundError *)
        (emit (EvErr (MsgConfigNotFound config_path)) ;; ret default_config) st
    | Some text =>
        match json_loads w text with
        | None =>
            (* except json.JSONDecodeError *)
            (emit (EvErr MsgInvalidJson) ;; sys_exit 1) st
        | Some data =>
            (do llm_data <- dict_get data "llm" (JObj []);
             do p <- dict_get llm_data "provider" (JStr "auto");
             do m <- dict_get llm_data "model" (JStr "llama3.1");
             do k <- dict_get llm_data "apiKey" (JStr "");
             do u <- dict_get llm_data "ollamaUrl" (JStr "http://localhost:11434");
             ret {| provider := p; model := m; apiKey := k; ollamaUrl := u |}) st
        end
    end.

(** ** [RalphOrchestrator] *)

Record Orchestrator : Type := {
  script_dir : string;
  prd_file : string;
  progress_file : string;
  archive_dir : string;
  last_branch_file : string;
  prompt_file : string;
  config : LLMConfig               (* self.llm_client.config *)
}.

Definition newline : string := String (ascii_of_nat 10) "".

Definition completion_marker : string := "<promise>COMPLETE</promise>".

(** [range(lo, hi)] *)
Definition py_range (lo hi : Z) : list Z :=
  map (fun k => (lo + Z.of_nat k)%Z) (seq 0 (Z.to_nat (hi - lo))).

Module Ralph.

Definition make (dir : string) (cfg : LLMConfig) : Orchestrator :=
  {| script_dir := dir;
     prd_file := path_join dir "prd.json";
     progress_file := path_join dir "progress.txt";
     archive_dir := path_join dir "archive";
     last_branch_file := path_join dir ".last-branch";
     prompt_file := path_join dir "prompt.md";
     config := cfg |}.

(** The file [__init__] reads the configuration from: [config_path] when
    one is given (and not empty), [config.json] beside the script
    otherwise. *)
Definition config_location (dir : string) (config_path : option string) : string :=
  match config_path with
  | Some p => if String.eqb p "" then path_join dir "config.json" else p
  | None => path_join dir "config.json"
  end.

(** [__init__]: the client starts with no detected provider. *)
Definition init (w : World) (dir : string) (config_path : option string) : M Orchestrator :=
  do cfg <- load_config w (config_location dir config_path);
  do st <- get_state;
  put_state {| disk := disk st; detected := None; calls := calls st |} ;;
  ret (make dir cfg).

(** The header [init_progress_file] writes. *)
Definition progress_header (w : World) : string :=
  "# Ralph Progress Log" +:+ newline +:+
  "Started: " +:+ now_str w +:+ newline +:+
  "---" +:+ newline.

Definition init_progress_file (w : World) (o : Orchestrator) : M unit :=
  write_file (progress_file o) (progress_header w).

(** [prd = json.load(f); prd.get('branchName', '')] on [prd.json]. *)
Definition read_branch_name (w : World) (o : Orchestrator) : M json :=
  do content <- read_bytes (prd_file o);
  do prd <- json_load w content;
  dict_get prd "branchName" (JStr "").

(** The name [f"{date_str}-{folder_name}"] of the folder a run on
    [last_branch] is archived to, and the folder. *)
Definition folder_name (w : World) (last_branch : string) : string :=
  date_str w +:+ "-" +:+ PyStr.replace last_branch "ralph/" "".

Definition archive_folder (w : World) (o : Orchestrator) (last_branch : string) : string :=
  path_join (archive_dir o) (folder_name w last_branch).

(** The condition of the [if] in [archive_previous_run]. *)
Definition branch_changed (current_branch : json) (last_branch : string) : bool :=
  Json.truthy current_branch
  && negb (String.eqb last_branch "")
  && negb (Json.eq_str current_branch last_branch).

Definition archive_previous_run (w : World) (o : Orchestrator) : M unit :=
  do has_prd <- path_exists (prd_file o);
  do has_last <- path_exists (last_branch_file o);
  if negb has_prd || negb has_last then ret tt
  else
    do current_branch <- read_branch_name w o;
    do last_text <- read_file (last_branch_file o);
    let last_branch := PyStr.strip last_text in
    if branch_changed current_branch last_branch then
      let folder := archive_folder w o last_branch in
      emit (EvOut (MsgArchiving last_branch)) ;;
      mkdir folder ;;
      do prd_there <- path_exists (prd_file o);
      (if prd_there then copy_file (prd_file o) (path_join folder "prd.json")
       else ret tt) ;;
      do progress_there <- path_exists (progress_file o);
      (if progress_there
       then copy_file (progress_file o) (path_join folder "progress.txt")
       else ret tt) ;;
      emit (EvOut (MsgArchivedTo folder)) ;;
      init_progress_file w o
    else ret tt.

(** [f.write(current_branch)] on the file just opened for writing (and
    so already truncated): only a string can be written. *)
Definition track_current_branch (w : World) (o : Orchestrator) : M unit :=
  do has_prd <- path_exists (prd_file o);
  if has_prd then
    do current_branch <- read_branch_name w o;
    if Json.truthy current_branch then
      write_file (last_branch_file o) "" ;;
      match current_branch with
      | JStr s => write_file (last_branch_file o) s
      | _ => raise TypeError
      end
    else ret tt
  else ret tt.

Definition run_iteration (w : World) (o : Orchestrator) : M (string * bool) :=
  do prompt <- read_file (prompt_file o);
  do output <- Client.chat w (config o) prompt;
  emit (EvErr (MsgOutput output)) ;;
  ret (output, PyStr.contains completion_marker output).

(** The body of the [for] loop for index [i]; [Some code] when [run]
    returns [code] from inside the loop. *)
Definition iteration (w : World) (o : Orchestrator) (max_iterations i : Z) : M (option Z) :=
  emit (EvOut (MsgBanner i max_iterations)) ;;
  do returned <-
    try_except
      (do result <- run_iteration w o;
       if snd result then
         emit (EvOut (MsgCompleted i max_iterations)) ;; ret (Some 0%Z)
       else
         emit (EvOut (MsgContinuing i)) ;; ret None)
      (fun e => emit (EvErr (MsgIterationError i e)) ;; ret None);
  match returned with
  | Some code => ret (Some code)
  | None => emit (EvSleep 2) ;; ret None
  end.

Fixpoint main_loop (w : World) (o : Orchestrator) (max_iterations : Z)
    (indices : list Z) : M Z :=
  match indices with
  | [] =>
      emit (EvOut (MsgMaxReached max_iterations (progress_file o))) ;; ret 1%Z
  | i :: rest =>
      do returned <- iteration w o max_iterations i;
      match returned with
      | Some code => ret code
      | None => main_loop w o max_iterations rest
      end
  end.

(** The setup at the head of [run]. *)
Definition setup (w : World) (o : Orchestrator) : M unit :=
  archive_previous_run w o ;;
  track_current_branch w o ;;
  do has_progress <- path_exists (progress_file o);
  if has_progress then ret tt else init_progress_file w o.

(** The [try] around the detection; [true] when the run goes on. *)
Definition announce_provider (w : World) (o : Orchestrator) (max_iterations : Z) : M bool :=
  try_except
    (do p <- Client.detect_provider w (config o);
     emit (EvOut (MsgStarting max_iterations p (model (config o)))) ;;
     ret true)
    (fun e => emit (EvErr (MsgStartupError e)) ;; ret false).

Definition run (w : World) (o : Orchestrator) (max_iterations : Z) : M Z :=
  setup w o ;;
  do detected_ok <- announce_provider w o max_iterations;
  if detected_ok then
    main_loop w o max_iterations (py_range 1 (max_iterations + 1))
  else ret 1%Z.

(** How the interpreter ends a computation that yields the exit code:
    [sys.exit(code)] gives [code], and an exception that nothing catches
    ends the process with a traceback and status 1. *)
Definition exit_process (m : M Z) (st : State) : Z * State * list event :=
  match m st with
  | (Ret exit_code, st', ev) => (exit_code, st', ev)
  | (SysExit code, st', ev) => (code, st', ev)
  | (Raise e, st', ev) => (1%Z, st', ev ++ [EvErr (MsgUncaught e)])
  end.

(** [main], after the arguments are parsed. *)
Definition main (w : World) (dir : string) (max_iterations : Z)
    (config_path : option string) : State -> Z * State * list event :=
  exit_process (do o <- init w dir config_path; run w o max_iterations).

End Ralph.

(** ** Reading a trace *)

Definition is_chat (e : event) : bool :=
  match e with EvChat _ => true | _ => false end.

(** The pacing delay: a sleep of 2 seconds. *)
Definition is_sleep (e : event) : bool :=
  match e with EvSleep seconds => (seconds =? 2)%Z | _ => false end.

Definition is_banner (e : event) : bool :=
  match e with EvOut (MsgBanner _ _) => true | _ => false end.

Definition is_archiving (e : event) : bool :=
  match e with EvOut (MsgArchiving _) => true | _ => false end.

(** The events of the loop, which the setup and the detection never emit. *)
Definition is_loop_event (e : event) : bool :=
  match e with
  | EvChat _ | EvSleep _ => true
  | EvOut (MsgBanner _ _) | EvOut (MsgCompleted _ _) | EvOut (MsgContinuing _)
  | EvOut (MsgMaxReached _ _) => true
  | EvErr (MsgOutput _) | EvErr (MsgIterationError _ _) => true
  | _ => false
  end.

Definition count (p : event -> bool) (ev : list event) : nat :=
  length (filter (fun e => p e = true) ev).

(** [sub] occurs in [s]: the meaning of Python's [sub in s]. *)
Definition substring_of (sub s : string) : Prop :=
  exists before after, s = before +:+ sub +:+ after.

(** ** Sample data: a working directory, an environment, a configuration *)

Module Sample.

Definition dq : string := String (ascii_of_nat 34) "".

(** The text of a [prd.json] whose branch is [b]. *)
Definition prd_text (b : string) : string :=
  "{" +:+ dq +:+ "branchName" +:+ dq +:+ ": " +:+ dq +:+ b +:+ dq +:+ "}".

(** A loader that knows the task descriptors of the examples. *)
Definition loads (text : string) : option json :=
  if String.eqb text (prd_text "ralph/taskB")
  then Some (JObj [("branchName", JStr "ralph/taskB")])
  else if String.eqb text (prd_text "ralph/taskA")
  then Some (JObj [("branchName", JStr "ralph/taskA")])
  else None.

(** An environment in which no probe succeeds, and whose local model
    service answers the [n]-th exchange with [replies n]. *)
Definition world (replies : nat -> exn + string) : World :=
  {| json_loads := loads;
     py_str := fun _ => "None";
     date_str := "2026-01-31";
     now_str := "2026-01-31 12:00:00.000000";
     ollama_list := None;
     env_api_key := None;
     amp_on_path := false;
     ollama_chat := fun n d _ _ => (replies n, d);
     claude_create := fun _ d _ _ => (inl (BackendError "no api key"), d);
     amp_run := fun _ d _ => (inl (FileNotFoundError "amp"), d) |}.

(** The same environment, with a local model service that lists [names]. *)
Definition world_listing (names : list string) (replies : nat -> exn + string) : World :=
  {| json_loads := loads;
     py_str := fun _ => "None";
     date_str := "2026-01-31";
     now_str := "2026-01-31 12:00:00.000000";
     ollama_list := Some names;
     env_api_key := None;
     amp_on_path := false;
     ollama_chat := fun n d _ _ => (replies n, d);
     claude_create := fun _ d _ _ => (inl (BackendError "no api key"), d);
     amp_run := fun _ d _ => (inl (FileNotFoundError "amp"), d) |}.

Definition config_of (p : string) : LLMConfig :=
  {| provider := JStr p; model := JStr "llama3.1"; apiKey := JStr "";
     ollamaUrl := JStr "http://localhost:11434" |}.

Definition orchestrator (p : string) : Orchestrator := Ralph.make "/work" (config_of p).

Definition state_of (l : list (string * string)) : State :=
  {| disk := {| files := list_to_map l; dirs := ∅ |}; detected := None; calls := 0 |}.

(** A directory with a prompt and a progress log, never run before. *)
Definition fresh : State :=
  state_of [("/work/prompt.md", "do the next task"); ("/work/progress.txt", "notes")].

(** A directory last used for [ralph/taskA], now describing [ralph/taskB]. *)
Definition switched : State :=
  state_of [("/work/prompt.md", "do the next task");
            ("/work/progress.txt", "notes");
            ("/work/prd.json", prd_text "ralph/taskB");
            ("/work/.last-branch", "ralph/taskA")].

(** The same, left by a run on the branch [ralph/tools/ralph/cli], and
    without a progress log. *)
Definition nested : State :=
  state_of [("/work/prompt.md", "do the next task");
            ("/work/prd.json", prd_text "ralph/taskB");
            ("/work/.last-branch", "ralph/tools/ralph/cli")].

(** A directory whose [config.json] does not hold JSON. *)
Definition misconfigured : State :=
  state_of [("/work/prompt.md", "do the next task");
            ("/work/config.json", "{ llm: ")].

(** A directory without a prompt. *)
Definition promptless : State :=
  state_of [("/work/progress.txt", "notes")].

Definition never_done (n : nat) : exn + string := inr "working on it".

Definition done_at (k : nat) (n : nat) : exn + string :=
  if Nat.eqb n k then inr "all green <promise>COMPLETE</promise>" else inr "working on it".

Definition failing_at (k : nat) (n : nat) : exn + string :=
  if Nat.eqb n k then inl (BackendError "connection refused") else inr "working on it".

End Sample.

(** ** The vocabulary of the statements *)

(** The one message a probe can leave in the trace. *)
Definition is_noise (e : event) : Prop := e = EvErr MsgOllamaCheckFailed.

(** The messages of the setup and of the probes. *)
Definition is_setup_event (e : event) : bool :=
  match e with
  | EvOut (MsgArchiving _) | EvOut (MsgArchivedTo _) | EvErr MsgOllamaCheckFailed => true
  | _ => false
  end.

Definition quiet (ev : list event) : Prop :=
  Forall (fun e => is_setup_event e = true) ev.

(** No event of the loop has been emitted. *)
Definition before_loop (ev : list event) : Prop :=
  Forall (fun e => is_loop_event e = false) ev.

Definition is_output (e : event) : Prop := exists out, e = EvErr (MsgOutput out).

(** An output that carries the completion marker. *)
Definition marked (e : event) : Prop :=
  exists out, e = EvErr (MsgOutput out) /\ substring_of completion_marker out.

(** The event is not an output that carries the marker. *)
Definition unmarked (e : event) : bool :=
  match e with
  | EvErr (MsgOutput out) => negb (PyStr.contains completion_marker out)
  | _ => true
  end.

Definition is_iteration_error (e : event) : Prop :=
  exists i x, e = EvErr (MsgIterationError i x).

(** The events of [run_iteration], with the output when there is one: the
    prompt cannot be read, [chat] raises, or [chat] returns. *)
Inductive body_events : list event -> option string -> Prop :=
| body_no_prompt : body_events [] None
| body_chat_raised prompt noise :
    Forall is_noise noise -> body_events (EvChat prompt :: noise) None
| body_chat_returned prompt noise out :
    Forall is_noise noise ->
    body_events (EvChat prompt :: noise ++ [EvErr (MsgOutput out)]) (Some out).

Definition banner (N i : Z) : event := EvOut (MsgBanner i N).

(** The events of one pass through the loop body, by the way it ends. *)
Definition completed_events (N i : Z) (body : list event) : list event :=
  banner N i :: body ++ [EvOut (MsgCompleted i N)].

Definition continued_events (N i : Z) (body : list event) : list event :=
  banner N i :: body ++ [EvOut (MsgContinuing i); EvSleep 2].

Definition failed_events (N i : Z) (body : list event) (e : exn) : list event :=
  banner N i :: body ++ [EvErr (MsgIterationError i e); EvSleep 2].

(** The loop as a relation: from a state, over the indices left, to the
    exit code, the final state and the events. *)
Inductive loop_run (w : World) (o : Orchestrator) (N : Z) :
    list Z -> State -> Z * State * list event -> Prop :=
| loop_exhausted st :
    loop_run w o N [] st (1%Z, st, [EvOut (MsgMaxReached N (progress_file o))])
| loop_completed i rest st out st1 body :
    Ralph.run_iteration w o st = (Ret (out, true), st1, body) ->
    loop_run w o N (i :: rest) st (0%Z, st1, completed_events N i body)
| loop_continued i rest st out st1 body code st2 ev :
    Ralph.run_iteration w o st = (Ret (out, false), st1, body) ->
    loop_run w o N rest st1 (code, st2, ev) ->
    loop_run w o N (i :: rest) st (code, st2, continued_events N i body ++ ev)
| loop_failed i rest st e st1 body code st2 ev :
    Ralph.run_iteration w o st = (Raise e, st1, body) ->
    loop_run w o N rest st1 (code, st2, ev) ->
    loop_run w o N (i :: rest) st (code, st2, failed_events N i body e ++ ev).

(** No probe of the environment succeeds for the configuration. *)
Definition probes_fail (w : World) (cfg : LLMConfig) : Prop :=
  match ollama_list w with
  | Some names => Client.model_listed w (model cfg) names = false
  | None => True
  end /\
  Json.truthy (apiKey cfg) = false /\
  match env_api_key w with Some k => k = "" | None => True end /\
  amp_on_path w = false.

(** The file at [path] is there and can be read as text. *)
Definition readable (d : Disk) (path : string) : Prop :=
  is_Some (files d !! path ≫= PyStr.decode).

(** No backend exchange leaves the prompt file unreadable. *)
Definition keeps_prompt (w : World) (o : Orchestrator) : Prop :=
  forall n d cfg prompt,
    readable d (prompt_file o) ->
    readable (ollama_chat w n d cfg prompt).2 (prompt_file o) /\
    readable (claude_create w n d cfg prompt).2 (prompt_file o) /\
    readable (amp_run w n d prompt).2 (prompt_file o).

(** The identity of the task [prd.json] describes, when the file is there
    and holds a JSON object. *)
Definition task_identity (w : World) (o : Orchestrator) (st : State) : option json :=
  match files (disk st) !! prd_file o with
  | Some text =>
      match json_loads w text with
      | Some prd => Json.get prd "branchName" (JStr "")
      | None => None
      end
  | None => None
  end.

(** The identity [.last-branch] records, when the file is there. *)
Definition last_identity (o : Orchestrator) (st : State) : option string :=
  PyStr.strip <$> (files (disk st) !! last_branch_file o ≫= PyStr.decode).

(** Both files exist, both identities are non-empty, and they differ. *)
Definition archival_due (w : World) (o : Orchestrator) (st : State) (last : string) : Prop :=
  exists current,
    task_identity w o st = Some current /\ last_identity o st = Some last /\
    Json.truthy current = true /\ last <> "" /\ current <> JStr last.

(** The files after an archival of the run on [last]. *)
Definition archived_files (w : World) (o : Orchestrator) (last : string)
    (f : gmap string string) : gmap string string :=
  let folder := Ralph.archive_folder w o last in
  let f1 := match f !! prd_file o with
            | Some c => <[path_join folder "prd.json" := c]> f
            | None => f
            end in
  let f2 := match f1 !! progress_file o with
            | Some c => <[path_join folder "progress.txt" := c]> f1
            | None => f1
            end in
  <[progress_file o := Ralph.progress_header w]> f2.

Definition archived_state (w : World) (o : Orchestrator) (last : string) (st : State) : State :=
  {| disk := {| files := archived_files w o last (files (disk st));
                dirs := {[ Ralph.archive_folder w o last ]} ∪ dirs (disk st) |};
     detected := detected st; calls := calls st |}.

(** A provider name that [chat] does not know, and that is not [auto]. *)
Definition unknown_provider (p : json) : Prop :=
  Json.eq_str p "auto" = false /\ Json.eq_str p "ollama" = false /\
  Json.eq_str p "claude" = false /\ Json.eq_str p "amp" = false.

(** The memoised provider, if any, is the pinned one. *)
Definition memo_agrees (cfg : LLMConfig) (st : State) : Prop :=
  Client.memoised st = None \/ Client.memoised st = Some (provider cfg).

(** What [run] amounts to as a process: the setup fails, the detection
    fails, or the loop runs. *)
Inductive run_result (w : World) (o : Orchestrator) (N : Z) (st : State) :
    Z * State * list event -> Prop :=
| run_setup_failed e st1 ev1 :
    Ralph.setup w o st = (Raise e, st1, ev1) ->
    run_result w o N st (1%Z, st1, ev1 ++ [EvErr (MsgUncaught e)])
| run_no_provider e st1 ev1 st2 noise :
    Ralph.setup w o st = (Ret tt, st1, ev1) ->
    Client.detect_provider w (config o) st1 = (Raise e, st2, noise) ->
    run_result w o N st (1%Z, st2, (ev1 ++ noise) ++ [EvErr (MsgStartupError e)])
| run_looped p st1 ev1 st2 noise code st3 ev :
    Ralph.setup w o st = (Ret tt, st1, ev1) ->
    Client.detect_provider w (config o) st1 = (Ret p, st2, noise) ->
    loop_run w o N (py_range 1 (N + 1)) st2 (code, st3, ev) ->
    run_result w o N st
      (code, st3, (ev1 ++ noise) ++ EvOut (MsgStarting N p (model (config o))) :: ev).

(** A file of the working directory that the setup reads or leaves alone:
    the task descriptor, the prompt and the configuration. *)
Definition setup_input (dir path : string) : Prop :=
  path = path_join dir "prd.json" \/ path = path_join dir "prompt.md" \/
  path = path_join dir "config.json".

(** The sample environment with another JSON loader. *)
Definition world_loading (loads : string -> option json) : World :=
  {| json_loads := loads;
     py_str := py_str (Sample.world Sample.never_done);
     date_str := date_str (Sample.world Sample.never_done);
     now_str := now_str (Sample.world Sample.never_done);
     ollama_list := None;
     env_api_key := None;
     amp_on_path := false;
     ollama_chat := ollama_chat (Sample.world Sample.never_done);
     claude_create := claude_create (Sample.world Sample.never_done);
     amp_run := amp_run (Sample.world Sample.never_done) |}.

Arguments Json.get : simpl never.
Arguments Ralph.branch_changed : simpl never.
Arguments PyStr.strip : simpl never.
Arguments PyStr.replace : simpl never.
Arguments Ralph.archive_folder : simpl never.
Arguments Ralph.progress_header : simpl never.
Arguments path_join : simpl never.

Ltac run_monad :=
  repeat progress
    (unfold bind, ret, raise, sys_exit, emit, get_state, put_state, try_except,
       path_exists, read_bytes, read_file, write_file, copy_file, mkdir, dict_get, json_load,
       set_files in *).

Ltac split_if :=
  repeat match goal with
    | |- context [if ?b then _ else _] => destruct b eqn:?; simpl
    end.

Ltac conclude :=
  simpl; eexists _, _, _; split; [reflexivity|];
  repeat split; auto; try discriminate; repeat constructor.

(** * Properties *)

(** ** Strings *)

Section Strings.

Lemma append_cons (c : ascii) (s t : string) :
  String c s +:+ t = String c (s +:+ t).
Proof. reflexivity. Qed.

Lemma append_nil (t : string) : "" +:+ t = t.
Proof. reflexivity. Qed.

Lemma prefix_true_iff (p s : string) :
  String.prefix p s = true <-> exists r, s = p +:+ r.
Proof.
  revert s. induction p as [|c p IH]; intros s.
  - split; [intros _; exists s; reflexivity | intros _; destruct s; reflexivity].
  - destruct s as [|d s]; simpl.
    + split; [discriminate | intros [r Hr]; discriminate].
    + destruct (ascii_dec c d) as [->|Hne].
      * rewrite IH. split; intros [r Hr]; exists r;
          rewrite append_cons in *; congruence.
      * split; [discriminate | intros [r Hr]; rewrite append_cons in Hr; congruence].
Qed.

Lemma contains_true_iff (needle hay : string) :
  PyStr.contains needle hay = true <-> substring_of needle hay.
Proof.
  unfold substring_of. induction hay as [|c hay IH].
  - change (PyStr.contains needle "") with (String.prefix needle "").
    rewrite prefix_true_iff. split.
    + intros [r Hr]. exists "", r. exact Hr.
    + intros [[|b before] [after H]]; [eauto | discriminate].
  - change (PyStr.contains needle (String c hay))
      with (String.prefix needle (String c hay) || PyStr.contains needle hay).
    rewrite orb_true_iff, IH, prefix_true_iff. split.
    + intros [[r Hr] | (before & after & H)].
      * exists "", r. exact Hr.
      * exists (String c before), after. rewrite append_cons. congruence.
    + intros [[|b before] [after H]].
      * left. eauto.
      * right. exists before, after. rewrite append_cons in H. congruence.
Qed.

Lemma contains_false_iff (needle hay : string) :
  PyStr.contains needle hay = false <-> ~ substring_of needle hay.
Proof.
  rewrite <- contains_true_iff. destruct (PyStr.contains needle hay); split;
    congruence.
Qed.

End Strings.

(** ** Reading a file *)

(** [read_file] returns the decoded text of the file, or raises and
    leaves the state as it is. *)
Lemma read_file_cases (path : string) (st : State) :
  (exists text,
     read_file path st = (Ret text, st, []) /\
     files (disk st) !! path ≫= PyStr.decode = Some text) \/
  (exists e,
     read_file path st = (Raise e, st, []) /\
     files (disk st) !! path ≫= PyStr.decode = None).
Proof.
  unfold read_file. destruct (files (disk st) !! path) as [content|]; simpl; [|eauto].
  destruct (PyStr.decode content); eauto.
Qed.

(** ** Detection and chat *)

Section Detection.

Variable w : World.
Variable cfg : LLMConfig.

Lemma detect_provider_spec (st : State) :
  exists r st1 ev,
    Client.detect_provider w cfg st = (r, st1, ev) /\
    Forall is_noise ev /\ (forall c, r <> SysExit c) /\
    disk st1 = disk st /\ calls st1 = calls st.
Proof.
  unfold Client.detect_provider, Client._check_ollama, Client._check_claude,
    Client._check_amp, Client.set_detected.
  run_monad.
  destruct (Client.memoised st); [conclude|].
  destruct (negb _); [conclude|].
  destruct (ollama_list w) as [names|]; simpl; split_if; conclude.
Qed.

(** A pinned provider is returned as it is, with no probe. *)
Lemma detect_provider_pinned (st : State) :
  Json.eq_str (provider cfg) "auto" = false ->
  Client.memoised st = None \/ Client.memoised st = Some (provider cfg) ->
  exists st1,
    Client.detect_provider w cfg st = (Ret (provider cfg), st1, []) /\
    disk st1 = disk st /\ calls st1 = calls st /\
    (detected st1 = Some (provider cfg)).
Proof.
  intros Hpin Hmemo.
  unfold Client.detect_provider, Client.set_detected. run_monad.
  destruct Hmemo as [-> | Hm].
  - rewrite Hpin. simpl. eexists. split; [reflexivity|]. auto.
  - rewrite Hm. simpl. exists st. split; [reflexivity|]. repeat split.
    unfold Client.memoised in Hm. destruct (detected st) as [p|]; [|discriminate].
    destruct (Json.truthy p); congruence.
Qed.

Lemma detect_provider_none (st : State) :
  Json.eq_str (provider cfg) "auto" = true ->
  Client.memoised st = None ->
  probes_fail w cfg ->
  exists ev,
    Client.detect_provider w cfg st = (Raise NoProviderAvailable, st, ev) /\
    Forall is_noise ev.
Proof.
  intros Hauto Hmemo (Ho & Hk & He & Ha).
  unfold Client.detect_provider, Client._check_ollama, Client._check_claude,
    Client._check_amp, Client.set_detected.
  run_monad. rewrite Hmemo, Hauto, Hk, Ha. simpl.
  assert (match env_api_key w with Some k => negb (String.eqb k "") | None => false end = false) as ->.
  { destruct (env_api_key w) as [k|]; [subst k|]; reflexivity. }
  destruct (ollama_list w) as [names|]; simpl.
  - rewrite Ho. simpl. eexists. split; [reflexivity | constructor].
  - eexists. split; [reflexivity | repeat constructor].
Qed.

Lemma exchange_spec {T} (backend : nat -> Disk -> (exn + T) * Disk) (st : State) :
  exists r st1, Client.exchange backend st = (r, st1, []) /\
    (forall c, r <> SysExit c) /\
    disk st1 = (backend (calls st) (disk st)).2 /\
    detected st1 = detected st.
Proof.
  unfold Client.exchange. destruct (backend _ _) as [[e|t] d]; simpl;
    eexists _, _; (split; [reflexivity|]); repeat split; discriminate.
Qed.

Lemma chat_spec (prompt : string) (st : State) :
  exists r st1 noise,
    Client.chat w cfg prompt st = (r, st1, EvChat prompt :: noise) /\
    Forall is_noise noise /\ (forall c, r <> SysExit c).
Proof.
  unfold Client.chat, Client._chat_ollama, Client._chat_claude, Client._chat_amp.
  unfold bind at 1. unfold emit. unfold bind at 1.
  destruct (detect_provider_spec st) as (r & st1 & ev & -> & Hev & Hr & _).
  destruct r as [p|e|c]; [| conclude | destruct (Hr c); reflexivity].
  split_if.
  - destruct (exchange_spec (λ n d, ollama_chat w n d cfg prompt) st1) as (r & st2 & -> & Hr2 & _).
    exists r, st2, ev. rewrite app_nil_r. auto.
  - unfold bind.
    destruct (exchange_spec (λ n d, claude_create w n d cfg prompt) st1) as (r & st2 & -> & Hr2 & _).
    destruct r as [t|e|c]; [| | destruct (Hr2 c); reflexivity]; unfold ret; simpl;
      rewrite ?app_nil_r; conclude.
  - unfold bind.
    destruct (exchange_spec (λ n d, amp_run w n d prompt) st1) as (r & st2 & -> & Hr2 & _).
    destruct r as [t|e|c]; [| | destruct (Hr2 c); reflexivity]; unfold ret; simpl;
      rewrite ?app_nil_r; conclude.
  - unfold raise. rewrite app_nil_r. conclude.
Qed.

End Detection.

(** ** One iteration and the loop *)

Section Loop.

Variable w : World.
Variable o : Orchestrator.
Variable N : Z.

Lemma run_iteration_spec (st : State) :
  exists r st1 ev,
    Ralph.run_iteration w o st = (r, st1, ev) /\
    match r with
    | Ret (out, complete) =>
        complete = PyStr.contains completion_marker out /\ body_events ev (Some out)
    | Raise e => body_events ev None
    | SysExit _ => False
    end.
Proof.
  unfold Ralph.run_iteration. unfold bind at 1.
  destruct (read_file_cases (prompt_file o) st) as [(prompt & -> & _) | (e & -> & _)].
  - unfold bind at 1.
    destruct (chat_spec w (config o) prompt st) as (r & st1 & noise & -> & Hn & Hr).
    destruct r as [out|e|c]; [| | destruct (Hr c); reflexivity].
    + run_monad. simpl. eexists _, _, _. split; [reflexivity|].
      rewrite ?app_nil_r. split; [reflexivity | by constructor].
    + eexists _, _, _. split; [reflexivity|]. simpl. by constructor.
  - eexists _, _, _. split; [reflexivity|]. constructor.
Qed.

Lemma iteration_unfold (i : Z) (st : State) :
  Ralph.iteration w o N i st =
  match Ralph.run_iteration w o st with
  | (Ret (out, true), st1, body) => (Ret (Some 0%Z), st1, completed_events N i body)
  | (Ret (out, false), st1, body) => (Ret None, st1, continued_events N i body)
  | (Raise e, st1, body) => (Ret None, st1, failed_events N i body e)
  | (SysExit c, st1, body) => (SysExit c, st1, banner N i :: body)
  end.
Proof.
  unfold Ralph.iteration, completed_events, continued_events, failed_events.
  run_monad. simpl.
  destruct (Ralph.run_iteration w o st) as [[[[out []]|e|c] st1] body]; simpl;
    rewrite ?app_nil_r, <- ?app_assoc; reflexivity.
Qed.

(** The loop always returns, and its result is the one of [loop_run]. *)
Lemma main_loop_run (indices : list Z) (st : State) :
  exists code st' ev,
    Ralph.main_loop w o N indices st = (Ret code, st', ev) /\
    loop_run w o N indices st (code, st', ev).
Proof.
  revert st. induction indices as [|i rest IH]; intros st.
  - eexists _, _, _. split; [reflexivity | constructor].
  - simpl. unfold bind at 1. rewrite iteration_unfold.
    destruct (run_iteration_spec st) as (r & st1 & body & Hrun & Hr).
    rewrite Hrun.
    destruct r as [[out complete]|e|c]; [destruct complete | | destruct Hr].
    + eexists _, _, _. split; [unfold ret; rewrite app_nil_r; reflexivity|].
      econstructor. exact Hrun.
    + destruct (IH st1) as (code & st2 & ev & -> & Hloop).
      eexists _, _, _. split; [reflexivity|]. econstructor; eassumption.
    + destruct (IH st1) as (code & st2 & ev & -> & Hloop).
      eexists _, _, _. split; [reflexivity|]. econstructor; eassumption.
Qed.

End Loop.

(** ** Archival *)

Section Archive.

Variable w : World.
Variable o : Orchestrator.

Lemma branch_changed_true (current : json) (last : string) :
  Ralph.branch_changed current last = true <->
  Json.truthy current = true /\ last <> "" /\ current <> JStr last.
Proof.
  unfold Ralph.branch_changed.
  rewrite !andb_true_iff, !negb_true_iff, String.eqb_neq.
  assert (Json.eq_str current last = false <-> current <> JStr last) as ->; [|tauto].
  destruct current; simpl; try (split; [discriminate | reflexivity]).
  rewrite String.eqb_neq. split; congruence.
Qed.

Lemma is_Some_bool_decide {A} (x : option A) :
  bool_decide (is_Some x) = match x with Some _ => true | None => false end.
Proof.
  destruct x; [apply bool_decide_eq_true_2; eauto | apply bool_decide_eq_false_2].
  intros [? ?]; discriminate.
Qed.

Lemma archive_when_due (st : State) (last : string) :
  archival_due w o st last ->
  Ralph.archive_previous_run w o st =
    (Ret tt, archived_state w o last st,
     [EvOut (MsgArchiving last); EvOut (MsgArchivedTo (Ralph.archive_folder w o last))]).
Proof.
  intros (current & Hcur & Hlast & Htruthy & Hne & Hdiff).
  unfold task_identity, last_identity in *.
  destruct (files (disk st) !! prd_file o) as [text|] eqn:Hprd; [|discriminate].
  destruct (json_loads w text) as [prd|] eqn:Hload; [|discriminate].
  destruct (files (disk st) !! last_branch_file o) as [lbytes|] eqn:Hl; [|discriminate].
  simpl in Hlast.
  destruct (PyStr.decode lbytes) as [ltext|] eqn:Hdec; [|discriminate].
  simpl in Hlast. injection Hlast as <-.
  assert (Ralph.branch_changed current (PyStr.strip ltext) = true) as Hchg
    by (apply branch_changed_true; auto).
  unfold Ralph.archive_previous_run, Ralph.read_branch_name, Ralph.init_progress_file.
  run_monad. simpl. rewrite !is_Some_bool_decide, Hprd, Hl. simpl.
  rewrite Hprd, Hload. rewrite Hcur, Hl, Hdec. simpl. rewrite Hchg. simpl.
  rewrite !is_Some_bool_decide, Hprd. simpl. rewrite Hprd. simpl.
  rewrite !is_Some_bool_decide.
  unfold archived_state, archived_files. rewrite Hprd. 
  destruct (_ !! progress_file o) as [c|] eqn:Hprog; simpl.
  - rewrite Hprog. simpl. reflexivity.
  - reflexivity.
Qed.

Lemma archive_when_not_due (st : State) :
  (forall last, ~ archival_due w o st last) ->
  exists r, Ralph.archive_previous_run w o st = (r, st, []) /\
            (r = Ret tt \/ exists e, r = Raise e).
Proof.
  intros Hnot.
  unfold Ralph.archive_previous_run, Ralph.read_branch_name.
  run_monad. simpl. rewrite !is_Some_bool_decide.
  destruct (files (disk st) !! prd_file o) as [text|] eqn:Hprd; simpl; [|eauto].
  destruct (files (disk st) !! last_branch_file o) as [ltext|] eqn:Hl; simpl; [|eauto].
  rewrite Hprd. simpl.
  destruct (json_loads w text) as [prd|] eqn:Hload; simpl; [|eauto].
  destruct (Json.get prd "branchName" (JStr "")) as [current|] eqn:Hcur; simpl; [|eauto].
  rewrite Hl. simpl.
  destruct (PyStr.decode ltext) as [last_text|] eqn:Hdec; simpl; [|eauto].
  destruct (Ralph.branch_changed current (PyStr.strip last_text)) eqn:Hchg; simpl; [|eauto].
  exfalso. apply (Hnot (PyStr.strip last_text)).
  apply branch_changed_true in Hchg. exists current.
  unfold task_identity, last_identity. rewrite Hprd, Hload, Hl. simpl.
  rewrite Hdec. simpl. tauto.
Qed.

End Archive.

(** ** Setup and detection in [run] *)

Section Setup.

Variable w : World.
Variable o : Orchestrator.

Lemma archival_due_dec (st : State) :
  (exists last, archival_due w o st last) \/ (forall last, ~ archival_due w o st last).
Proof.
  unfold archival_due.
  destruct (task_identity w o st) as [current|]; [|right; intros last (c & H & _); discriminate].
  destruct (last_identity o st) as [last|]; [|right; intros l (c & _ & H & _); discriminate].
  destruct (Ralph.branch_changed current last) eqn:Hchg.
  - left. exists last, current. apply branch_changed_true in Hchg. tauto.
  - right. intros l (c & Hc & Hl & H). injection Hc as <-. injection Hl as <-.
    apply branch_changed_true in H. congruence.
Qed.

Lemma archival_due_unique (st : State) (a b : string) :
  archival_due w o st a -> archival_due w o st b -> a = b.
Proof. intros (? & _ & Ha & _) (? & _ & Hb & _). congruence. Qed.

(** [track_current_branch] prints nothing and writes [.last-branch] only. *)
Lemma track_spec (st : State) :
  exists r st1,
    Ralph.track_current_branch w o st = (r, st1, []) /\
    (r = Ret tt \/ exists e, r = Raise e) /\
    detected st1 = detected st /\ calls st1 = calls st /\
    forall path, path <> last_branch_file o ->
      files (disk st1) !! path = files (disk st) !! path.
Proof.
  unfold Ralph.track_current_branch, Ralph.read_branch_name.
  run_monad. simpl. rewrite is_Some_bool_decide.
  destruct (files (disk st) !! prd_file o) as [text|] eqn:Hprd; simpl; [|eauto 10].
  rewrite Hprd.
  destruct (json_loads w text) as [prd|]; simpl; [|eauto 10].
  destruct (Json.get prd "branchName" (JStr "")) as [current|]; simpl; [|eauto 10].
  destruct (Json.truthy current); simpl; [|eauto 10].
  destruct current; simpl; eexists _, _; (split; [reflexivity|]);
    (split; [eauto|]); repeat split; intros path Hpath; simpl;
    rewrite ?lookup_insert_ne by congruence; reflexivity.
Qed.

Lemma setup_quiet (st : State) :
  exists r st1 ev,
    Ralph.setup w o st = (r, st1, ev) /\
    (r = Ret tt \/ exists e, r = Raise e) /\
    quiet ev /\ (count is_archiving ev <= 1)%nat /\
    detected st1 = detected st /\ calls st1 = calls st.
Proof.
  unfold Ralph.setup. unfold bind at 1.
  assert (exists r st0 ev0, Ralph.archive_previous_run w o st = (r, st0, ev0) /\
            (r = Ret tt \/ exists e, r = Raise e) /\ quiet ev0 /\
            (count is_archiving ev0 <= 1)%nat /\
            detected st0 = detected st /\ calls st0 = calls st) as Harch.
  { destruct (archival_due_dec st) as [[last Hdue] | Hnot].
    - rewrite (archive_when_due _ _ _ _ Hdue). eexists _, _, _.
      split; [reflexivity|]. split; [auto|]. split; [repeat constructor|].
      split; [vm_compute; lia | auto].
    - destruct (archive_when_not_due _ _ _ Hnot) as (r & -> & Hr).
      eexists _, _, _. split; [reflexivity|]. split; [auto|].
      split; [constructor|]. split; [vm_compute; lia | auto]. }
  destruct Harch as (r & st0 & ev0 & -> & Hr & Hq & Hc & Hd & Hk).
  destruct Hr as [-> | [e ->]]; [| eexists _, _, _; split; [reflexivity|]; eauto 10].
  unfold bind at 1.
  destruct (track_spec st0) as (r & st1 & -> & Hr & Hd1 & Hk1 & _).
  destruct Hr as [-> | [e ->]].
  2:{ eexists _, _, _; split; [reflexivity|]; rewrite app_nil_r;
       repeat split; eauto; congruence. }
  unfold Ralph.init_progress_file. run_monad. simpl.
  destruct (bool_decide _); simpl; rewrite !app_nil_r;
    eexists _, _, _; (split; [reflexivity|]); repeat split; auto; simpl; congruence.
Qed.

Variable N : Z.

(** The detection either announces the provider or reports the error. *)
Lemma announce_provider_spec (st : State) :
  exists ok st1 noise last,
    Ralph.announce_provider w o N st = (Ret ok, st1, noise ++ [last]) /\
    Forall is_noise noise /\ disk st1 = disk st /\ calls st1 = calls st /\
    if ok
    then exists p,
           Client.detect_provider w (config o) st = (Ret p, st1, noise) /\
           last = EvOut (MsgStarting N p (model (config o)))
    else exists e,
           Client.detect_provider w (config o) st = (Raise e, st1, noise) /\
           last = EvErr (MsgStartupError e).
Proof.
  unfold Ralph.announce_provider, try_except. unfold bind at 1.
  destruct (detect_provider_spec w (config o) st) as (r & st1 & ev & Hdet & Hn & Hr & Hd & Hc).
  rewrite Hdet.
  destruct r as [p|e|c]; [| | destruct (Hr c); reflexivity].
  - run_monad. simpl. exists true, st1, ev, (EvOut (MsgStarting N p (model (config o)))).
    repeat split; eauto.
  - run_monad. simpl. exists false, st1, ev, (EvErr (MsgStartupError e)).
    repeat split; eauto.
Qed.

End Setup.

(** ** Lists of events *)

Section Lists.

Context {A : Type}.

Lemma app_cons_split (l1 l2 t1 t2 : list A) (x : A) :
  l1 ++ l2 = t1 ++ x :: t2 ->
  (exists m, l1 = t1 ++ x :: m /\ t2 = m ++ l2) \/
  (exists m, t1 = l1 ++ m /\ l2 = m ++ x :: t2).
Proof.
  revert t1. induction l1 as [|a l1 IH]; intros t1 H.
  - right. exists t1. auto.
  - destruct t1 as [|b t1]; simpl in H.
    + injection H as -> <-. left. exists l1. auto.
    + injection H as -> H. destruct (IH _ H) as [(m & -> & ->) | (m & -> & ->)];
        [left | right]; exists m; auto.
Qed.

(** An element with a property none of [pre] has lies beyond [pre]. *)
Lemma split_skip_prefix (P : A -> Prop) (pre l t1 t2 : list A) (x : A) :
  Forall (fun a => ~ P a) pre -> P x ->
  pre ++ l = t1 ++ x :: t2 ->
  exists m, t1 = pre ++ m /\ l = m ++ x :: t2.
Proof.
  intros Hpre Hx H. destruct (app_cons_split _ _ _ _ _ H) as [(m & -> & _) | Hm];
    [| exact Hm].
  apply Forall_app in Hpre as [_ Hpre]. apply Forall_cons in Hpre as [Hnx _].
  contradiction.
Qed.

(** The only element with the property is found at its place. *)
Lemma split_unique (P : A -> Prop) (pre suf t1 t2 : list A) (x y : A) :
  Forall (fun a => ~ P a) pre -> Forall (fun a => ~ P a) suf -> P y ->
  pre ++ x :: suf = t1 ++ y :: t2 ->
  t1 = pre /\ y = x /\ t2 = suf.
Proof.
  intros Hpre Hsuf Hy H.
  destruct (split_skip_prefix P _ _ _ _ _ Hpre Hy H) as (m & -> & Hm).
  destruct m as [|b m]; simpl in Hm.
  - injection Hm as -> ->. rewrite app_nil_r. auto.
  - injection Hm as -> ->. apply Forall_app in Hsuf as [_ Hsuf].
    apply Forall_cons in Hsuf as [Hny _]. contradiction.
Qed.

End Lists.

Lemma count_nil (p : event -> bool) : count p [] = 0%nat.
Proof. reflexivity. Qed.

Lemma count_cons (p : event -> bool) (e : event) (ev : list event) :
  count p (e :: ev) = ((if p e then 1 else 0) + count p ev)%nat.
Proof.
  unfold count. rewrite filter_cons.
  destruct (decide (p e = true)) as [H|H];
    [rewrite H | apply not_true_is_false in H; rewrite H]; reflexivity.
Qed.

Lemma count_app (p : event -> bool) (a b : list event) :
  count p (a ++ b) = (count p a + count p b)%nat.
Proof. unfold count. rewrite filter_app, length_app. reflexivity. Qed.

Lemma count_none (p : event -> bool) (ev : list event) :
  Forall (fun e => p e = false) ev -> count p ev = 0%nat.
Proof.
  induction 1 as [|e ev He _ IH]; [reflexivity|].
  rewrite count_cons, He, IH. reflexivity.
Qed.

Lemma noise_count (p : event -> bool) (noise : list event) :
  p (EvErr MsgOllamaCheckFailed) = false ->
  Forall is_noise noise -> count p noise = 0%nat.
Proof.
  intros Hp Hn. apply count_none. eapply Forall_impl; [exact Hn|].
  intros e ->. exact Hp.
Qed.

Lemma quiet_count (p : event -> bool) (ev : list event) :
  (forall e, is_setup_event e = true -> p e = false) ->
  quiet ev -> count p ev = 0%nat.
Proof.
  intros Hp Hq. apply count_none. eapply Forall_impl; [exact Hq | exact Hp].
Qed.

Lemma noise_quiet (noise : list event) : Forall is_noise noise -> quiet noise.
Proof. intros H. eapply Forall_impl; [exact H|]. intros e ->. reflexivity. Qed.

(** ** The trace of the loop *)

Lemma noise_without (P : event -> Prop) (noise : list event) :
  ~ P (EvErr MsgOllamaCheckFailed) ->
  Forall is_noise noise -> Forall (fun e => ~ P e) noise.
Proof. intros HP H. eapply Forall_impl; [exact H|]. intros e ->. exact HP. Qed.

Lemma body_counts (body : list event) (oo : option string) :
  body_events body oo ->
  count is_banner body = 0%nat /\ count is_sleep body = 0%nat /\
  (count is_chat body <= 1)%nat.
Proof.
  intros H. destruct H as [|prompt noise Hn|prompt noise out Hn].
  all: rewrite ?count_cons, ?count_app, ?count_cons, ?count_nil; simpl.
  - repeat split; lia.
  - rewrite !noise_count by (reflexivity || assumption). repeat split; lia.
  - rewrite !noise_count by (reflexivity || assumption). repeat split; lia.
Qed.

Lemma body_without_banner (body : list event) (oo : option string) :
  body_events body oo -> Forall (fun e => ~ is_banner e = true) body.
Proof.
  destruct 1 as [|prompt noise Hn|prompt noise out Hn];
    repeat first [apply Forall_nil_2 | apply Forall_cons_2 | apply Forall_app_2];
    try discriminate;
    (apply (noise_without (fun e => is_banner e = true)); [discriminate | assumption]).
Qed.

Lemma body_without_error (body : list event) (oo : option string) :
  body_events body oo -> Forall (fun e => ~ is_iteration_error e) body.
Proof.
  destruct 1 as [|prompt noise Hn|prompt noise out Hn];
    repeat first [apply Forall_nil_2 | apply Forall_cons_2 | apply Forall_app_2];
    try (intros (? & ? & ?); discriminate);
    (apply (noise_without is_iteration_error);
     [intros (? & ? & ?); discriminate | assumption]).
Qed.

Lemma body_without_marker (body : list event) (oo : option string) :
  body_events body oo ->
  (forall out, oo = Some out -> ~ substring_of completion_marker out) ->
  Forall (fun e => ~ marked e) body.
Proof.
  destruct 1 as [|prompt noise Hn|prompt noise out Hn]; intros Hout;
    repeat first [apply Forall_nil_2 | apply Forall_cons_2 | apply Forall_app_2];
    try (intros (? & ? & ?); discriminate);
    try (apply (noise_without marked);
         [intros (? & ? & ?); discriminate | assumption]).
  intros (out' & Heq & Hsub). injection Heq as <-. exact (Hout out eq_refl Hsub).
Qed.

Lemma completed_events_shape (N i : Z) (prompt : string) (noise : list event)
    (out : string) :
  completed_events N i (EvChat prompt :: noise ++ [EvErr (MsgOutput out)]) =
  (banner N i :: EvChat prompt :: noise) ++
    EvErr (MsgOutput out) :: [EvOut (MsgCompleted i N)].
Proof. unfold completed_events. simpl. rewrite <- app_assoc. reflexivity. Qed.

Lemma continued_banners (N i : Z) (body : list event) (oo : option string) :
  body_events body oo -> count is_banner (continued_events N i body) = 1%nat.
Proof.
  intros Hb. apply body_counts in Hb as (Hb & _).
  unfold continued_events. rewrite count_cons, count_app, Hb. reflexivity.
Qed.

Lemma failed_banners (N i : Z) (body : list event) (e : exn) (oo : option string) :
  body_events body oo -> count is_banner (failed_events N i body e) = 1%nat.
Proof.
  intros Hb. apply body_counts in Hb as (Hb & _).
  unfold failed_events. rewrite count_cons, count_app, Hb. reflexivity.
Qed.

Section LoopTrace.

Variable w : World.
Variable o : Orchestrator.
Variable N : Z.

Lemma run_iteration_returns (st st1 : State) (out : string) (complete : bool)
    (body : list event) :
  Ralph.run_iteration w o st = (Ret (out, complete), st1, body) ->
  complete = PyStr.contains completion_marker out /\ body_events body (Some out).
Proof.
  intros H. destruct (run_iteration_spec w o st) as (r & st' & ev & Hrun & Hr).
  rewrite H in Hrun. injection Hrun as <- <- <-. exact Hr.
Qed.

Lemma run_iteration_raises (st st1 : State) (e : exn) (body : list event) :
  Ralph.run_iteration w o st = (Raise e, st1, body) -> body_events body None.
Proof.
  intros H. destruct (run_iteration_spec w o st) as (r & st' & ev & Hrun & Hr).
  rewrite H in Hrun. injection Hrun as <- <- <-. exact Hr.
Qed.

(** An output that carries the marker ends the trace: only the completion
    message follows it, and the exit code is 0. *)
Lemma loop_run_marker (indices : list Z) (st : State) (res : Z * State * list event) :
  loop_run w o N indices st res ->
  forall t1 out t2,
    res.2 = t1 ++ EvErr (MsgOutput out) :: t2 ->
    substring_of completion_marker out ->
    res.1.1 = 0%Z /\
    exists k, t2 = [EvOut (MsgCompleted k N)] /\
              indices !! pred (count is_banner t1) = Some k /\
              (0 < count is_banner t1)%nat.
Proof.
  induction 1 as [st | i rest st out0 st1 body Hrun
                 | i rest st out0 st1 body code st2 ev Hrun Hloop IH
                 | i rest st e st1 body code st2 ev Hrun Hloop IH];
    intros t1 out t2 Hsplit Hsub; cbn [fst snd] in *.
  - destruct t1 as [|? [|? ?]]; discriminate.
  - apply run_iteration_returns in Hrun as [_ Hbody].
    inversion Hbody as [| |prompt noise out' Hn]; subst.
    rewrite completed_events_shape in Hsplit.
    apply (split_unique is_output) in Hsplit as (-> & _ & ->).
    + split; [reflexivity|]. exists i. rewrite !count_cons, noise_count by (reflexivity || assumption).
      simpl. auto.
    + repeat apply Forall_cons_2; try (intros [? ?]; discriminate).
      apply (noise_without is_output); [intros [? ?]; discriminate | assumption].
    + repeat constructor. intros [? ?]; discriminate.
    + eexists; reflexivity.
  - apply run_iteration_returns in Hrun as [Hno Hbody].
    symmetry in Hno. apply contains_false_iff in Hno.
    apply (split_skip_prefix marked) in Hsplit as (m & -> & Hm).
    + destruct (IH _ _ _ Hm Hsub) as (Hcode & k & -> & Hk & Hpos).
      split; [exact Hcode|]. exists k. split; [reflexivity|].
      rewrite count_app, (continued_banners N i body (Some out0)) by assumption.
      destruct (count is_banner m) as [|c]; [lia|]. simpl in *. auto with lia.
    + unfold continued_events.
      apply Forall_cons_2; [intros (? & ? & ?); discriminate|].
      apply Forall_app_2.
      * eapply body_without_marker; [exact Hbody|]. intros ? [= <-]. exact Hno.
      * repeat constructor; intros (? & ? & ?); discriminate.
    + exists out. auto.
  - apply run_iteration_raises in Hrun as Hbody.
    apply (split_skip_prefix marked) in Hsplit as (m & -> & Hm).
    + destruct (IH _ _ _ Hm Hsub) as (Hcode & k & -> & Hk & Hpos).
      split; [exact Hcode|]. exists k. split; [reflexivity|].
      rewrite count_app, (failed_banners N i body e None) by assumption.
      destruct (count is_banner m) as [|c]; [lia|]. simpl in *. auto with lia.
    + unfold failed_events.
      apply Forall_cons_2; [intros (? & ? & ?); discriminate|].
      apply Forall_app_2.
      * eapply body_without_marker; [exact Hbody|]. discriminate.
      * repeat constructor; intros (? & ? & ?); discriminate.
    + exists out. auto.
Qed.

(** The trace begins with the banner of the first index left, or is the
    closing report. *)
Lemma loop_run_head (indices : list Z) (st : State) (res : Z * State * list event) :
  loop_run w o N indices st res ->
  match indices with
  | [] => res.2 = [EvOut (MsgMaxReached N (progress_file o))]
  | j :: _ => exists t, res.2 = banner N j :: t
  end.
Proof. destruct 1; cbn [fst snd]; eauto. Qed.

Lemma loop_run_code (indices : list Z) (st : State) (res : Z * State * list event) :
  loop_run w o N indices st res -> res.1.1 = 0%Z \/ res.1.1 = 1%Z.
Proof. induction 1; cbn [fst snd] in *; auto. Qed.

(** Without a marked output the loop runs over every index: one banner and
    one sleep per index, at most one chat call per index, exit code 1, and
    the last sleep comes right before the closing report. *)
Lemma loop_run_exhausts (indices : list Z) (st : State) (res : Z * State * list event) :
  loop_run w o N indices st res ->
  (forall out, In (EvErr (MsgOutput out)) res.2 -> ~ substring_of completion_marker out) ->
  res.1.1 = 1%Z /\
  count is_banner res.2 = length indices /\
  count is_sleep res.2 = length indices /\
  (count is_chat res.2 <= length indices)%nat /\
  (indices <> [] ->
   exists t, res.2 = t ++ [EvSleep 2; EvOut (MsgMaxReached N (progress_file o))]).
Proof.
  induction 1 as [st | i rest st out0 st1 body Hrun
                 | i rest st out0 st1 body code st2 ev Hrun Hloop IH
                 | i rest st e st1 body code st2 ev Hrun Hloop IH];
    intros Hout; cbn [fst snd] in *.
  - repeat split; auto. contradiction.
  - exfalso. apply run_iteration_returns in Hrun as [Hyes Hbody].
    symmetry in Hyes. apply contains_true_iff in Hyes.
    apply (Hout out0); [|exact Hyes].
    inversion Hbody; subst. rewrite completed_events_shape.
    apply in_elt.
  - apply run_iteration_returns in Hrun as [_ Hbody].
    destruct IH as (Hc & Hb & Hs & Hch & Hlast).
    { intros out Hin. apply Hout. apply in_or_app. auto. }
    destruct (body_counts _ _ Hbody) as (Hb0 & Hs0 & Hc0).
    unfold continued_events.
    rewrite !count_app, !count_cons, !count_app, !count_cons, !count_nil, Hb0, Hs0, Hb, Hs.
    simpl. split; [assumption|]. split; [lia|]. split; [lia|]. split; [lia|].
    intros _. destruct rest as [|j rest'].
    + apply loop_run_head in Hloop. cbn [snd] in Hloop. subst ev.
      exists (banner N i :: body ++ [EvOut (MsgContinuing i)]).
      simpl. rewrite <- !app_assoc. reflexivity.
    + destruct Hlast as [t ->]; [discriminate|].
      exists (banner N i :: (body ++ [EvOut (MsgContinuing i); EvSleep 2]) ++ t).
      simpl. rewrite <- !app_assoc. reflexivity.
  - apply run_iteration_raises in Hrun as Hbody.
    destruct IH as (Hc & Hb & Hs & Hch & Hlast).
    { intros out Hin. apply Hout. apply in_or_app. auto. }
    destruct (body_counts _ _ Hbody) as (Hb0 & Hs0 & Hc0).
    unfold failed_events.
    rewrite !count_app, !count_cons, !count_app, !count_cons, !count_nil, Hb0, Hs0, Hb, Hs.
    simpl. split; [assumption|]. split; [lia|]. split; [lia|]. split; [lia|].
    intros _. destruct rest as [|j rest'].
    + apply loop_run_head in Hloop. cbn [snd] in Hloop. subst ev.
      exists (banner N i :: body ++ [EvErr (MsgIterationError i e)]).
      simpl. rewrite <- !app_assoc. reflexivity.
    + destruct Hlast as [t ->]; [discriminate|].
      exists (banner N i :: (body ++ [EvErr (MsgIterationError i e); EvSleep 2]) ++ t).
      simpl. rewrite <- !app_assoc. reflexivity.
Qed.

(** Every banner but the first comes right after a sleep of 2. *)
Lemma loop_run_paced (indices : list Z) (st : State) (res : Z * State * list event) :
  loop_run w o N indices st res ->
  forall t1 e t2,
    res.2 = t1 ++ e :: t2 -> is_banner e = true ->
    t1 = [] \/ exists t0, t1 = t0 ++ [EvSleep 2].
Proof.
  induction 1 as [st | i rest st out0 st1 body Hrun
                 | i rest st out0 st1 body code st2 ev Hrun Hloop IH
                 | i rest st e0 st1 body code st2 ev Hrun Hloop IH];
    intros t1 e t2 Hsplit He; cbn [fst snd] in *.
  - destruct t1 as [|? [|? ?]]; [left; reflexivity | discriminate..].
  - destruct t1 as [|b t1]; [left; reflexivity | exfalso].
    apply run_iteration_returns in Hrun as [_ Hbody].
    unfold completed_events in Hsplit. simpl in Hsplit. injection Hsplit as _ Hsplit.
    assert (In e (body ++ [EvOut (MsgCompleted i N)])) as Hin
      by (rewrite Hsplit; apply in_elt).
    apply in_app_or in Hin as [Hin | [<- | []]]; [|discriminate].
    apply body_without_banner in Hbody. rewrite Forall_forall in Hbody.
    apply (Hbody e); [apply list_elem_of_In; exact Hin | exact He].
  - destruct t1 as [|b t1]; [left; reflexivity | right].
    apply run_iteration_returns in Hrun as [_ Hbody].
    unfold continued_events in Hsplit. simpl in Hsplit. injection Hsplit as _ Hsplit.
    apply (split_skip_prefix (fun x => is_banner x = true)) in Hsplit as (m & -> & Hm);
      [| | exact He].
    + destruct (IH _ _ _ Hm He) as [-> | [t0 ->]].
      * exists (b :: body ++ [EvOut (MsgContinuing i)]).
        simpl. rewrite app_nil_r, <- !app_assoc. reflexivity.
      * exists (b :: (body ++ [EvOut (MsgContinuing i); EvSleep 2]) ++ t0).
        simpl. rewrite <- !app_assoc. reflexivity.
    + apply Forall_app_2; [eapply body_without_banner; exact Hbody|].
      repeat constructor; discriminate.
  - destruct t1 as [|b t1]; [left; reflexivity | right].
    apply run_iteration_raises in Hrun as Hbody.
    unfold failed_events in Hsplit. simpl in Hsplit. injection Hsplit as _ Hsplit.
    apply (split_skip_prefix (fun x => is_banner x = true)) in Hsplit as (m & -> & Hm);
      [| | exact He].
    + destruct (IH _ _ _ Hm He) as [-> | [t0 ->]].
      * exists (b :: body ++ [EvErr (MsgIterationError i e0)]).
        simpl. rewrite app_nil_r, <- !app_assoc. reflexivity.
      * exists (b :: (body ++ [EvErr (MsgIterationError i e0); EvSleep 2]) ++ t0).
        simpl. rewrite <- !app_assoc. reflexivity.
    + apply Forall_app_2; [eapply body_without_banner; exact Hbody|].
      repeat constructor; discriminate.
Qed.

(** A reported iteration error is followed by the sleep and then by the
    banner of the next index, or by the closing report after the last. *)
Lemma loop_run_error_caught (indices : list Z) (st : State)
    (res : Z * State * list event) :
  loop_run w o N indices st res ->
  forall t1 k e t2,
    res.2 = t1 ++ EvErr (MsgIterationError k e) :: t2 ->
    exists t3, t2 = EvSleep 2 :: t3 /\
      ((exists pre, indices = pre ++ [k] /\
                    t3 = [EvOut (MsgMaxReached N (progress_file o))]) \/
       (exists pre j post t4, indices = pre ++ k :: j :: post /\
                              t3 = banner N j :: t4)).
Proof.
  assert (forall k e, is_iteration_error (EvErr (MsgIterationError k e))) as Herr
    by (intros; eexists _, _; reflexivity).
  induction 1 as [st | i rest st out0 st1 body Hrun
                 | i rest st out0 st1 body code st2 ev Hrun Hloop IH
                 | i rest st e0 st1 body code st2 ev Hrun Hloop IH];
    intros t1 k e t2 Hsplit; cbn [fst snd] in *.
  - destruct t1 as [|? [|? ?]]; discriminate.
  - exfalso. apply run_iteration_returns in Hrun as [_ Hbody].
    assert (In (EvErr (MsgIterationError k e)) (completed_events N i body)) as Hin
      by (rewrite Hsplit; apply in_elt).
    destruct Hin as [Hin | Hin]; [discriminate|].
    apply in_app_or in Hin as [Hin | [Hin | []]]; [|discriminate].
    apply body_without_error in Hbody. rewrite Forall_forall in Hbody.
    apply (Hbody _ (proj2 (list_elem_of_In _ _) Hin)). apply Herr.
  - apply run_iteration_returns in Hrun as [_ Hbody].
    apply (split_skip_prefix is_iteration_error) in Hsplit as (m & -> & Hm);
      [| | apply Herr].
    + destruct (IH _ _ _ _ Hm) as (t3 & -> & Hnext). exists t3. split; [reflexivity|].
      destruct Hnext as [(pre & -> & ->) | (pre & j & post & t4 & -> & ->)].
      * left. exists (i :: pre). auto.
      * right. exists (i :: pre), j, post, t4. auto.
    + unfold continued_events.
      apply Forall_cons_2; [intros (? & ? & ?); discriminate|].
      apply Forall_app_2; [eapply body_without_error; exact Hbody|].
      repeat constructor; intros (? & ? & ?); discriminate.
  - apply run_iteration_raises in Hrun as Hbody.
    unfold failed_events in Hsplit.
    change ((banner N i :: body ++ [EvErr (MsgIterationError i e0); EvSleep 2]) ++ ev)
      with (banner N i :: (body ++ [EvErr (MsgIterationError i e0); EvSleep 2]) ++ ev)
      in Hsplit.
    rewrite <- app_assoc in Hsplit.
    change (banner N i :: body ++ [EvErr (MsgIterationError i e0); EvSleep 2] ++ ev)
      with ((banner N i :: body) ++ [EvErr (MsgIterationError i e0); EvSleep 2] ++ ev)
      in Hsplit.
    apply (split_skip_prefix is_iteration_error) in Hsplit as (m & -> & Hm);
      [| | apply Herr].
    + destruct m as [|x [|y m]]; simpl in Hm.
      * injection Hm as <- <- <-. exists ev. split; [reflexivity|].
        apply loop_run_head in Hloop. cbn [snd] in Hloop.
        destruct rest as [|j rest'].
        -- left. exists []. auto.
        -- right. destruct Hloop as [t4 ->]. exists [], j, rest', t4. auto.
      * discriminate.
      * injection Hm as _ _ Hm.
        destruct (IH _ _ _ _ Hm) as (t3 & -> & Hnext). exists t3. split; [reflexivity|].
        destruct Hnext as [(pre & -> & ->) | (pre & j & post & t4 & -> & ->)].
        -- left. exists (i :: pre). auto.
        -- right. exists (i :: pre), j, post, t4. auto.
    + apply Forall_cons_2; [intros (? & ? & ?); discriminate|].
      eapply body_without_error; exact Hbody.
Qed.

End LoopTrace.

(** ** The run as a process *)

Lemma py_range_lookup (lo hi : Z) (j : nat) (k : Z) :
  py_range lo hi !! j = Some k -> (k = lo + Z.of_nat j /\ k < hi)%Z.
Proof.
  unfold py_range. rewrite list_lookup_fmap. intros H.
  destruct (seq 0 (Z.to_nat (hi - lo)) !! j) as [x|] eqn:Hx; [|discriminate].
  apply lookup_seq in Hx as [-> Hlt]. injection H as <-. lia.
Qed.

Lemma py_range_length (lo hi : Z) : length (py_range lo hi) = Z.to_nat (hi - lo).
Proof. unfold py_range. rewrite length_map, length_seq. reflexivity. Qed.

Lemma py_range_split (lo hi : Z) (pre post : list Z) (k : Z) :
  py_range lo hi = pre ++ k :: post ->
  (k = lo + Z.of_nat (length pre))%Z /\
  Z.to_nat (hi - lo) = (length pre + S (length post))%nat.
Proof.
  intros H. split.
  - assert (py_range lo hi !! length pre = Some k) as Hk
      by (rewrite H; apply list_lookup_middle; reflexivity).
    apply py_range_lookup in Hk. tauto.
  - apply (f_equal length) in H. rewrite py_range_length, length_app in H.
    simpl in H. lia.
Qed.

Section Run.

Variable w : World.
Variable o : Orchestrator.
Variable N : Z.

Lemma run_process (st : State) :
  run_result w o N st (Ralph.exit_process (Ralph.run w o N) st).
Proof.
  unfold Ralph.exit_process, Ralph.run. unfold bind at 1.
  destruct (setup_quiet w o st) as (r & st1 & ev1 & Hsetup & Hr & _).
  rewrite Hsetup. destruct Hr as [-> | [e ->]]; [| by constructor].
  unfold bind at 1.
  destruct (announce_provider_spec w o N st1)
    as (ok & st2 & noise & last & -> & _ & _ & _ & Hok).
  destruct ok.
  - destruct Hok as (p & Hdet & ->).
    destruct (main_loop_run w o N (py_range 1 (N + 1)) st2)
      as (code & st3 & ev & -> & Hloop).
    rewrite <- app_assoc. simpl. rewrite app_assoc.
    econstructor; eassumption.
  - destruct Hok as (e & Hdet & ->). unfold ret. rewrite app_nil_r, app_assoc.
    econstructor; eassumption.
Qed.

End Run.

(** ** The events before the loop *)

Lemma quiet_before_loop (ev : list event) : quiet ev -> before_loop ev.
Proof.
  intros H. eapply Forall_impl; [exact H|].
  intros [[]|[]| |]; simpl; congruence.
Qed.

Lemma before_loop_without (P : event -> Prop) (ev : list event) :
  (forall e, P e -> is_loop_event e = true) ->
  before_loop ev -> Forall (fun e => ~ P e) ev.
Proof.
  intros HP H. eapply Forall_impl; [exact H|].
  intros e He HPe. apply HP in HPe. congruence.
Qed.

Lemma before_loop_count (p : event -> bool) (ev : list event) :
  (forall e, p e = true -> is_loop_event e = true) ->
  before_loop ev -> count p ev = 0%nat.
Proof.
  intros Hp H. apply count_none. eapply Forall_impl; [exact H|].
  intros e He. destruct (p e) eqn:Hpe; [|reflexivity].
  apply Hp in Hpe. congruence.
Qed.

Lemma marked_loop_event (e : event) : marked e -> is_loop_event e = true.
Proof. intros (out & -> & _). reflexivity. Qed.

Lemma output_loop_event (e : event) : is_output e -> is_loop_event e = true.
Proof. intros (out & ->). reflexivity. Qed.

Lemma error_loop_event (e : event) : is_iteration_error e -> is_loop_event e = true.
Proof. intros (i & x & ->). reflexivity. Qed.

Lemma banner_loop_event (e : event) : is_banner e = true -> is_loop_event e = true.
Proof. destruct e as [[]|[]| |]; simpl; congruence. Qed.

Lemma chat_loop_event (e : event) : is_chat e = true -> is_loop_event e = true.
Proof. destruct e as [[]|[]| |]; simpl; congruence. Qed.

Lemma sleep_loop_event (e : event) : is_sleep e = true -> is_loop_event e = true.
Proof. destruct e as [[]|[]| |]; simpl; congruence. Qed.

Section Startup.

Variable w : World.
Variable o : Orchestrator.

(** What the setup and the detection leave in the trace and in the state. *)
Lemma startup_quiet (st st1 st2 : State) (r1 : outcome unit) (r2 : outcome json)
    (ev1 noise : list event) :
  Ralph.setup w o st = (r1, st1, ev1) ->
  Client.detect_provider w (config o) st1 = (r2, st2, noise) ->
  quiet (ev1 ++ noise) /\ (count is_archiving (ev1 ++ noise) <= 1)%nat /\
  calls st2 = calls st.
Proof.
  intros Hs Hd.
  destruct (setup_quiet w o st) as (r & st' & ev & Hs' & _ & Hq & Hc & _ & Hk).
  rewrite Hs in Hs'. injection Hs' as <- <- <-.
  destruct (detect_provider_spec w (config o) st1) as (r & st' & ev & Hd' & Hn & _ & _ & Hk').
  rewrite Hd in Hd'. injection Hd' as <- <- <-.
  split; [apply Forall_app_2; [exact Hq | apply noise_quiet; exact Hn]|].
  split; [|congruence].
  rewrite count_app, (noise_count is_archiving noise) by (reflexivity || assumption). lia.
Qed.

Lemma setup_quiet_events (st st1 : State) (r1 : outcome unit) (ev1 : list event) :
  Ralph.setup w o st = (r1, st1, ev1) ->
  quiet ev1 /\ (count is_archiving ev1 <= 1)%nat /\ calls st1 = calls st.
Proof.
  intros Hs.
  destruct (setup_quiet w o st) as (r & st' & ev & Hs' & _ & Hq & Hc & _ & Hk).
  rewrite Hs in Hs'. injection Hs' as <- <- <-. auto.
Qed.

End Startup.

(** ** The prompt file and the chat calls *)

Section Prompt.

Variable w : World.
Variable o : Orchestrator.

Lemma archived_files_keep (last path : string) (f : gmap string string) :
  is_Some (f !! path) -> is_Some (archived_files w o last f !! path).
Proof.
  intros H. unfold archived_files.
  repeat first [ rewrite lookup_insert_is_Some'; right
               | match goal with |- context [match ?x with _ => _ end] => destruct x end ];
    assumption.
Qed.

Lemma track_keeps_files (st : State) (path : string) :
  is_Some (files (disk st) !! path) ->
  exists r st1 ev, Ralph.track_current_branch w o st = (r, st1, ev) /\
                   is_Some (files (disk st1) !! path).
Proof.
  intros H. unfold Ralph.track_current_branch, Ralph.read_branch_name.
  run_monad. simpl. rewrite is_Some_bool_decide.
  destruct (files (disk st) !! prd_file o) as [text|] eqn:Hprd; simpl; [|eauto 10].
  rewrite Hprd.
  destruct (json_loads w text) as [prd|]; simpl; [|eauto 10].
  destruct (Json.get prd "branchName" (JStr "")) as [current|]; simpl; [|eauto 10].
  destruct (Json.truthy current); simpl; [|eauto 10].
  destruct current; simpl; eexists _, _, _; (split; [reflexivity|]); simpl;
    repeat (rewrite lookup_insert_is_Some'; right); assumption.
Qed.

(** The setup only adds and overwrites files. *)
Lemma setup_keeps_files (st st1 : State) (r : outcome unit) (ev : list event)
    (path : string) :
  Ralph.setup w o st = (r, st1, ev) ->
  is_Some (files (disk st) !! path) -> is_Some (files (disk st1) !! path).
Proof.
  intros Hs Hpath. revert Hs. unfold Ralph.setup. unfold bind at 1.
  assert (exists r0 st0 ev0, Ralph.archive_previous_run w o st = (r0, st0, ev0) /\
            is_Some (files (disk st0) !! path)) as (r0 & st0 & ev0 & -> & H0).
  { destruct (archival_due_dec w o st) as [[last Hdue] | Hnot].
    - rewrite (archive_when_due _ _ _ _ Hdue). eexists _, _, _. split; [reflexivity|].
      simpl. apply archived_files_keep, Hpath.
    - destruct (archive_when_not_due _ _ _ Hnot) as (r0 & -> & _). eauto. }
  destruct r0 as [[]|e|c]; [| intros [= <- <- <-]; exact H0..].
  unfold bind at 1.
  assert (exists r2 st2 ev2, Ralph.track_current_branch w o st0 = (r2, st2, ev2) /\
            is_Some (files (disk st2) !! path)) as (r2 & st2 & ev2 & -> & H2).
  { destruct (track_keeps_files st0 path H0) as (r2 & st2 & ev2 & ? & ?). eauto 6. }
  destruct r2 as [[]|e|c]; [| intros [= <- <- <-]; exact H2..].
  unfold Ralph.init_progress_file. run_monad. simpl.
  destruct (bool_decide _); simpl; intros [= <- <- <-]; simpl;
    repeat (rewrite lookup_insert_is_Some'; right); assumption.
Qed.

Hypothesis Hkeeps : keeps_prompt w o.

Lemma chat_keeps_prompt (cfg : LLMConfig) (prompt : string) (st st1 : State)
    (r : outcome string) (ev : list event) :
  Client.chat w cfg prompt st = (r, st1, ev) ->
  readable (disk st) (prompt_file o) ->
  readable (disk st1) (prompt_file o).
Proof.
  unfold Client.chat, Client._chat_ollama, Client._chat_claude, Client._chat_amp.
  unfold bind at 1. unfold emit. unfold bind at 1.
  destruct (detect_provider_spec w cfg st) as (r0 & st0 & ev0 & -> & _ & _ & Hd & _).
  intros H Hp. rewrite <- Hd in Hp. revert H.
  destruct r0 as [p|e|c]; [| intros [= <- <- <-]; exact Hp..].
  split_if.
  - destruct (exchange_spec (fun n d => ollama_chat w n d cfg prompt) st0)
      as (r2 & st2 & -> & _ & Hd2 & _).
    intros [= <- <- <-]. rewrite Hd2. apply Hkeeps, Hp.
  - unfold bind.
    destruct (exchange_spec (fun n d => claude_create w n d cfg prompt) st0)
      as (r2 & st2 & -> & _ & Hd2 & _).
    assert (readable (disk st2) (prompt_file o)) as H2
      by (rewrite Hd2; apply Hkeeps, Hp).
    destruct r2; unfold ret; intros [= <- <- <-]; exact H2.
  - unfold bind.
    destruct (exchange_spec (fun n d => amp_run w n d prompt) st0)
      as (r2 & st2 & -> & _ & Hd2 & _).
    assert (readable (disk st2) (prompt_file o)) as H2
      by (rewrite Hd2; apply (Hkeeps (calls st0) (disk st0) cfg prompt), Hp).
    destruct r2; unfold ret; intros [= <- <- <-]; exact H2.
  - unfold raise. intros [= <- <- <-]. exact Hp.
Qed.

(** With a readable prompt, an iteration makes exactly one chat call and
    leaves the prompt readable. *)
Lemma run_iteration_keeps_prompt (st st1 : State) (r : outcome (string * bool))
    (body : list event) :
  Ralph.run_iteration w o st = (r, st1, body) ->
  readable (disk st) (prompt_file o) ->
  readable (disk st1) (prompt_file o) /\ count is_chat body = 1%nat.
Proof.
  unfold Ralph.run_iteration. unfold bind at 1.
  intros H Hp.
  destruct (read_file_cases (prompt_file o) st) as [(prompt & Hread & _) | (e & _ & Hno)];
    [|destruct Hp as [x Hx]; unfold readable in *; congruence].
  rewrite Hread in H. revert H. unfold bind at 1.
  destruct (chat_spec w (config o) prompt st) as (r0 & st0 & noise & Hchat & Hn & _).
  rewrite Hchat.
  assert (readable (disk st0) (prompt_file o)) as H0
    by (eapply chat_keeps_prompt; [exact Hchat | exact Hp]).
  pose proof (noise_count is_chat noise eq_refl Hn) as Hc.
  destruct r0 as [out|e|c]; run_monad; simpl; intros [= <- <- <-];
    (split; [exact H0|]);
    rewrite ?app_nil_r, ?count_cons, ?count_app, ?count_cons, ?count_nil, Hc;
    reflexivity.
Qed.

Variable N : Z.

Lemma loop_run_chats (indices : list Z) (st : State) (res : Z * State * list event) :
  loop_run w o N indices st res ->
  readable (disk st) (prompt_file o) ->
  (forall out, In (EvErr (MsgOutput out)) res.2 -> ~ substring_of completion_marker out) ->
  count is_chat res.2 = length indices.
Proof.
  induction 1 as [st | i rest st out0 st1 body Hrun
                 | i rest st out0 st1 body code st2 ev Hrun Hloop IH
                 | i rest st e st1 body code st2 ev Hrun Hloop IH];
    intros Hp Hout; cbn [fst snd] in *.
  - reflexivity.
  - exfalso. apply run_iteration_returns in Hrun as [Hyes Hbody].
    symmetry in Hyes. apply contains_true_iff in Hyes.
    apply (Hout out0); [|exact Hyes].
    inversion Hbody; subst. rewrite completed_events_shape. apply in_elt.
  - destruct (run_iteration_keeps_prompt _ _ _ _ Hrun Hp) as [Hp1 Hc].
    unfold continued_events.
    rewrite !count_app, !count_cons, !count_app, !count_cons, !count_nil, Hc, IH; auto.
    intros out Hin. apply Hout. apply in_or_app. auto.
  - destruct (run_iteration_keeps_prompt _ _ _ _ Hrun Hp) as [Hp1 Hc].
    unfold failed_events.
    rewrite !count_app, !count_cons, !count_app, !count_cons, !count_nil, Hc, IH; auto.
    intros out Hin. apply Hout. apply in_or_app. auto.
Qed.

End Prompt.

(** ** A pinned provider that [chat] does not know *)

Section Unknown.

Variable w : World.
Variable o : Orchestrator.
Variable N : Z.

Hypothesis Hunknown : unknown_provider (provider (config o)).

Lemma memo_agrees_detected (st : State) :
  detected st = Some (provider (config o)) -> memo_agrees (config o) st.
Proof.
  intros H. unfold memo_agrees, Client.memoised. rewrite H.
  destruct (Json.truthy _); auto.
Qed.

Lemma chat_unknown_provider (prompt : string) (st : State) :
  memo_agrees (config o) st ->
  exists st1,
    Client.chat w (config o) prompt st =
      (Raise (UnknownProvider (provider (config o))), st1, [EvChat prompt]) /\
    memo_agrees (config o) st1 /\ disk st1 = disk st /\ calls st1 = calls st.
Proof.
  intros Hmemo. destruct Hunknown as (Hauto & Ho & Hc & Ha).
  destruct (detect_provider_pinned w (config o) st Hauto Hmemo)
    as (st1 & Hdet & Hdisk & Hcalls & Hdetected).
  exists st1. split; [|split; [apply memo_agrees_detected, Hdetected | auto]].
  unfold Client.chat. unfold bind at 1. unfold emit. unfold bind at 1.
  rewrite Hdet, Ho, Hc, Ha. reflexivity.
Qed.

Lemma run_iteration_unknown_provider (st : State) :
  memo_agrees (config o) st ->
  exists e st1 body,
    Ralph.run_iteration w o st = (Raise e, st1, body) /\
    memo_agrees (config o) st1 /\ calls st1 = calls st /\
    (body = [] \/
     exists prompt, body = [EvChat prompt] /\ e = UnknownProvider (provider (config o))).
Proof.
  intros Hmemo. unfold Ralph.run_iteration. unfold bind at 1.
  destruct (read_file_cases (prompt_file o) st) as [(prompt & -> & _) | (e & -> & _)].
  - unfold bind at 1.
    destruct (chat_unknown_provider prompt st Hmemo) as (st1 & -> & Hm & _ & Hc).
    eexists _, _, _. split; [reflexivity|]. eauto 10.
  - eexists _, _, _. split; [reflexivity|]. auto.
Qed.

(** Every iteration fails: the loop runs over every index, makes no
    backend exchange, and each chat call is followed by the report of the
    unknown provider. *)
Lemma loop_run_unknown_provider (indices : list Z) (st : State)
    (res : Z * State * list event) :
  loop_run w o N indices st res ->
  memo_agrees (config o) st ->
  res.1.1 = 1%Z /\ count is_banner res.2 = length indices /\
  calls res.1.2 = calls st /\
  forall t1 prompt t2,
    res.2 = t1 ++ EvChat prompt :: t2 ->
    exists i t3,
      t2 = EvErr (MsgIterationError i (UnknownProvider (provider (config o)))) ::
           EvSleep 2 :: t3.
Proof.
  induction 1 as [st | i rest st out0 st1 body Hrun
                 | i rest st out0 st1 body code st2 ev Hrun Hloop IH
                 | i rest st e st1 body code st2 ev Hrun Hloop IH];
    intros Hmemo; cbn [fst snd] in *.
  - repeat split; auto. intros [|? [|? ?]] ? ? ?; discriminate.
  - destruct (run_iteration_unknown_provider st Hmemo) as (? & ? & ? & H & _).
    rewrite Hrun in H. discriminate.
  - destruct (run_iteration_unknown_provider st Hmemo) as (? & ? & ? & H & _).
    rewrite Hrun in H. discriminate.
  - destruct (run_iteration_unknown_provider st Hmemo)
      as (e' & st1' & body' & H & Hm1 & Hc1 & Hbody).
    rewrite Hrun in H. injection H as <- <- <-.
    destruct (IH Hm1) as (Hcode & Hb & Hcalls & Hchat).
    split; [exact Hcode|]. split; [|split; [congruence|]].
    + destruct Hbody as [-> | (prompt & -> & _)]; unfold failed_events;
        rewrite count_app, Hb; reflexivity.
    + intros t1 prompt t2 Hsplit.
      destruct Hbody as [-> | (prompt' & -> & ->)]; unfold failed_events in Hsplit;
        simpl in Hsplit.
      * destruct t1 as [|? [|? [|? t1]]]; try discriminate.
        injection Hsplit as _ _ _ Hsplit. eapply Hchat; exact Hsplit.
      * destruct t1 as [|? [|? [|? [|? t1]]]]; try discriminate.
        -- injection Hsplit as _ _ <-. eauto.
        -- injection Hsplit as _ _ _ _ Hsplit. eapply Hchat; exact Hsplit.
Qed.

End Unknown.

Lemma unmarked_outputs (ev : list event) :
  forallb unmarked ev = true ->
  forall out, In (EvErr (MsgOutput out)) ev -> ~ substring_of completion_marker out.
Proof.
  intros Hall out Hin. rewrite forallb_forall in Hall. specialize (Hall _ Hin).
  apply contains_false_iff. simpl in Hall. apply negb_true_iff in Hall. exact Hall.
Qed.

(** ** Completion *)

(** C1. When the output of an iteration carries the completion marker, the
    run stops there with exit code 0: the output is followed by the
    completion message alone, so no later iteration runs and no further
    chat call is made. The iteration is the [k]-th, [k] being the number of
    banners printed before the output. *)
Theorem completion_stops_the_run (w : World) (o : Orchestrator) (N : Z) (st : State)
    (t1 t2 : list event) (out : string) :
  let res := Ralph.exit_process (Ralph.run w o N) st in
  let k := Z.of_nat (count is_banner t1) in
  res.2 = t1 ++ EvErr (MsgOutput out) :: t2 ->
  substring_of completion_marker out ->
  res.1.1 = 0%Z /\ (1 <= k <= N)%Z /\
  t2 = [EvOut (MsgCompleted k N)] /\
  count is_chat t2 = 0%nat /\ count is_banner t2 = 0%nat.
Proof.
  intros res k Hsplit Hsub. subst res.
  assert (marked (EvErr (MsgOutput out))) as Hmarked by (exists out; auto).
  destruct (run_process w o N st)
    as [e st1 ev1 Hs | e st1 ev1 st2 noise Hs Hd | p st1 ev1 st2 noise code st3 ev Hs Hd Hloop];
    cbn [fst snd] in *.
  - exfalso. apply setup_quiet_events in Hs as (Hq & _).
    apply (split_skip_prefix marked) in Hsplit as (m & _ & Hm); [| | exact Hmarked].
    + destruct m as [|? [|? ?]]; discriminate.
    + apply (before_loop_without marked); [apply marked_loop_event|].
      apply quiet_before_loop, Hq.
  - exfalso. destruct (startup_quiet _ _ _ _ _ _ _ _ _ Hs Hd) as (Hq & _).
    apply (split_skip_prefix marked) in Hsplit as (m & _ & Hm); [| | exact Hmarked].
    + destruct m as [|? [|? ?]]; discriminate.
    + apply (before_loop_without marked); [apply marked_loop_event|].
      apply quiet_before_loop, Hq.
  - destruct (startup_quiet _ _ _ _ _ _ _ _ _ Hs Hd) as (Hq & _).
    apply quiet_before_loop in Hq.
    apply (split_skip_prefix marked) in Hsplit as (m & Ht1 & Hm); [| | exact Hmarked].
    + destruct m as [|x m]; [discriminate|]. injection Hm as <- Hm.
      destruct (loop_run_marker _ _ _ _ _ _ Hloop _ _ _ Hm Hsub)
        as (Hcode & j & -> & Hj & Hpos).
      cbn [fst snd] in *.
      assert (count is_banner t1 = count is_banner m) as Hcount.
      { rewrite Ht1, count_app, count_cons.
        rewrite (before_loop_count is_banner _ banner_loop_event Hq). reflexivity. }
      apply py_range_lookup in Hj. subst k. rewrite Hcount.
      assert (j = Z.of_nat (count is_banner m)) as <- by lia.
      repeat split; try lia; try reflexivity; exact Hcode.
    + apply (before_loop_without marked); [apply marked_loop_event | exact Hq].
Qed.

(** A run that completes in its second iteration, after an archival. *)
Lemma completion_stops_the_run_witness :
  (Ralph.exit_process
     (Ralph.run (Sample.world (Sample.done_at 1)) (Sample.orchestrator "ollama") 3)
     Sample.switched).1.1 = 0%Z.
Proof.
  refine (proj1 (completion_stops_the_run
            (Sample.world (Sample.done_at 1)) (Sample.orchestrator "ollama") 3
            Sample.switched
            [EvOut (MsgArchiving "ralph/taskA");
             EvOut (MsgArchivedTo "/work/archive/2026-01-31-taskA");
             EvOut (MsgStarting 3 (JStr "ollama") (JStr "llama3.1"));
             EvOut (MsgBanner 1 3); EvChat "do the next task";
             EvErr (MsgOutput "working on it"); EvOut (MsgContinuing 1);
             EvSleep 2; EvOut (MsgBanner 2 3); EvChat "do the next task"]
            [EvOut (MsgCompleted 2 3)]
            "all green <promise>COMPLETE</promise>" _ _)).
  - vm_compute. reflexivity.
  - apply contains_true_iff. vm_compute. reflexivity.
Defined.

(** ** Exhaustion and pacing *)

Lemma started_run_loops (w : World) (o : Orchestrator) (N : Z) (st : State)
    (res : Z * State * list event) :
  run_result w o N st res ->
  (exists p m, In (EvOut (MsgStarting N p m)) res.2) ->
  exists pre p st2 ev,
    before_loop (pre ++ [EvOut (MsgStarting N p (model (config o)))]) /\
    res.2 = (pre ++ [EvOut (MsgStarting N p (model (config o)))]) ++ ev /\
    (exists st1 ev1, Ralph.setup w o st = (Ret tt, st1, ev1) /\ disk st2 = disk st1) /\
    loop_run w o N (py_range 1 (N + 1)) st2 (res.1.1, res.1.2, ev).
Proof.
  intros Hres (p0 & m0 & Hin).
  destruct Hres
    as [e st1 ev1 Hs | e st1 ev1 st2 noise Hs Hd | p st1 ev1 st2 noise code st3 ev Hs Hd Hloop];
    cbn [fst snd] in *.
  - exfalso. apply setup_quiet_events in Hs as (Hq & _).
    apply in_app_or in Hin as [Hin | [Hin | []]]; [|discriminate].
    unfold quiet in Hq. rewrite Forall_forall in Hq.
    specialize (Hq _ (proj2 (list_elem_of_In _ _) Hin)). discriminate.
  - exfalso. destruct (startup_quiet _ _ _ _ _ _ _ _ _ Hs Hd) as (Hq & _).
    apply in_app_or in Hin as [Hin | [Hin | []]]; [|discriminate].
    unfold quiet in Hq. rewrite Forall_forall in Hq.
    specialize (Hq _ (proj2 (list_elem_of_In _ _) Hin)). discriminate.
  - destruct (startup_quiet _ _ _ _ _ _ _ _ _ Hs Hd) as (Hq & _).
    exists (ev1 ++ noise), p, st2, ev. split; [|split; [|split]].
    + apply Forall_app_2; [apply quiet_before_loop, Hq | repeat constructor].
    + apply (app_assoc (ev1 ++ noise) [_] ev).
    + exists st1, ev1. split; [exact Hs|].
      destruct (detect_provider_spec w (config o) st1) as (r & st' & ev' & Hd' & _ & _ & Hdisk & _).
      rewrite Hd in Hd'. injection Hd' as <- <- <-. exact Hdisk.
    + exact Hloop.
Qed.

(** ** Errors inside an iteration *)

(** C3. An exception raised inside an iteration is caught by the loop body:
    the iteration reports it, sleeps and returns nothing, so the loop goes
    on with the indices left, from the state the iteration reached. The
    loop itself never raises: it always returns an exit code. In the trace
    of a run, the report of an error in iteration [k] is followed by the
    sleep and, when [k < N], by the banner of iteration [k + 1]. *)
Theorem iteration_errors_are_contained (w : World) (o : Orchestrator) (N : Z)
    (st : State) :
  let res := Ralph.exit_process (Ralph.run w o N) st in
  (forall i rest st0 e st1 body,
     Ralph.run_iteration w o st0 = (Raise e, st1, body) ->
     Ralph.iteration w o N i st0 = (Ret None, st1, failed_events N i body e) /\
     Ralph.main_loop w o N (i :: rest) st0 =
       (let r := Ralph.main_loop w o N rest st1 in
        (r.1.1, r.1.2, failed_events N i body e ++ r.2))) /\
  (forall indices st0,
     exists code, (Ralph.main_loop w o N indices st0).1.1 = Ret code /\
                  (code = 0 \/ code = 1)%Z) /\
  (forall t1 k e t2,
     res.2 = t1 ++ EvErr (MsgIterationError k e) :: t2 ->
     (1 <= k <= N)%Z /\
     exists t3, t2 = EvSleep 2 :: t3 /\
                ((k < N)%Z -> exists t4, t3 = banner N (k + 1) :: t4)).
Proof.
  intros res. subst res. split; [|split].
  - intros i rest st0 e st1 body Hraise.
    assert (Ralph.iteration w o N i st0 = (Ret None, st1, failed_events N i body e))
      as Hiter by (rewrite iteration_unfold, Hraise; reflexivity).
    split; [exact Hiter|].
    simpl. unfold bind at 1. rewrite Hiter.
    destruct (Ralph.main_loop w o N rest st1) as [[r st2] ev]. reflexivity.
  - intros indices st0.
    destruct (main_loop_run w o N indices st0) as (code & st' & ev & -> & Hloop).
    exists code. split; [reflexivity|]. apply loop_run_code in Hloop. exact Hloop.
  - intros t1 k e t2 Hsplit.
    assert (is_iteration_error (EvErr (MsgIterationError k e))) as Herr
      by (eexists _, _; reflexivity).
    destruct (run_process w o N st)
      as [x st1 ev1 Hs | x st1 ev1 st2 noise Hs Hd | p st1 ev1 st2 noise code st3 ev Hs Hd Hloop];
      cbn [fst snd] in *.
    + exfalso. apply setup_quiet_events in Hs as (Hq & _).
      apply (split_skip_prefix is_iteration_error) in Hsplit as (m & _ & Hm);
        [| | exact Herr].
      * destruct m as [|? [|? ?]]; discriminate.
      * apply (before_loop_without is_iteration_error); [apply error_loop_event|].
        apply quiet_before_loop, Hq.
    + exfalso. destruct (startup_quiet _ _ _ _ _ _ _ _ _ Hs Hd) as (Hq & _).
      apply (split_skip_prefix is_iteration_error) in Hsplit as (m & _ & Hm);
        [| | exact Herr].
      * destruct m as [|? [|? ?]]; discriminate.
      * apply (before_loop_without is_iteration_error); [apply error_loop_event|].
        apply quiet_before_loop, Hq.
    + destruct (startup_quiet _ _ _ _ _ _ _ _ _ Hs Hd) as (Hq & _).
      apply (split_skip_prefix is_iteration_error) in Hsplit as (m & _ & Hm);
        [| | exact Herr].
      * destruct m as [|y m]; [discriminate|]. injection Hm as _ Hm.
        destruct (loop_run_error_caught _ _ _ _ _ _ Hloop _ _ _ _ Hm)
          as (t3 & -> & [(pre & Hidx & ->) | (pre & j & post & t4 & Hidx & ->)]).
        -- pose proof (py_range_split _ _ _ _ _ Hidx) as [Hk Hpost]. simpl in Hpost.
           split; [lia|]. eexists. split; [reflexivity|]. intros Hlt. lia.
        -- pose proof (py_range_split _ _ _ _ _ Hidx) as [Hk Hpost]. simpl in Hpost.
           change (pre ++ k :: j :: post) with (pre ++ [k] ++ j :: post) in Hidx.
           rewrite app_assoc in Hidx.
           pose proof (py_range_split _ _ _ _ _ Hidx) as [Hj _].
           rewrite length_app in Hj. simpl in Hj.
           split; [lia|]. eexists. split; [reflexivity|]. intros _.
           exists t4. f_equal. unfold banner. f_equal. f_equal. lia.
      * apply (before_loop_without is_iteration_error); [apply error_loop_event|].
        apply quiet_before_loop, Hq.
Qed.

(** A run whose first exchange with the backend fails. *)
Lemma iteration_errors_are_contained_witness :
  let w := Sample.world (Sample.failing_at 0) in
  let o := Sample.orchestrator "ollama" in
  exists t3,
    (Ralph.exit_process (Ralph.run w o 2) Sample.fresh).2 =
      [EvOut (MsgStarting 2 (JStr "ollama") (JStr "llama3.1"));
       EvOut (MsgBanner 1 2); EvChat "do the next task"] ++
      EvErr (MsgIterationError 1 (BackendError "connection refused")) ::
      EvSleep 2 :: EvOut (MsgBanner 2 2) :: t3.
Proof.
  cbv zeta.
  destruct (iteration_errors_are_contained
              (Sample.world (Sample.failing_at 0)) (Sample.orchestrator "ollama") 2
              Sample.fresh) as (_ & _ & Htrace).
  destruct (Htrace
              [EvOut (MsgStarting 2 (JStr "ollama") (JStr "llama3.1"));
               EvOut (MsgBanner 1 2); EvChat "do the next task"]
              1%Z (BackendError "connection refused")
              [EvSleep 2; EvOut (MsgBanner 2 2); EvChat "do the next task";
               EvErr (MsgOutput "working on it"); EvOut (MsgContinuing 2); EvSleep 2;
               EvOut (MsgMaxReached 2 "/work/progress.txt")])
    as (_ & t3 & Ht3 & Hnext); [vm_compute; reflexivity|].
  destruct (Hnext ltac:(lia)) as (t4 & Ht4).
  exists t4. vm_compute. vm_compute in Ht3, Ht4. congruence.
Defined.

(** ** Startup failure and unknown providers *)

Lemma memoised_fresh (st : State) : detected st = None -> Client.memoised st = None.
Proof. intros H. unfold Client.memoised. rewrite H. reflexivity. Qed.

Lemma setup_keeps_client (w : World) (o : Orchestrator) (st st1 : State)
    (r : outcome unit) (ev : list event) :
  Ralph.setup w o st = (r, st1, ev) -> detected st1 = detected st.
Proof.
  intros Hs. destruct (setup_quiet w o st) as (r' & st' & ev' & Hs' & _ & _ & _ & Hd & _).
  rewrite Hs in Hs'. injection Hs' as <- <- <-. exact Hd.
Qed.

(** X2. With [provider = "auto"], the probes are consulted in the order
    local model service, hosted API, command-line tool, and the first that
    succeeds decides. *)
Lemma detect_provider_priority (w : World) (cfg : LLMConfig) (st : State) :
  provider cfg = JStr "auto" ->
  Client.memoised st = None ->
  let ollama_ok :=
    match ollama_list w with
    | Some names => Client.model_listed w (model cfg) names
    | None => false
    end in
  let claude_ok :=
    if Json.truthy (apiKey cfg) then true
    else match env_api_key w with
         | Some k => negb (String.eqb k "")
         | None => false
         end in
  (Client.detect_provider w cfg st).1.1 =
    if ollama_ok then Ret (JStr "ollama")
    else if claude_ok then Ret (JStr "claude")
    else if amp_on_path w then Ret (JStr "amp")
    else Raise NoProviderAvailable.
Proof.
  intros Hauto Hmemo. cbv zeta.
  unfold Client.detect_provider, Client._check_ollama, Client._check_claude,
    Client._check_amp, Client.set_detected.
  run_monad. rewrite Hmemo, Hauto. simpl.
  destruct (ollama_list w) as [names|]; simpl; split_if; reflexivity.
Qed.

(** C7. With [provider = "auto"] and no probe succeeding, the detection
    raises, and the run ends with exit code 1 before the loop: no banner, no
    chat call, no backend exchange. When the setup completes, the run ends
    on the report of the detection error. *)
Theorem no_provider_is_a_startup_failure (w : World) (o : Orchestrator) (N : Z)
    (st : State) :
  provider (config o) = JStr "auto" ->
  probes_fail w (config o) ->
  detected st = None ->
  let res := Ralph.exit_process (Ralph.run w o N) st in
  (exists noise,
     Client.detect_provider w (config o) st = (Raise NoProviderAvailable, st, noise)) /\
  res.1.1 = 1%Z /\
  before_loop res.2 /\ count is_chat res.2 = 0%nat /\ count is_banner res.2 = 0%nat /\
  calls res.1.2 = calls st /\
  (forall st1 ev1,
     Ralph.setup w o st = (Ret tt, st1, ev1) ->
     res.1.2 = st1 /\
     exists noise, res.2 = (ev1 ++ noise) ++ [EvErr (MsgStartupError NoProviderAvailable)]).
Proof.
  intros Hauto Hfail Hfresh res. subst res.
  assert (Json.eq_str (provider (config o)) "auto" = true) as Hauto'
    by (rewrite Hauto; reflexivity).
  split.
  { destruct (detect_provider_none w (config o) st Hauto' (memoised_fresh _ Hfresh) Hfail)
      as (noise & Hdet & _). eauto. }
  assert (forall st1 r ev1, Ralph.setup w o st = (r, st1, ev1) ->
            exists noise, Client.detect_provider w (config o) st1 =
                            (Raise NoProviderAvailable, st1, noise)) as Hnone.
  { intros st1 r ev1 Hs. apply setup_keeps_client in Hs.
    destruct (detect_provider_none w (config o) st1 Hauto') as (noise & Hdet & _); eauto.
    apply memoised_fresh. congruence. }
  destruct (run_process w o N st)
    as [e st1 ev1 Hs | e st1 ev1 st2 noise Hs Hd | p st1 ev1 st2 noise code st3 ev Hs Hd Hloop];
    cbn [fst snd] in *.
  - destruct (setup_quiet_events _ _ _ _ _ _ Hs) as (Hq & _ & Hc).
    assert (before_loop (ev1 ++ [EvErr (MsgUncaught e)])) as Hb
      by (apply Forall_app_2; [apply quiet_before_loop, Hq | repeat constructor]).
    split; [reflexivity|]. split; [exact Hb|].
    rewrite (before_loop_count is_chat _ chat_loop_event Hb),
      (before_loop_count is_banner _ banner_loop_event Hb).
    split; [reflexivity|]. split; [reflexivity|]. split; [exact Hc|].
    intros st1' ev1' Hs'. congruence.
  - destruct (startup_quiet _ _ _ _ _ _ _ _ _ Hs Hd) as (Hq & _ & Hc).
    assert (before_loop ((ev1 ++ noise) ++ [EvErr (MsgStartupError e)])) as Hb
      by (apply Forall_app_2; [apply quiet_before_loop, Hq | repeat constructor]).
    split; [reflexivity|]. split; [exact Hb|].
    rewrite (before_loop_count is_chat _ chat_loop_event Hb),
      (before_loop_count is_banner _ banner_loop_event Hb).
    split; [reflexivity|]. split; [reflexivity|]. split; [exact Hc|].
    intros st1' ev1' Hs'. rewrite Hs in Hs'. injection Hs' as <- <-.
    destruct (Hnone _ _ _ Hs) as (noise' & Hd'). rewrite Hd in Hd'.
    injection Hd' as -> -> _. eauto.
  - exfalso. destruct (Hnone _ _ _ Hs) as (noise' & Hd'). congruence.
Qed.

(** A run with no backend at hand. *)
Lemma no_provider_is_a_startup_failure_witness :
  Ralph.exit_process
    (Ralph.run (Sample.world Sample.never_done) (Sample.orchestrator "auto") 5)
    Sample.fresh =
  (1%Z, Sample.fresh, [EvErr MsgOllamaCheckFailed; EvErr (MsgStartupError NoProviderAvailable)]).
Proof.
  destruct (no_provider_is_a_startup_failure
              (Sample.world Sample.never_done) (Sample.orchestrator "auto") 5 Sample.fresh)
    as (_ & Hcode & _).
  - reflexivity.
  - vm_compute. auto.
  - reflexivity.
  - vm_compute in Hcode. vm_compute. reflexivity.
Defined.



(** ** The model listing *)

(** C8. With the model [llama3.1] configured, the probe of the local model
    service succeeds on a listing that holds [llama3.1], [llama3.1:latest]
    or [llama3.1:8b], and fails on a listing that holds nothing but
    [llama3] and [codellama3.1]. *)
Theorem ollama_model_matching (w : World) (cfg : LLMConfig) (st : State)
    (names : list string) :
  model cfg = JStr "llama3.1" ->
  ollama_list w = Some names ->
  (In "llama3.1" names \/ In "llama3.1:latest" names \/ In "llama3.1:8b" names ->
   Client._check_ollama w cfg st = (Ret true, st, [])) /\
  ((forall n, In n names -> n = "llama3" \/ n = "codellama3.1") ->
   Client._check_ollama w cfg st = (Ret false, st, [])).
Proof.
  intros Hmodel Hlist. unfold Client._check_ollama. rewrite Hlist, Hmodel.
  unfold Client.model_listed, ret. simpl Client.fmt. split.
  - intros Hin.
    destruct (existsb (Json.eq_str (JStr "llama3.1")) names) eqn:E1; [reflexivity|].
    destruct (existsb (String.eqb ("llama3.1" +:+ ":latest")) names) eqn:E2; [reflexivity|].
    assert (existsb (fun name => PyStr.startswith name ("llama3.1" +:+ ":")) names = true)
      as ->; [|reflexivity].
    apply existsb_exists.
    destruct Hin as [Hin | [Hin | Hin]].
    + exfalso. apply Bool.not_true_iff_false in E1. apply E1, existsb_exists.
      exists "llama3.1". auto.
    + exists "llama3.1:latest". auto.
    + exists "llama3.1:8b". auto.
  - intros Honly.
    assert (forall f, f "llama3" = false -> f "codellama3.1" = false ->
                      existsb f names = false) as Hnone.
    { intros f H1 H2. apply Bool.not_true_iff_false. intros Hex.
      apply existsb_exists in Hex as (n & Hin & Hf).
      destruct (Honly n Hin) as [-> | ->]; congruence. }
    rewrite !Hnone by reflexivity. reflexivity.
Qed.

(** Two listings. *)
Lemma ollama_model_matching_witness :
  let w := Sample.world_listing ["mistral:7b"; "llama3.1:8b"] Sample.never_done in
  Client._check_ollama w (Sample.config_of "auto") Sample.fresh = (Ret true, Sample.fresh, []) /\
  Client._check_ollama (Sample.world_listing ["llama3"; "codellama3.1"] Sample.never_done)
    (Sample.config_of "auto") Sample.fresh = (Ret false, Sample.fresh, []).
Proof.
  cbv zeta. split.
  - apply (ollama_model_matching
             (Sample.world_listing ["mistral:7b"; "llama3.1:8b"] Sample.never_done)
             (Sample.config_of "auto") Sample.fresh ["mistral:7b"; "llama3.1:8b"]
             eq_refl eq_refl).
    right. right. simpl. auto.
  - apply (ollama_model_matching
             (Sample.world_listing ["llama3"; "codellama3.1"] Sample.never_done)
             (Sample.config_of "auto") Sample.fresh ["llama3"; "codellama3.1"]
             eq_refl eq_refl).
    simpl. intros n [<- | [<- | []]]; auto.
Defined.

(** ** Loading the configuration *)

(** C9. When the configuration file is absent, [load_config] warns and
    returns the defaults, and [main] goes on to run with them; when the
    file does not hold JSON, [load_config] exits with status 1, and so does
    [main], at once: nothing is written and nothing else is printed. *)
Theorem config_loading (w : World) (dir : string) (N : Z)
    (config_path : option string) (st : State) :
  let path := Ralph.config_location dir config_path in
  (files (disk st) !! path = None ->
   load_config w path st = (Ret default_config, st, [EvErr (MsgConfigNotFound path)]) /\
   provider default_config = JStr "auto" /\
   model default_config = JStr "llama3.1" /\
   apiKey default_config = JStr "" /\
   ollamaUrl default_config = JStr "http://localhost:11434" /\
   Ralph.main w dir N config_path st =
     (let r := Ralph.exit_process (Ralph.run w (Ralph.make dir default_config) N)
                 {| disk := disk st; detected := None; calls := calls st |} in
      (r.1.1, r.1.2, EvErr (MsgConfigNotFound path) :: r.2))) /\
  (forall text,
     files (disk st) !! path = Some text -> json_loads w text = None ->
     load_config w path st = (SysExit 1, st, [EvErr MsgInvalidJson]) /\
     Ralph.main w dir N config_path st = (1%Z, st, [EvErr MsgInvalidJson])).
Proof.
  intros path. split.
  - intros Habsent.
    assert (load_config w path st =
              (Ret default_config, st, [EvErr (MsgConfigNotFound path)])) as Hload
      by (unfold load_config; rewrite Habsent; reflexivity).
    repeat split; try reflexivity; [exact Hload|].
    unfold Ralph.main, Ralph.exit_process, Ralph.init. fold path.
    unfold bind at 1. unfold bind at 1. rewrite Hload.
    unfold bind at 1. unfold get_state. unfold bind at 1. unfold put_state, ret.
    simpl.
    destruct (Ralph.run w (Ralph.make dir default_config) N _) as [[[code|e|c] st'] ev];
      reflexivity.
  - intros text Hfile Hbad.
    assert (load_config w path st = (SysExit 1, st, [EvErr MsgInvalidJson])) as Hload
      by (unfold load_config; rewrite Hfile, Hbad; reflexivity).
    split; [exact Hload|].
    unfold Ralph.main, Ralph.exit_process, Ralph.init. fold path.
    unfold bind at 1. unfold bind at 1. rewrite Hload. reflexivity.
Qed.

(** A directory without [config.json], and one whose [config.json] is broken. *)
Lemma config_loading_witness :
  let w := Sample.world Sample.never_done in
  load_config w "/work/config.json" Sample.fresh =
    (Ret default_config, Sample.fresh, [EvErr (MsgConfigNotFound "/work/config.json")]) /\
  Ralph.main w "/work" 10 None Sample.misconfigured =
    (1%Z, Sample.misconfigured, [EvErr MsgInvalidJson]).
Proof.
  cbv zeta. split.
  - apply (config_loading (Sample.world Sample.never_done) "/work" 10 None Sample.fresh).
    vm_compute. reflexivity.
  - apply (config_loading (Sample.world Sample.never_done) "/work" 10 None
             Sample.misconfigured) with (text := "{ llm: "); vm_compute; reflexivity.
Defined.

(** ** Paths of the working directory *)

Lemma append_assoc (a b c : string) : (a +:+ b) +:+ c = a +:+ (b +:+ c).
Proof.
  induction a as [|x a IH]; [reflexivity|].
  rewrite !append_cons, IH. reflexivity.
Qed.

Lemma append_inj_l (a b c : string) : a +:+ b = a +:+ c -> b = c.
Proof.
  induction a as [|x a IH]; [auto|].
  rewrite !append_cons. intros [= H]. auto.
Qed.

(** A name of one plain component is appended as it is. *)
Lemma path_join_plain (base n : string) :
  PyPath.parts n = [n] ->
  path_join base n = base +:+ PyPath.separator base +:+ n.
Proof. unfold path_join. intros ->. reflexivity. Qed.

Lemma path_join_inj (base a b : string) :
  PyPath.parts a = [a] -> PyPath.parts b = [b] ->
  path_join base a = path_join base b -> a = b.
Proof.
  intros Ha Hb. rewrite !path_join_plain by assumption.
  intros H. apply append_inj_l, append_inj_l in H. exact H.
Qed.

(** A join only extends the text of its base. *)
Lemma path_join_extends (base name : string) :
  exists suffix, path_join base name = base +:+ suffix.
Proof.
  unfold path_join. generalize (PyPath.parts name) as ps. intros ps. revert base.
  induction ps as [|c ps IH]; intros base; simpl.
  - exists "". induction base as [|x base IHb]; [reflexivity|].
    rewrite append_cons, <- IHb. reflexivity.
  - destruct (IH (PyPath.child base c)) as [suffix ->].
    unfold PyPath.child. rewrite !append_assoc. eauto.
Qed.

Section Paths.

Variable w : World.
Variable dir : string.
Variable cfg : LLMConfig.

Let o := Ralph.make dir cfg.

Lemma archived_path_not_top (last name top : string) :
  PyPath.parts top = [top] ->
  String.prefix "archive" top = false ->
  path_join (Ralph.archive_folder w o last) name <> path_join dir top.
Proof.
  intros Hplain Htop H. rewrite (path_join_plain dir top Hplain) in H.
  destruct (path_join_extends (Ralph.archive_folder w o last) name) as [s2 H2].
  rewrite H2 in H. unfold Ralph.archive_folder in H.
  destruct (path_join_extends (archive_dir o) (Ralph.folder_name w last)) as [s1 H1].
  rewrite H1 in H. cbn [archive_dir o Ralph.make] in H.
  rewrite (path_join_plain dir "archive" eq_refl) in H.
  rewrite !append_assoc in H.
  apply append_inj_l, append_inj_l in H.
  apply Bool.not_true_iff_false in Htop. apply Htop, prefix_true_iff.
  eexists. symmetry. exact H.
Qed.

Lemma archived_prd_not_progress (last : string) :
  path_join (Ralph.archive_folder w o last) "prd.json" <> progress_file o.
Proof. apply archived_path_not_top; reflexivity. Qed.

Lemma archived_progress_not_progress (last : string) :
  path_join (Ralph.archive_folder w o last) "progress.txt" <> progress_file o.
Proof. apply archived_path_not_top; reflexivity. Qed.

Lemma archived_prd_not_archived_progress (last : string) :
  path_join (Ralph.archive_folder w o last) "prd.json" <>
  path_join (Ralph.archive_folder w o last) "progress.txt".
Proof. intros H. apply path_join_inj in H; [discriminate | reflexivity..]. Qed.

Lemma last_branch_not_progress : last_branch_file o <> progress_file o.
Proof. intros H. apply path_join_inj in H; [discriminate | reflexivity..]. Qed.

(** The files of the archive folder and the progress log after an
    archival. *)
Lemma archived_files_lookup (last : string) (f : gmap string string) :
  let folder := Ralph.archive_folder w o last in
  let f' := archived_files w o last f in
  (forall c, f !! prd_file o = Some c -> f' !! path_join folder "prd.json" = Some c) /\
  (forall c, f !! progress_file o = Some c ->
             f' !! path_join folder "progress.txt" = Some c) /\
  (f !! progress_file o = None ->
   f' !! path_join folder "progress.txt" = f !! path_join folder "progress.txt") /\
  f' !! progress_file o = Some (Ralph.progress_header w) /\
  (forall path, path <> path_join folder "prd.json" ->
                path <> path_join folder "progress.txt" ->
                path <> progress_file o -> f' !! path = f !! path).
Proof.
  intros folder f'. subst f'. unfold archived_files. fold folder.
  pose proof (archived_prd_not_progress last) as H1.
  pose proof (archived_progress_not_progress last) as H2.
  pose proof (archived_prd_not_archived_progress last) as H3.
  fold folder in H1, H2, H3.
  repeat split.
  - intros c Hc. rewrite Hc.
    rewrite lookup_insert_ne by congruence.
    rewrite lookup_insert_ne by congruence.
    destruct (f !! progress_file o) as [c'|].
    + rewrite lookup_insert_ne by congruence. apply lookup_insert_eq.
    + apply lookup_insert_eq.
  - intros c Hc. rewrite lookup_insert_ne by congruence.
    destruct (f !! prd_file o) as [c'|].
    + rewrite lookup_insert_ne by congruence. rewrite Hc. apply lookup_insert_eq.
    + rewrite Hc. apply lookup_insert_eq.
  - intros Hnone. rewrite lookup_insert_ne by congruence.
    destruct (f !! prd_file o) as [c'|].
    + rewrite lookup_insert_ne by congruence. rewrite Hnone.
      rewrite lookup_insert_ne by congruence. reflexivity.
    + rewrite Hnone. reflexivity.
  - apply lookup_insert_eq.
  - intros path Hp1 Hp2 Hp3. rewrite lookup_insert_ne by congruence.
    destruct (f !! prd_file o) as [c'|].
    + rewrite lookup_insert_ne by congruence.
      destruct (f !! progress_file o) as [c''|];
        rewrite ?lookup_insert_ne by congruence; reflexivity.
    + destruct (f !! progress_file o) as [c''|];
        rewrite ?lookup_insert_ne by congruence; reflexivity.
Qed.

End Paths.

(** ** White space and text read from a file *)

Lemma append_nil_r (s : string) : s +:+ "" = s.
Proof. induction s as [|c s IH]; [reflexivity|]. rewrite append_cons, IH. reflexivity. Qed.

Lemma append_length (a b : string) :
  String.length (a +:+ b) = (String.length a + String.length b)%nat.
Proof. induction a as [|c a IH]; [reflexivity|]. rewrite append_cons. simpl. lia. Qed.

Lemma strip_prefix_spec (p s r : string) :
  PyStr.strip_prefix p s = Some r -> s = p +:+ r.
Proof.
  revert s. induction p as [|a p IH]; intros s; simpl.
  - intros [= ->]. reflexivity.
  - destruct s as [|b s]; [discriminate|].
    destruct (Ascii.eqb a b) eqn:E; [|discriminate].
    apply Ascii.eqb_eq in E as ->. intros H. rewrite append_cons, <- (IH _ H). reflexivity.
Qed.

Lemma first_match_spec (tokens : list string) (s r : string) :
  PyStr.first_match tokens s = Some r -> exists t, In t tokens /\ s = t +:+ r.
Proof.
  induction tokens as [|t tokens IH]; simpl; [discriminate|].
  destruct (PyStr.strip_prefix t s) as [r'|] eqn:E.
  - intros [= ->]. exists t. split; [auto | apply strip_prefix_spec, E].
  - intros H. destruct (IH H) as (t' & Hin & ->). eauto.
Qed.

Lemma space_head_spec (s r : string) :
  PyStr.space_head s = Some r -> exists ws, In ws PyStr.whitespace /\ s = ws +:+ r.
Proof. apply first_match_spec. Qed.

(** Every white-space character, at the head of a text, is found; it is
    well-formed, and other than the carriage return it is read as it is. *)
Lemma whitespace_facts (ws : string) :
  In ws PyStr.whitespace ->
  (1 <= String.length ws)%nat /\
  (forall y, PyStr.space_head (ws +:+ y) = Some y) /\
  (forall y, PyStr.utf8_valid (ws +:+ y) = PyStr.utf8_valid y) /\
  (ws = PyStr.bytes [13] \/
   forall y, PyStr.universal_newlines (ws +:+ y) = ws +:+ PyStr.universal_newlines y).
Proof.
  unfold PyStr.whitespace. simpl.
  intros H. repeat (destruct H as [<- | H]; [repeat split; try (simpl; lia); auto|]).
  contradiction.
Qed.

Lemma space_head_shorter (s r : string) :
  PyStr.space_head s = Some r -> (String.length r < String.length s)%nat.
Proof.
  intros H. apply space_head_spec in H as (ws & Hin & ->).
  apply whitespace_facts in Hin as (Hlen & _). rewrite append_length. lia.
Qed.

Lemma lstrip_go_enough (f g : nat) (s : string) :
  (String.length s <= f)%nat -> (String.length s <= g)%nat ->
  PyStr.lstrip_go f s = PyStr.lstrip_go g s.
Proof.
  revert g s. induction f as [|f IH]; intros g s Hf Hg.
  - destruct s; [|simpl in Hf; lia]. destruct g; reflexivity.
  - destruct g as [|g].
    + destruct s; [reflexivity | simpl in Hg; lia].
    + simpl. destruct (PyStr.space_head s) as [r|] eqn:E; [|reflexivity].
      apply space_head_shorter in E. apply IH; lia.
Qed.

Lemma lstrip_unfold (s : string) :
  PyStr.lstrip s =
  match PyStr.space_head s with
  | Some rest => PyStr.lstrip rest
  | None => s
  end.
Proof.
  unfold PyStr.lstrip. destruct s as [|c s]; [reflexivity|].
  change (String.length (String c s)) with (S (String.length s)). simpl PyStr.lstrip_go.
  destruct (PyStr.space_head (String c s)) as [r|] eqn:E; [|reflexivity].
  apply space_head_shorter in E. simpl in E. apply lstrip_go_enough; lia.
Qed.

Lemma lstrip_whitespace (ws y : string) :
  In ws PyStr.whitespace -> PyStr.lstrip (ws +:+ y) = PyStr.lstrip y.
Proof.
  intros Hin. apply whitespace_facts in Hin as (_ & Hhead & _).
  rewrite lstrip_unfold, Hhead. reflexivity.
Qed.

(** A text is white space throughout when [lstrip] leaves nothing of
    it. Such a text is a sequence of white-space characters. *)
Lemma all_space_ind (P : string -> Prop) :
  P "" ->
  (forall ws r, In ws PyStr.whitespace -> PyStr.lstrip r = "" -> P r -> P (ws +:+ r)) ->
  forall x, PyStr.lstrip x = "" -> P x.
Proof.
  intros Hnil Hstep x.
  remember (String.length x) as n eqn:En. revert x En.
  induction n as [n IH] using lt_wf_ind. intros x En Hx.
  rewrite lstrip_unfold in Hx.
  destruct (PyStr.space_head x) as [r|] eqn:E; [|subst x; exact Hnil].
  pose proof (space_head_shorter _ _ E) as Hlt.
  apply space_head_spec in E as (ws & Hin & ->).
  apply Hstep; auto. apply (IH (String.length r)); auto. lia.
Qed.

Lemma lstrip_all_space_app (x y : string) :
  PyStr.lstrip x = "" -> PyStr.lstrip (x +:+ y) = PyStr.lstrip y.
Proof.
  intros Hx. revert x Hx. apply all_space_ind; [reflexivity|].
  intros ws r Hin _ IH. rewrite append_assoc, lstrip_whitespace by exact Hin. exact IH.
Qed.

Lemma utf8_valid_all_space_app (x y : string) :
  PyStr.lstrip x = "" -> PyStr.utf8_valid (x +:+ y) = PyStr.utf8_valid y.
Proof.
  intros Hx. revert x Hx. apply all_space_ind; [reflexivity|].
  intros ws r Hin _ IH. apply whitespace_facts in Hin as (_ & _ & Hvalid & _).
  rewrite append_assoc, Hvalid. exact IH.
Qed.

Lemma lstrip_split (s : string) :
  exists pre, s = pre +:+ PyStr.lstrip s /\ PyStr.lstrip pre = "".
Proof.
  remember (String.length s) as n eqn:En. revert s En.
  induction n as [n IH] using lt_wf_ind. intros s En.
  rewrite (lstrip_unfold s).
  destruct (PyStr.space_head s) as [r|] eqn:E; [|exists ""; auto].
  pose proof (space_head_shorter _ _ E) as Hlt.
  apply space_head_spec in E as (ws & Hin & ->).
  destruct (IH (String.length r) ltac:(lia) r eq_refl) as (pre & Hr & Hpre).
  exists (ws +:+ pre). split.
  - rewrite append_assoc, <- Hr. reflexivity.
  - rewrite lstrip_whitespace by exact Hin. exact Hpre.
Qed.

Lemma rstrip_split (s : string) :
  exists post, s = PyStr.rstrip s +:+ post /\ PyStr.lstrip post = "".
Proof.
  induction s as [|c s (post & Hs & Hpost)].
  - exists "". auto.
  - simpl PyStr.rstrip.
    destruct (PyStr.lstrip (String c s)) as [|d l] eqn:E; simpl PyStr.is_empty; cbv iota.
    + exists (String c s). auto.
    + exists post. rewrite append_cons, <- Hs. auto.
Qed.

Lemma rstrip_all_space (x : string) : PyStr.lstrip x = "" -> PyStr.rstrip x = "".
Proof. intros H. destruct x as [|c x]; [reflexivity|]. simpl. rewrite H. reflexivity. Qed.

Lemma rstrip_keep (c : ascii) (y : string) :
  PyStr.space_head (String c y) = None ->
  PyStr.rstrip (String c y) = String c (PyStr.rstrip y).
Proof.
  intros H. simpl PyStr.rstrip. rewrite lstrip_unfold, H. reflexivity.
Qed.

Lemma universal_newlines_cons (c : ascii) (rest : string) :
  PyStr.universal_newlines (String c rest) =
  if (nat_of_ascii c =? 13)%nat then
    match rest with
    | String c' rest' =>
        if (nat_of_ascii c' =? 10)%nat
        then String (ascii_of_nat 10) (PyStr.universal_newlines rest')
        else String (ascii_of_nat 10) (PyStr.universal_newlines rest)
    | EmptyString => String (ascii_of_nat 10) EmptyString
    end
  else String c (PyStr.universal_newlines rest).
Proof. reflexivity. Qed.

(** Text mode reads white space as white space. *)
Lemma universal_newlines_all_space (x : string) :
  PyStr.lstrip x = "" -> PyStr.lstrip (PyStr.universal_newlines x) = "".
Proof.
  remember (String.length x) as n eqn:En. revert x En.
  induction n as [n IH] using lt_wf_ind. intros x En Hx.
  rewrite lstrip_unfold in Hx.
  destruct (PyStr.space_head x) as [r|] eqn:E; [|subst x; reflexivity].
  pose proof (space_head_shorter _ _ E) as Hlt.
  apply space_head_spec in E as (ws & Hin & ->).
  assert (In (PyStr.bytes [10]) PyStr.whitespace) as Hlf
    by (unfold PyStr.whitespace; simpl; auto).
  destruct (whitespace_facts ws Hin) as (_ & _ & _ & [-> | Hread]).
  - change (PyStr.bytes [13] +:+ r) with (String (ascii_of_nat 13) r).
    destruct r as [|c r']; [reflexivity|].
    rewrite universal_newlines_cons. change (nat_of_ascii (ascii_of_nat 13) =? 13)%nat with true.
    cbv iota.
    destruct (nat_of_ascii c =? 10)%nat eqn:Ec.
    + apply Nat.eqb_eq in Ec.
      assert (c = ascii_of_nat 10) as -> by (rewrite <- Ec; symmetry; apply ascii_nat_embedding).
      change (String (ascii_of_nat 10) r') with (PyStr.bytes [10] +:+ r') in Hx.
      rewrite lstrip_whitespace in Hx by exact Hlf.
      change (String (ascii_of_nat 10) (PyStr.universal_newlines r'))
        with (PyStr.bytes [10] +:+ PyStr.universal_newlines r').
      rewrite lstrip_whitespace by exact Hlf.
      apply (IH (String.length r')); [simpl in Hlt; subst n; simpl in *; lia | reflexivity | exact Hx].
    + change (String (ascii_of_nat 10) ?y) with (PyStr.bytes [10] +:+ y).
      rewrite lstrip_whitespace by exact Hlf.
      apply (IH (String.length (String c r'))); [subst n; exact Hlt | reflexivity | exact Hx].
  - rewrite Hread, lstrip_whitespace by exact Hin.
    apply (IH (String.length r)); [subst n; exact Hlt | reflexivity | exact Hx].
Qed.

(** The translation of a text goes through a place where no line feed
    follows. *)
Lemma universal_newlines_app (a : string) (c : ascii) (z : string) :
  nat_of_ascii c <> 10%nat ->
  PyStr.universal_newlines (a +:+ String c z) =
  PyStr.universal_newlines a +:+ PyStr.universal_newlines (String c z).
Proof.
  intros Hc. remember (String.length a) as n eqn:En. revert a En.
  induction n as [n IH] using lt_wf_ind. intros a En.
  destruct a as [|c0 a1]; [reflexivity|].
  rewrite append_cons, !(universal_newlines_cons c0).
  destruct (nat_of_ascii c0 =? 13)%nat.
  - destruct a1 as [|c1 a2].
    + rewrite append_nil. apply Nat.eqb_neq in Hc. rewrite Hc. reflexivity.
    + rewrite append_cons. destruct (nat_of_ascii c1 =? 10)%nat.
      * rewrite append_cons. f_equal.
        apply (IH (String.length a2)); [subst n; simpl; lia | reflexivity].
      * rewrite append_cons. f_equal. rewrite <- append_cons.
        apply (IH (String.length (String c1 a2))); [subst n; simpl; lia | reflexivity].
  - rewrite append_cons. f_equal.
    apply (IH (String.length a1)); [subst n; simpl; lia | reflexivity].
Qed.

(** What a stripped name tells about the file it was read from. The text
    [t] is a name of plain characters: it starts with no line feed, is
    read as it is, and no white space touches its ends. *)
Lemma strip_read_back (s t : string) (c : ascii) (t' : string) :
  t = String c t' -> nat_of_ascii c <> 10%nat ->
  (forall y, PyStr.utf8_valid (t +:+ y) = PyStr.utf8_valid y) ->
  (forall y, PyStr.universal_newlines (t +:+ y) = t +:+ PyStr.universal_newlines y) ->
  (forall y, PyStr.lstrip (t +:+ y) = t +:+ y) ->
  (forall y, PyStr.lstrip y = "" -> PyStr.rstrip (t +:+ y) = t) ->
  PyStr.strip s = t ->
  exists text, PyStr.decode s = Some text /\ PyStr.strip text = t.
Proof.
  intros Ht Hc Hvalid Hread Hl Hr Hstrip.
  destruct (lstrip_split s) as (pre & Hs & Hpre).
  destruct (rstrip_split (PyStr.lstrip s)) as (post & Hs' & Hpost).
  unfold PyStr.strip in Hstrip. rewrite Hstrip in Hs'. rewrite Hs' in Hs. clear Hs'.
  exists (PyStr.universal_newlines s). split.
  - unfold PyStr.decode.
    assert (PyStr.utf8_valid s = true) as ->; [|reflexivity].
    rewrite Hs, (utf8_valid_all_space_app pre _ Hpre), Hvalid.
    rewrite <- (append_nil_r post), (utf8_valid_all_space_app post "" Hpost). reflexivity.
  - rewrite Hs. rewrite Ht at 1. rewrite append_cons, universal_newlines_app by exact Hc.
    rewrite <- append_cons, <- Ht, Hread.
    unfold PyStr.strip.
    rewrite (lstrip_all_space_app _ _ (universal_newlines_all_space pre Hpre)), Hl.
    apply Hr, universal_newlines_all_space, Hpost.
Qed.

Lemma strip_read_back_taskA (s : string) :
  PyStr.strip s = "ralph/taskA" ->
  exists text, PyStr.decode s = Some text /\ PyStr.strip text = "ralph/taskA".
Proof.
  apply (strip_read_back s "ralph/taskA" "r" "alph/taskA"); try reflexivity.
  - discriminate.
  - intros y Hy.
    repeat (rewrite append_cons, rstrip_keep by reflexivity; f_equal).
    rewrite append_nil. apply rstrip_all_space, Hy.
Qed.

(** ** [replace] and the prefix *)

Lemma replace_go_skip (old new p s : string) :
  PyStr.replace_go old new (String.length p) (p +:+ s) = PyStr.replace_go old new 0 s.
Proof.
  induction p as [|c p IH]; [reflexivity|].
  rewrite append_cons. simpl. exact IH.
Qed.

Lemma replace_go_cons (old new : string) (c : ascii) (s : string) :
  PyStr.replace_go old new 0 (String c s) =
  if String.prefix old (String c s)
  then new +:+ PyStr.replace_go old new (String.length old - 1) s
  else String c (PyStr.replace_go old new 0 s).
Proof. reflexivity. Qed.

Lemma replace_go_absent (old new s : string) :
  PyStr.contains old s = false -> PyStr.replace_go old new 0 s = s.
Proof.
  induction s as [|c s IH]; [reflexivity|].
  change (PyStr.contains old (String c s))
    with (String.prefix old (String c s) || PyStr.contains old s).
  intros H. apply orb_false_iff in H as [Hp Hc].
  rewrite replace_go_cons, Hp, IH by exact Hc. reflexivity.
Qed.

(** On an identity [ralph/<name>] whose [<name>] holds no further
    [ralph/], removing every occurrence strips the prefix; an identity
    without [ralph/] is left as it is. *)
Lemma replace_strips_prefix (name : string) :
  PyStr.contains "ralph/" name = false ->
  PyStr.replace ("ralph/" +:+ name) "ralph/" "" = name /\
  PyStr.replace name "ralph/" "" = name.
Proof.
  intros Habsent. split.
  - change (PyStr.replace ("ralph/" +:+ name) "ralph/" "")
      with (PyStr.replace_go "ralph/" "" 0 (String "r" ("alph/" +:+ name))).
    rewrite replace_go_cons.
    assert (String.prefix "ralph/" (String "r" ("alph/" +:+ name)) = true) as ->
      by (apply prefix_true_iff; exists name; reflexivity).
    change (String.length "ralph/" - 1) with (String.length "alph/").
    rewrite replace_go_skip, append_nil. apply replace_go_absent, Habsent.
  - apply replace_go_absent, Habsent.
Qed.

(** ** Archival on a change of task *)

Lemma loop_run_no_archiving (w : World) (o : Orchestrator) (N : Z) (indices : list Z)
    (st : State) (res : Z * State * list event) :
  loop_run w o N indices st res -> count is_archiving res.2 = 0%nat.
Proof.
  assert (forall body oo, body_events body oo -> count is_archiving body = 0%nat) as Hbody.
  { intros body oo [|prompt noise Hn|prompt noise out Hn];
      rewrite ?count_cons, ?count_app, ?count_cons, ?count_nil;
      rewrite ?(noise_count is_archiving) by (reflexivity || assumption); reflexivity. }
  induction 1 as [st | i rest st out0 st1 body Hrun
                 | i rest st out0 st1 body code st2 ev Hrun Hloop IH
                 | i rest st e st1 body code st2 ev Hrun Hloop IH];
    cbn [fst snd] in *.
  - reflexivity.
  - apply run_iteration_returns in Hrun as [_ Hb]. unfold completed_events.
    rewrite count_cons, count_app, (Hbody _ _ Hb). reflexivity.
  - apply run_iteration_returns in Hrun as [_ Hb]. unfold continued_events.
    rewrite count_app, count_cons, count_app, (Hbody _ _ Hb), IH. reflexivity.
  - apply run_iteration_raises in Hrun as Hb. unfold failed_events.
    rewrite count_app, count_cons, count_app, (Hbody _ _ Hb), IH. reflexivity.
Qed.

Lemma run_archives_once (w : World) (o : Orchestrator) (N : Z) (st : State) :
  (count is_archiving (Ralph.exit_process (Ralph.run w o N) st).2 <= 1)%nat.
Proof.
  destruct (run_process w o N st)
    as [e st1 ev1 Hs | e st1 ev1 st2 noise Hs Hd | p st1 ev1 st2 noise code st3 ev Hs Hd Hloop];
    cbn [fst snd].
  - apply setup_quiet_events in Hs as (_ & Hc & _).
    rewrite count_app. change (count is_archiving [_]) with 0%nat. lia.
  - destruct (startup_quiet _ _ _ _ _ _ _ _ _ Hs Hd) as (_ & Hc & _).
    rewrite count_app. change (count is_archiving [_]) with 0%nat. lia.
  - destruct (startup_quiet _ _ _ _ _ _ _ _ _ Hs Hd) as (_ & Hc & _).
    apply loop_run_no_archiving in Hloop. cbn [snd] in Hloop.
    rewrite count_app, count_cons, Hloop. simpl. lia.
Qed.

(** What an archival does, when it is due. *)
Lemma archive_due_effects (w : World) (dir : string) (cfg : LLMConfig)
    (st : State) (last : string) :
  let o := Ralph.make dir cfg in
  let res := Ralph.archive_previous_run w o st in
  archival_due w o st last ->
  let folder :=
    path_join (archive_dir o) (date_str w +:+ "-" +:+ PyStr.replace last "ralph/" "") in
  let after := files (disk res.1.2) in
  res.1.1 = Ret tt /\
  res.2 = [EvOut (MsgArchiving last); EvOut (MsgArchivedTo folder)] /\
  (folder ∈ dirs (disk res.1.2)) /\
  after !! path_join folder "prd.json" = files (disk st) !! prd_file o /\
  is_Some (after !! path_join folder "prd.json") /\
  (forall c, files (disk st) !! progress_file o = Some c ->
             after !! path_join folder "progress.txt" = Some c) /\
  (files (disk st) !! progress_file o = None ->
   after !! path_join folder "progress.txt" =
     files (disk st) !! path_join folder "progress.txt") /\
  after !! progress_file o = Some (Ralph.progress_header w).
Proof.
  intros o res Hdue folder after. subst after res.
  rewrite (archive_when_due w o st last Hdue). cbn [fst snd].
  change folder with (Ralph.archive_folder w o last).
  destruct (archived_files_lookup w dir cfg last (files (disk st)))
    as (Hprd & Hprog & Hnoprog & Hreset & _).
  fold o in Hprd, Hprog, Hnoprog, Hreset.
  assert (exists text, files (disk st) !! prd_file o = Some text) as [text Htext].
  { destruct Hdue as (current & Hcur & _). unfold task_identity in Hcur.
    destruct (files (disk st) !! prd_file o); [eauto | discriminate]. }
  cbn [archived_state disk dirs files].
  repeat split; auto.
  - set_solver.
  - rewrite Htext. apply Hprd, Htext.
  - rewrite (Hprd _ Htext). eauto.
Qed.



(** The folder name is computed with [replace]: of the last identity
    [ralph/tools/ralph/cli] every [ralph/] goes, not the prefix alone, and
    the folder made is [tools/cli] where the prefix stripped would give
    [tools/ralph/cli]. *)
Lemma archive_folder_is_not_prefix_stripped :
  let w := Sample.world Sample.never_done in
  let o := Sample.orchestrator "ollama" in
  let res := Ralph.archive_previous_run w o Sample.nested in
  let claimed :=
    path_join (archive_dir o)
      (date_str w +:+ "-" +:+ PyStr.removeprefix "ralph/tools/ralph/cli" "ralph/") in
  let made := path_join (archive_dir o) (date_str w +:+ "-tools/cli") in
  archival_due w o Sample.nested "ralph/tools/ralph/cli" /\
  claimed = "/work/archive/2026-01-31-tools/ralph/cli" /\
  (claimed ∉ dirs (disk res.1.2)) /\
  files (disk res.1.2) !! path_join claimed "prd.json" = None /\
  (made ∈ dirs (disk res.1.2)) /\
  is_Some (files (disk res.1.2) !! path_join made "prd.json").
Proof.
  cbv zeta. split; [|split; [|split; [|split; [|split]]]].
  - exists (JStr "ralph/taskB"). repeat split; try discriminate; vm_compute; reflexivity.
  - vm_compute. reflexivity.
  - vm_compute. discriminate.
  - vm_compute. reflexivity.
  - vm_compute. reflexivity.
  - vm_compute. eauto.
Qed.


(** C5, amended. With [ralph/taskA] in [.last-branch] and [ralph/taskB] as
    the branch of [prd.json], the archival creates the folder
    [archive/<date>-taskA], named after the run that ended; it holds a copy
    of [prd.json] and, when there is a progress log, a copy of it; the
    progress log is reset afterwards. *)
Theorem archive_is_named_after_last_task (w : World) (dir : string) (cfg : LLMConfig)
    (st : State) (text last_text : string) (prd : json) :
  let o := Ralph.make dir cfg in
  files (disk st) !! prd_file o = Some text ->
  json_loads w text = Some prd ->
  Json.get prd "branchName" (JStr "") = Some (JStr "ralph/taskB") ->
  files (disk st) !! last_branch_file o = Some last_text ->
  PyStr.strip last_text = "ralph/taskA" ->
  let res := Ralph.archive_previous_run w o st in
  let folder := path_join (archive_dir o) (date_str w +:+ "-taskA") in
  let after := files (disk res.1.2) in
  res.1.1 = Ret tt /\
  (folder ∈ dirs (disk res.1.2)) /\
  after !! path_join folder "prd.json" = Some text /\
  (forall c, files (disk st) !! progress_file o = Some c ->
             after !! path_join folder "progress.txt" = Some c) /\
  after !! progress_file o = Some (Ralph.progress_header w).
Proof.
  intros o Hprd Hload Hbranch Hlast Hstrip res folder after.
  assert (archival_due w o st "ralph/taskA") as Hdue.
  { destruct (strip_read_back_taskA last_text Hstrip) as (read & Hdecode & Hread).
    exists (JStr "ralph/taskB"). unfold task_identity, last_identity.
    rewrite Hprd, Hload, Hlast. simpl. rewrite Hdecode. simpl. rewrite Hread.
    repeat split; auto; discriminate. }
  destruct (archive_due_effects w dir cfg st _ Hdue)
    as (Hr & _ & Hdir & Hcopy & _ & Hprog & _ & Hreset).
  fold o in Hr, Hdir, Hcopy, Hprog, Hreset.
  repeat split; auto. subst after folder res. rewrite <- Hprd. exact Hcopy.
Qed.

(** C5 as stated fails: no folder named after [taskB], the task of
    [prd.json], is made; the only folder made is named after [taskA]. *)
Lemma archive_folder_is_not_named_after_current_task :
  let w := Sample.world Sample.never_done in
  let o := Sample.orchestrator "ollama" in
  let res := Ralph.archive_previous_run w o Sample.switched in
  let claimed := path_join (archive_dir o) (date_str w +:+ "-taskB") in
  task_identity w o Sample.switched = Some (JStr "ralph/taskB") /\
  last_identity o Sample.switched = Some "ralph/taskA" /\
  (claimed ∉ dirs (disk res.1.2)) /\
  files (disk res.1.2) !! path_join claimed "prd.json" = None /\
  files (disk res.1.2) !! path_join claimed "progress.txt" = None /\
  dirs (disk res.1.2) = {[ "/work/archive/2026-01-31-taskA" ]}.
Proof.
  cbv zeta. repeat split; try (vm_compute; reflexivity).
  vm_compute. discriminate.
Qed.

(** The directory of the example. *)
Lemma archive_is_named_after_last_task_witness :
  let w := Sample.world Sample.never_done in
  let o := Sample.orchestrator "ollama" in
  let res := Ralph.archive_previous_run w o Sample.switched in
  ("/work/archive/2026-01-31-taskA" ∈ dirs (disk res.1.2)) /\
  files (disk res.1.2) !! "/work/archive/2026-01-31-taskA/prd.json" =
    Some (Sample.prd_text "ralph/taskB").
Proof.
  cbv zeta.
  destruct (archive_is_named_after_last_task
              (Sample.world Sample.never_done) "/work" (Sample.config_of "ollama")
              Sample.switched (Sample.prd_text "ralph/taskB") "ralph/taskA"
              (JObj [("branchName", JStr "ralph/taskB")]))
    as (_ & Hdir & Hprd & _); try (vm_compute; reflexivity).
  split; [exact Hdir | exact Hprd].
Defined.

(** ** The progress log during the setup *)

Section Progress.

Variable w : World.
Variable o : Orchestrator.

Hypothesis Hpaths : last_branch_file o <> progress_file o.

(** The setup after the archival: the branch is tracked, then the progress
    log is created if it is missing. *)
Lemma track_then_ensure_progress (st : State) :
  let res := (Ralph.track_current_branch w o;;
              do has_progress <- path_exists (progress_file o);
              if has_progress then ret () else Ralph.init_progress_file w o) st in
  let before := files (disk st) !! progress_file o in
  let after := files (disk res.1.2) !! progress_file o in
  (is_Some before -> after = before) /\
  (before = None -> res.1.1 = Ret tt -> after = Some (Ralph.progress_header w)) /\
  (res.1.1 <> Ret tt -> after = before).
Proof.
  cbn zeta.
  destruct (track_spec w o st) as (r & st1 & Htrack & Hr & _ & _ & Hfiles).
  specialize (Hfiles (progress_file o) (not_eq_sym Hpaths)).
  unfold Ralph.init_progress_file. run_monad. rewrite Htrack.
  destruct Hr as [-> | [e ->]];
    [|cbn [fst snd]; rewrite Hfiles; repeat split; auto; discriminate].
  rewrite is_Some_bool_decide, Hfiles.
  destruct (files (disk st) !! progress_file o) as [c|]; cbn [fst snd]; simpl.
  - rewrite Hfiles. repeat split; auto; congruence.
  - rewrite lookup_insert_eq. repeat split; auto; [intros [? [=]] | congruence].
Qed.

Lemma setup_unfold (st : State) :
  Ralph.setup w o st =
  match Ralph.archive_previous_run w o st with
  | (Ret _, st0, ev0) =>
      let r := (Ralph.track_current_branch w o;;
                do has_progress <- path_exists (progress_file o);
                if has_progress then ret () else Ralph.init_progress_file w o) st0 in
      (r.1.1, r.1.2, ev0 ++ r.2)
  | (Raise e, st0, ev0) => (Raise e, st0, ev0)
  | (SysExit c, st0, ev0) => (SysExit c, st0, ev0)
  end.
Proof.
  unfold Ralph.setup. unfold bind at 1.
  destruct (Ralph.archive_previous_run w o st) as [[[[]|e|c] st0] ev0]; try reflexivity.
  destruct ((Ralph.track_current_branch w o;; _) st0) as [[r st1] ev1]. reflexivity.
Qed.

Lemma setup_progress_when_due (st : State) (last : string) :
  archival_due w o st last ->
  archived_files w o last (files (disk st)) !! progress_file o =
    Some (Ralph.progress_header w) ->
  files (disk (Ralph.setup w o st).1.2) !! progress_file o =
    Some (Ralph.progress_header w).
Proof.
  intros Hdue Hreset. rewrite setup_unfold, (archive_when_due w o st last Hdue).
  destruct (track_then_ensure_progress (archived_state w o last st)) as (Hkeep & _).
  cbn [fst snd] in *. cbn [archived_state disk files] in Hkeep. rewrite Hreset in Hkeep.
  apply Hkeep; eauto.
Qed.

Lemma setup_progress_when_not_due (st : State) :
  (forall last, ~ archival_due w o st last) ->
  let res := Ralph.setup w o st in
  let before := files (disk st) !! progress_file o in
  let after := files (disk res.1.2) !! progress_file o in
  (before = None -> res.1.1 = Ret tt -> after = Some (Ralph.progress_header w)) /\
  (is_Some before -> after = before) /\
  (res.1.1 <> Ret tt -> after = before).
Proof.
  intros Hnot. cbn zeta. rewrite setup_unfold.
  destruct (archive_when_not_due w o st Hnot) as (r & -> & Hr).
  destruct Hr as [-> | [e ->]].
  - destruct (track_then_ensure_progress st) as (Hkeep & Hinit & Hraise).
    cbn [fst snd] in *. repeat split; auto.
  - cbn [fst snd]. repeat split; auto. discriminate.
Qed.

End Progress.




(** ** Further properties of the client *)

(** A local model service that lists the model, and a key in the
    environment: the service wins. *)
Lemma detect_provider_priority_witness :
  (Client.detect_provider
     {| json_loads := Sample.loads; py_str := fun _ => "None";
        date_str := "2026-01-31"; now_str := "2026-01-31 12:00:00.000000";
        ollama_list := Some ["llama3.1:latest"]; env_api_key := Some "sk-key";
        amp_on_path := true;
        ollama_chat := fun n d _ _ => (Sample.never_done n, d);
        claude_create := fun _ d _ _ => (inl (BackendError "refused"), d);
        amp_run := fun _ d _ => (inl (FileNotFoundError "amp"), d) |}
     (Sample.config_of "auto") Sample.fresh).1.1 = Ret (JStr "ollama").
Proof.
  rewrite detect_provider_priority; reflexivity.
Defined.

(** X3. Once a detection has returned a provider, every later detection
    returns the same one without probing: nothing is printed and the state
    is left as it is. *)
Theorem detection_is_memoised (w : World) (cfg : LLMConfig) (st st1 : State)
    (p : json) (ev : list event) :
  Client.detect_provider w cfg st = (Ret p, st1, ev) ->
  Client.detect_provider w cfg st1 = (Ret p, st1, []).
Proof.
  unfold Client.detect_provider, Client._check_ollama, Client._check_claude,
    Client._check_amp, Client.set_detected.
  run_monad.
  destruct (Client.memoised st) as [q|] eqn:Hmemo.
  - intros [= <- <- <-]. rewrite Hmemo. reflexivity.
  - destruct (negb (Json.eq_str (provider cfg) "auto")) eqn:Hpin.
    + simpl. intros [= <- <- <-]. unfold Client.memoised. simpl.
      destruct (Json.truthy (provider cfg)); reflexivity.
    + destruct (ollama_list w) as [names|]; simpl; split_if; simpl;
        intros [= <- <- <-]; reflexivity.
Qed.

Lemma detection_is_memoised_witness :
  Client.detect_provider (Sample.world Sample.never_done) (Sample.config_of "")
    {| disk := disk Sample.fresh; detected := Some (JStr ""); calls := 0 |} =
  (Ret (JStr ""),
   {| disk := disk Sample.fresh; detected := Some (JStr ""); calls := 0 |}, []).
Proof.
  apply (detection_is_memoised (Sample.world Sample.never_done) (Sample.config_of "")
           Sample.fresh _ (JStr "") []).
  reflexivity.
Defined.

(** X4. The name test of the local model service, for any model name: a
    listing is accepted exactly when it holds the name itself or the name
    followed by a colon and a tag (the test for [:latest] adds nothing to
    these two). *)
Theorem model_listed_iff (w : World) (m : string) (names : list string) :
  Client.model_listed w (JStr m) names = true <->
  exists n, In n names /\ (n = m \/ exists tag, n = m +:+ ":" +:+ tag).
Proof.
  unfold Client.model_listed. simpl Client.fmt. split.
  - intros H.
    destruct (existsb (Json.eq_str (JStr m)) names) eqn:E1.
    { apply existsb_exists in E1 as (n & Hin & Hn). simpl in Hn.
      apply String.eqb_eq in Hn. eauto. }
    destruct (existsb (String.eqb (m +:+ ":latest")) names) eqn:E2.
    { apply existsb_exists in E2 as (n & Hin & Hn). apply String.eqb_eq in Hn.
      exists n. split; [exact Hin|]. right. exists "latest". auto. }
    apply existsb_exists in H as (n & Hin & Hn). unfold PyStr.startswith in Hn.
    apply prefix_true_iff in Hn as [tag ->]. exists ((m +:+ ":") +:+ tag).
    split; [exact Hin|]. right. exists tag. apply append_assoc.
  - intros (n & Hin & [-> | [tag ->]]).
    + assert (existsb (Json.eq_str (JStr m)) names = true) as ->; [|reflexivity].
      apply existsb_exists. exists m. split; [exact Hin|]. simpl. apply String.eqb_refl.
    + destruct (existsb (Json.eq_str (JStr m)) names); [reflexivity|].
      destruct (existsb (String.eqb (m +:+ ":latest")) names); [reflexivity|].
      apply existsb_exists. exists (m +:+ ":" +:+ tag). split; [exact Hin|].
      unfold PyStr.startswith. apply prefix_true_iff. exists tag.
      symmetry. apply append_assoc.
Qed.

(** X5. The reply of the hosted API is the texts of its blocks of type
    [text], in order; blocks of any other type contribute nothing. *)
Theorem text_content_keeps_text_blocks (blocks : list (string * string)) :
  Client.text_content blocks =
  fold_right String.append ""
    (map snd (filter (fun b => String.eqb b.1 "text" = true) blocks)).
Proof.
  induction blocks as [|[type text] blocks IH]; [reflexivity|].
  rewrite filter_cons. simpl.
  destruct (String.eqb type "text") eqn:E.
  - rewrite decide_True by reflexivity. simpl. rewrite IH. reflexivity.
  - rewrite decide_False by discriminate. exact IH.
Qed.

(** One chat call makes at most one exchange with a backend, and when it
    makes none it has failed without touching a file. *)
Lemma chat_exchanges (w : World) (cfg : LLMConfig) (prompt : string) (st st1 : State)
    (r : outcome string) (ev : list event) :
  Client.chat w cfg prompt st = (r, st1, ev) ->
  (calls st1 = calls st /\ disk st1 = disk st /\ exists e, r = Raise e) \/
  calls st1 = S (calls st).
Proof.
  unfold Client.chat, Client._chat_ollama, Client._chat_claude, Client._chat_amp.
  unfold bind at 1. unfold emit. unfold bind at 1.
  destruct (detect_provider_spec w cfg st) as (r0 & st0 & ev0 & -> & _ & Hr0 & Hd & Hc).
  destruct r0 as [p|e|c]; [| intros [= <- <- <-]; eauto | destruct (Hr0 c); reflexivity].
  assert (forall T (backend : nat -> Disk -> (exn + T) * Disk) r2 st2 ev2,
            Client.exchange backend st0 = (r2, st2, ev2) -> calls st2 = S (calls st)) as Hex.
  { intros T backend r2 st2 ev2. unfold Client.exchange.
    destruct (backend _ _) as [[e|t] d]; intros [= <- <- <-]; simpl; congruence. }
  split_if.
  - destruct (Client.exchange _ st0) as [[r2 st2] ev2] eqn:E.
    apply Hex in E. intros [= <- <- <-]. auto.
  - unfold bind.
    destruct (Client.exchange _ st0) as [[r2 st2] ev2] eqn:E.
    apply Hex in E. destruct r2; unfold ret; intros [= <- <- <-]; auto.
  - unfold bind.
    destruct (Client.exchange _ st0) as [[r2 st2] ev2] eqn:E.
    apply Hex in E. destruct r2; unfold ret; intros [= <- <- <-]; auto.
  - unfold raise. intros [= <- <- <-]. left. eauto.
Qed.

(** X6. [run_iteration] reports completion exactly when the output holds
    the literal marker, and the output it returns is the one it has just
    printed, last. *)
Theorem run_iteration_reports_completion (w : World) (o : Orchestrator)
    (st st1 : State) (out : string) (complete : bool) (ev : list event) :
  Ralph.run_iteration w o st = (Ret (out, complete), st1, ev) ->
  (complete = true <-> substring_of completion_marker out) /\
  last ev = Some (EvErr (MsgOutput out)) /\
  calls st1 = S (calls st).
Proof.
  intros Hrun. pose proof (run_iteration_returns w o _ _ _ _ _ Hrun) as [Hc Hbody].
  split; [|split].
  - rewrite Hc. apply contains_true_iff.
  - inversion Hbody as [| |prompt noise out' Hn]; subst.
    change (EvChat prompt :: noise ++ [EvErr (MsgOutput out)])
      with ((EvChat prompt :: noise) ++ [EvErr (MsgOutput out)]).
    apply last_snoc.
  - revert Hrun. unfold Ralph.run_iteration. unfold bind at 1.
    destruct (read_file_cases (prompt_file o) st) as [(prompt & -> & _) | (e & -> & _)];
      [|discriminate].
    unfold bind at 1.
    destruct (Client.chat w (config o) prompt st) as [[r st'] ev'] eqn:Hchat.
    destruct r as [reply|e|c]; [|discriminate..].
    run_monad. simpl. intros [= <- <- <- <-].
    destruct (chat_exchanges _ _ _ _ _ _ _ Hchat) as [(_ & _ & e & He) | Hc']; [discriminate | exact Hc'].
Qed.

Lemma run_iteration_reports_completion_witness :
  substring_of completion_marker "all green <promise>COMPLETE</promise>".
Proof.
  apply (run_iteration_reports_completion
           (Sample.world (Sample.done_at 0)) (Sample.orchestrator "ollama")
           Sample.fresh
           {| disk := disk Sample.fresh; detected := Some (JStr "ollama"); calls := 1 |}
           "all green <promise>COMPLETE</promise>" true
           [EvChat "do the next task";
            EvErr (MsgOutput "all green <promise>COMPLETE</promise>")]).
  - vm_compute. reflexivity.
  - reflexivity.
Defined.

(** ** Further properties of the run *)

(** The trace of a run: the events of the startup, then those of the loop
    when the startup succeeds. *)
Lemma run_shape (w : World) (o : Orchestrator) (N : Z) (st : State) :
  let res := Ralph.exit_process (Ralph.run w o N) st in
  exists pre ev st2,
    res.2 = pre ++ ev /\ before_loop pre /\ calls st2 = calls st /\
    ((ev = [] /\ res.1.1 = 1%Z /\ res.1.2 = st2) \/
     loop_run w o N (py_range 1 (N + 1)) st2 (res.1.1, res.1.2, ev)).
Proof.
  cbv zeta.
  destruct (run_process w o N st)
    as [e st1 ev1 Hs | e st1 ev1 st2 noise Hs Hd | p st1 ev1 st2 noise code st3 ev Hs Hd Hloop];
    cbn [fst snd].
  - destruct (setup_quiet_events _ _ _ _ _ _ Hs) as (Hq & _ & Hc).
    exists (ev1 ++ [EvErr (MsgUncaught e)]), [], st1. rewrite app_nil_r.
    split; [reflexivity|]. split; [|auto].
    apply Forall_app_2; [apply quiet_before_loop, Hq | repeat constructor].
  - destruct (startup_quiet _ _ _ _ _ _ _ _ _ Hs Hd) as (Hq & _ & Hc).
    exists ((ev1 ++ noise) ++ [EvErr (MsgStartupError e)]), [], st2. rewrite app_nil_r.
    split; [reflexivity|]. split; [|auto].
    apply Forall_app_2; [apply quiet_before_loop, Hq | repeat constructor].
  - destruct (startup_quiet _ _ _ _ _ _ _ _ _ Hs Hd) as (Hq & _ & Hc).
    exists ((ev1 ++ noise) ++ [EvOut (MsgStarting N p (model (config o)))]), ev, st2.
    split; [apply (app_assoc (ev1 ++ noise) [_] ev)|]. split; [|auto].
    apply Forall_app_2; [apply quiet_before_loop, Hq | repeat constructor].
Qed.

Lemma loop_run_completed_on_marker (w : World) (o : Orchestrator) (N : Z)
    (indices : list Z) (st : State) (res : Z * State * list event) :
  loop_run w o N indices st res ->
  res.1.1 = 0%Z ->
  exists out, In (EvErr (MsgOutput out)) res.2 /\ substring_of completion_marker out.
Proof.
  induction 1 as [st | i rest st out0 st1 body Hrun
                 | i rest st out0 st1 body code st2 ev Hrun Hloop IH
                 | i rest st e st1 body code st2 ev Hrun Hloop IH];
    cbn [fst snd] in *; intros Hcode.
  - discriminate.
  - apply run_iteration_returns in Hrun as [Hyes Hbody].
    symmetry in Hyes. apply contains_true_iff in Hyes.
    exists out0. split; [|exact Hyes].
    inversion Hbody; subst. rewrite completed_events_shape. apply in_elt.
  - destruct (IH Hcode) as (out & Hin & Hsub). exists out.
    split; [apply in_or_app; auto | exact Hsub].
  - destruct (IH Hcode) as (out & Hin & Hsub). exists out.
    split; [apply in_or_app; auto | exact Hsub].
Qed.

Lemma run_code_and_marker (w : World) (o : Orchestrator) (N : Z)
    (st : State) :
  let res := Ralph.exit_process (Ralph.run w o N) st in
  (res.1.1 = 0 \/ res.1.1 = 1)%Z /\
  (res.1.1 = 0%Z <->
   exists out, In (EvErr (MsgOutput out)) res.2 /\ substring_of completion_marker out).
Proof.
  cbv zeta.
  destruct (run_shape w o N st) as (pre & ev & st2 & Hev & Hpre & _ & Hcases).
  rewrite Hev.
  assert (forall out, ~ In (EvErr (MsgOutput out)) pre) as Hnone.
  { intros out Hin. unfold before_loop in Hpre. rewrite Forall_forall in Hpre.
    specialize (Hpre _ (proj2 (list_elem_of_In _ _) Hin)). discriminate. }
  destruct Hcases as [(-> & Hcode & _) | Hloop].
  - split; [auto|]. rewrite Hcode, app_nil_r. split; [discriminate|].
    intros (out & Hin & _). destruct (Hnone _ Hin).
  - split; [apply (loop_run_code _ _ _ _ _ _ Hloop)|]. split.
    + intros Hcode.
      destruct (loop_run_completed_on_marker _ _ _ _ _ _ Hloop Hcode) as (out & Hin & Hsub).
      exists out. split; [apply in_or_app; auto | exact Hsub].
    + intros (out & Hin & Hsub).
      apply in_app_or in Hin as [Hin | Hin]; [destruct (Hnone _ Hin)|].
      apply in_split in Hin as (t1 & t2 & Hsplit).
      apply (loop_run_marker _ _ _ _ _ _ Hloop t1 out t2 Hsplit Hsub).
Qed.


(** X7. The exit code of a run is 0 or 1, and it is 0 exactly when some
    output of the run carried the completion marker: a run never reports
    completion on its own, and never misses a marker. *)
Theorem exit_code_reflects_the_marker (w : World) (o : Orchestrator) (N : Z)
    (st : State) :
  let res := Ralph.exit_process (Ralph.run w o N) st in
  (res.1.1 = 0 \/ res.1.1 = 1)%Z /\
  (res.1.1 = 0%Z <->
   exists out, In (EvErr (MsgOutput out)) res.2 /\ substring_of completion_marker out).
Proof. apply run_code_and_marker. Qed.

Lemma loop_run_sleeps (w : World) (o : Orchestrator) (N : Z)
    (indices : list Z) (st : State) (res : Z * State * list event) :
  loop_run w o N indices st res ->
  (count is_sleep res.2 + (if (res.1.1 =? 0)%Z then 1 else 0))%nat = count is_banner res.2.
Proof.
  induction 1 as [st | i rest st out0 st1 body Hrun
                 | i rest st out0 st1 body code st2 ev Hrun Hloop IH
                 | i rest st e st1 body code st2 ev Hrun Hloop IH];
    cbn [fst snd] in *.
  - reflexivity.
  - apply run_iteration_returns in Hrun as [_ Hbody].
    destruct (body_counts _ _ Hbody) as (Hb & Hs & _). unfold completed_events.
    rewrite !count_cons, !count_app, !count_cons, !count_nil, Hb, Hs. reflexivity.
  - apply run_iteration_returns in Hrun as [_ Hbody].
    destruct (body_counts _ _ Hbody) as (Hb & Hs & _). unfold continued_events.
    rewrite !count_app, !count_cons, !count_app, !count_cons, !count_nil, Hb, Hs.
    simpl. simpl in IH. lia.
  - apply run_iteration_raises in Hrun as Hbody.
    destruct (body_counts _ _ Hbody) as (Hb & Hs & _). unfold failed_events.
    rewrite !count_app, !count_cons, !count_app, !count_cons, !count_nil, Hb, Hs.
    simpl. simpl in IH. lia.
Qed.

(** X8. In every run, whatever its outcome, a 2-second sleep follows each
    iteration except a completing one: the sleeps number one less than the
    iterations when the run completes, and as many otherwise. *)
Theorem one_sleep_per_unfinished_iteration (w : World) (o : Orchestrator) (N : Z)
    (st : State) :
  let res := Ralph.exit_process (Ralph.run w o N) st in
  (count is_sleep res.2 + (if (res.1.1 =? 0)%Z then 1 else 0))%nat = count is_banner res.2.
Proof.
  cbv zeta.
  destruct (run_shape w o N st) as (pre & ev & st2 & Hev & Hpre & _ & Hcases).
  rewrite Hev, !count_app.
  rewrite (before_loop_count is_banner _ banner_loop_event Hpre),
    (before_loop_count is_sleep _ sleep_loop_event Hpre).
  destruct Hcases as [(-> & -> & _) | Hloop]; [reflexivity|].
  apply (loop_run_sleeps _ _ _ _ _ _ Hloop).
Qed.

Lemma take_seq_le (a n k : nat) : (k <= n)%nat -> take k (seq a n) = seq a k.
Proof.
  revert a n. induction k as [|k IH]; intros a n Hk; [reflexivity|].
  destruct n as [|n]; [lia|]. simpl. f_equal. apply IH. lia.
Qed.

Lemma take_py_range (lo hi : Z) (k : nat) :
  (k <= Z.to_nat (hi - lo))%nat ->
  take k (py_range lo hi) = py_range lo (lo + Z.of_nat k).
Proof.
  intros Hk. unfold py_range.
  replace (Z.to_nat (lo + Z.of_nat k - lo)) with k by lia.
  rewrite <- (take_seq_le 0 (Z.to_nat (hi - lo)) k Hk).
  symmetry. apply (fmap_take (fun j => (lo + Z.of_nat j)%Z)).
Qed.

Lemma filter_banner_none (ev : list event) :
  Forall (fun e => ~ is_banner e = true) ev ->
  filter (fun e => is_banner e = true) ev = [].
Proof.
  induction 1 as [|e ev He _ IH]; [reflexivity|].
  rewrite filter_cons, decide_False by exact He. exact IH.
Qed.

Lemma loop_run_banners (w : World) (o : Orchestrator) (N : Z)
    (indices : list Z) (st : State) (res : Z * State * list event) :
  loop_run w o N indices st res ->
  filter (fun e => is_banner e = true) res.2 =
    map (banner N) (take (count is_banner res.2) indices).
Proof.
  assert (forall i tail, filter (fun e => is_banner e = true) (banner N i :: tail) =
                         banner N i :: filter (fun e => is_banner e = true) tail) as Hhead.
  { intros i tail. rewrite filter_cons, decide_True by reflexivity. reflexivity. }
  induction 1 as [st | i rest st out0 st1 body Hrun
                 | i rest st out0 st1 body code st2 ev Hrun Hloop IH
                 | i rest st e st1 body code st2 ev Hrun Hloop IH];
    cbn [fst snd] in *.
  - reflexivity.
  - apply run_iteration_returns in Hrun as [_ Hbody].
    destruct (body_counts _ _ Hbody) as (Hb & _).
    unfold completed_events.
    rewrite Hhead, count_cons, count_app, Hb, filter_app,
      (filter_banner_none body (body_without_banner _ _ Hbody)). reflexivity.
  - apply run_iteration_returns in Hrun as [_ Hbody].
    destruct (body_counts _ _ Hbody) as (Hb & _).
    unfold continued_events.
    change ((banner N i :: body ++ [EvOut (MsgContinuing i); EvSleep 2]) ++ ev)
      with (banner N i :: (body ++ [EvOut (MsgContinuing i); EvSleep 2]) ++ ev).
    rewrite Hhead, count_cons, !count_app, Hb, !filter_app,
      (filter_banner_none body (body_without_banner _ _ Hbody)), IH. reflexivity.
  - apply run_iteration_raises in Hrun as Hbody.
    destruct (body_counts _ _ Hbody) as (Hb & _).
    unfold failed_events.
    change ((banner N i :: body ++ [EvErr (MsgIterationError i e); EvSleep 2]) ++ ev)
      with (banner N i :: (body ++ [EvErr (MsgIterationError i e); EvSleep 2]) ++ ev).
    rewrite Hhead, count_cons, !count_app, Hb, !filter_app,
      (filter_banner_none body (body_without_banner _ _ Hbody)), IH. reflexivity.
Qed.

(** X9. The iterations of a run are numbered from 1, in order and without
    a gap: the banners printed are those of 1, 2, ..., k, for the number k
    of iterations that ran, which is at most [N]. *)
Theorem iterations_are_numbered_in_order (w : World) (o : Orchestrator) (N : Z)
    (st : State) :
  let res := Ralph.exit_process (Ralph.run w o N) st in
  let k := count is_banner res.2 in
  filter (fun e => is_banner e = true) res.2 =
    map (banner N) (py_range 1 (1 + Z.of_nat k)) /\
  (k <= Z.to_nat N)%nat.
Proof.
  cbv zeta.
  destruct (run_shape w o N st) as (pre & ev & st2 & Hev & Hpre & _ & Hcases).
  rewrite Hev, count_app, filter_app.
  rewrite (before_loop_count is_banner _ banner_loop_event Hpre).
  rewrite (filter_banner_none pre)
    by (apply (before_loop_without (fun x => is_banner x = true));
        [apply banner_loop_event | exact Hpre]).
  simpl.
  destruct Hcases as [(-> & _) | Hloop]; [split; [reflexivity | unfold count; simpl; lia]|].
  pose proof (loop_run_banners _ _ _ _ _ _ Hloop) as Hb. cbn [snd] in Hb.
  assert (count is_banner ev <= Z.to_nat N)%nat as Hk.
  { apply (f_equal length) in Hb. rewrite length_map, length_take, py_range_length in Hb.
    replace (N + 1 - 1)%Z with N in Hb by lia. unfold count in *. lia. }
  split; [|exact Hk]. rewrite Hb. f_equal. apply take_py_range.
  replace (N + 1 - 1)%Z with N by lia. exact Hk.
Qed.

(** X10. With [max_iterations] at 0 or below, the loop body never runs: no
    banner, no chat call, no sleep, no exchange with a backend, and the
    exit code is 1. *)
Theorem no_iteration_without_budget (w : World) (o : Orchestrator) (N : Z)
    (st : State) :
  (N <= 0)%Z ->
  let res := Ralph.exit_process (Ralph.run w o N) st in
  res.1.1 = 1%Z /\ count is_banner res.2 = 0%nat /\ count is_chat res.2 = 0%nat /\
  count is_sleep res.2 = 0%nat /\ calls res.1.2 = calls st.
Proof.
  intros HN. cbv zeta.
  destruct (run_shape w o N st) as (pre & ev & st2 & Hev & Hpre & Hcalls & Hcases).
  rewrite Hev, !count_app.
  rewrite (before_loop_count is_banner _ banner_loop_event Hpre),
    (before_loop_count is_chat _ chat_loop_event Hpre),
    (before_loop_count is_sleep _ sleep_loop_event Hpre).
  destruct Hcases as [(-> & -> & ->) | Hloop]; [auto|].
  assert (py_range 1 (N + 1) = []) as Hempty.
  { unfold py_range. replace (Z.to_nat (N + 1 - 1)) with 0%nat by lia. reflexivity. }
  rewrite Hempty in Hloop. inversion Hloop; subst. auto.
Qed.

Lemma no_iteration_without_budget_witness :
  (Ralph.exit_process
     (Ralph.run (Sample.world (Sample.done_at 0)) (Sample.orchestrator "ollama") 0)
     Sample.fresh).1.1 = 1%Z.
Proof.
  apply (no_iteration_without_budget (Sample.world (Sample.done_at 0))
           (Sample.orchestrator "ollama") 0 Sample.fresh).
  lia.
Defined.

Lemma run_iteration_exchanges (w : World) (o : Orchestrator) (st st1 : State)
    (r : outcome (string * bool)) (body : list event) :
  Ralph.run_iteration w o st = (r, st1, body) ->
  (calls st <= calls st1 <= calls st + count is_chat body)%nat /\
  (calls st1 = calls st -> disk st1 = disk st).
Proof.
  unfold Ralph.run_iteration. unfold bind at 1.
  destruct (read_file_cases (prompt_file o) st) as [(prompt & -> & _) | (e & -> & _)];
    [|intros [= <- <- <-]; split; [unfold count; simpl; lia | reflexivity]].
  unfold bind at 1.
  destruct (chat_spec w (config o) prompt st) as (r0 & st0 & noise & Hchat & Hn & _).
  rewrite Hchat.
  assert ((calls st <= calls st0 <= S (calls st))%nat /\
          (calls st0 = calls st -> disk st0 = disk st)) as [Hc Hd].
  { destruct (chat_exchanges _ _ _ _ _ _ _ Hchat) as [(Hc & Hd & _) | Hc];
      split; auto; lia. }
  destruct r0 as [out|e|c]; run_monad; simpl; intros [= <- <- <-];
    rewrite ?app_nil_r, ?count_cons, ?count_app; simpl; split; auto; lia.
Qed.

Lemma loop_run_exchanges (w : World) (o : Orchestrator) (N : Z)
    (indices : list Z) (st : State) (res : Z * State * list event) :
  loop_run w o N indices st res ->
  (calls st <= calls res.1.2 <= calls st + count is_chat res.2)%nat /\
  (calls res.1.2 = calls st -> disk res.1.2 = disk st).
Proof.
  induction 1 as [st | i rest st out0 st1 body Hrun
                 | i rest st out0 st1 body code st2 ev Hrun Hloop IH
                 | i rest st e st1 body code st2 ev Hrun Hloop IH];
    cbn [fst snd] in *.
  - split; [unfold count; simpl; lia | reflexivity].
  - destruct (run_iteration_exchanges _ _ _ _ _ _ Hrun) as [Hc Hd].
    unfold completed_events. rewrite count_cons, count_app. simpl. split; [lia | exact Hd].
  - destruct (run_iteration_exchanges _ _ _ _ _ _ Hrun) as [Hc Hd]. destruct IH as [Hc2 Hd2].
    unfold continued_events. rewrite count_app, count_cons, count_app. simpl.
    split; [lia|]. intros Heq. rewrite Hd2, Hd by lia. reflexivity.
  - destruct (run_iteration_exchanges _ _ _ _ _ _ Hrun) as [Hc Hd]. destruct IH as [Hc2 Hd2].
    unfold failed_events. rewrite count_app, count_cons, count_app. simpl.
    split; [lia|]. intros Heq. rewrite Hd2, Hd by lia. reflexivity.
Qed.

(** X11. The loop writes no file of its own and reaches the backends
    through [chat] alone: the exchanges made during the loop are at most
    the chat calls, and if none was made the files are those the loop
    started from. *)
Theorem loop_changes_files_through_exchanges_only (w : World) (o : Orchestrator)
    (N : Z) (indices : list Z) (st : State) :
  let res := Ralph.main_loop w o N indices st in
  (calls st <= calls res.1.2 <= calls st + count is_chat res.2)%nat /\
  (calls res.1.2 = calls st -> disk res.1.2 = disk st).
Proof.
  cbv zeta.
  destruct (main_loop_run w o N indices st) as (code & st' & ev & -> & Hloop).
  apply (loop_run_exchanges _ _ _ _ _ _ Hloop).
Qed.

(** X1. A provider other than [auto] is taken as it is: no probe is
    consulted, whatever the environment offers; nothing is printed and no
    file changes. So a run pinned to a provider always passes the detection
    and announces that provider, as soon as its setup completes. *)
Theorem pinned_provider_is_not_probed (w : World) (o : Orchestrator) (N : Z)
    (st : State) :
  Json.eq_str (provider (config o)) "auto" = false ->
  detected st = None ->
  Client.detect_provider w (config o) st =
    (Ret (provider (config o)),
     {| disk := disk st; detected := Some (provider (config o)); calls := calls st |}, []) /\
  (forall st1 ev1,
     Ralph.setup w o st = (Ret tt, st1, ev1) ->
     exists ev,
       (Ralph.exit_process (Ralph.run w o N) st).2 =
         ev1 ++ EvOut (MsgStarting N (provider (config o)) (model (config o))) :: ev).
Proof.
  intros Hpin Hfresh. split.
  - unfold Client.detect_provider, Client.set_detected, Client.memoised.
    run_monad. rewrite Hfresh, Hpin. reflexivity.
  - intros st1 ev1 Hs.
    destruct (detect_provider_pinned w (config o) st1 Hpin) as (st' & Hdet & _).
    { left. apply memoised_fresh. rewrite (setup_keeps_client _ _ _ _ _ _ Hs). exact Hfresh. }
    destruct (run_process w o N st)
      as [e s1 e1 Hs' | e s1 e1 s2 noise Hs' Hd | p s1 e1 s2 noise code s3 ev Hs' Hd Hloop];
      rewrite Hs in Hs'; try discriminate; injection Hs' as <- <-;
      rewrite Hdet in Hd; try discriminate; injection Hd as <- <- <-.
    cbn [snd]. rewrite app_nil_r. eauto.
Qed.

(** A run pinned to [claude], in an environment without a key. *)
Lemma pinned_provider_is_not_probed_witness :
  (Client.detect_provider (Sample.world Sample.never_done) (Sample.config_of "claude")
     Sample.fresh).1.1 = Ret (JStr "claude").
Proof.
  exact (f_equal (fun r => r.1.1)
           (proj1 (pinned_provider_is_not_probed (Sample.world Sample.never_done)
                     (Sample.orchestrator "claude") 1 Sample.fresh eq_refl eq_refl))).
Defined.

(** ** Further properties of the setup *)

Section SetupFiles.

Variable w : World.
Variable dir : string.
Variable cfg : LLMConfig.

Let o := Ralph.make dir cfg.

Lemma setup_input_apart (path : string) :
  setup_input dir path ->
  path <> progress_file o /\ path <> last_branch_file o /\
  forall last name, path <> path_join (Ralph.archive_folder w o last) name.
Proof.
  intros [-> | [-> | ->]]; repeat split;
    try (intros H; apply path_join_inj in H; [discriminate | reflexivity..]);
    intros last name H; symmetry in H; revert H;
    apply archived_path_not_top; reflexivity.
Qed.

Lemma archive_keeps_inputs (st : State) (path : string) :
  setup_input dir path ->
  files (disk (Ralph.archive_previous_run w o st).1.2) !! path = files (disk st) !! path.
Proof.
  intros Hin. destruct (setup_input_apart path Hin) as (Hp & _ & Ha).
  destruct (archival_due_dec w o st) as [[last Hdue] | Hnot].
  - rewrite (archive_when_due w o st last Hdue). cbn [fst snd archived_state disk files].
    apply (archived_files_lookup w dir cfg last (files (disk st))); auto.
  - destruct (archive_when_not_due w o st Hnot) as (r & -> & _). reflexivity.
Qed.

Lemma track_then_ensure_keeps (st : State) (path : string) :
  path <> progress_file o -> path <> last_branch_file o ->
  files (disk ((Ralph.track_current_branch w o;;
                do has_progress <- path_exists (progress_file o);
                if has_progress then ret () else Ralph.init_progress_file w o) st).1.2)
    !! path = files (disk st) !! path.
Proof.
  intros Hp Hl.
  destruct (track_spec w o st) as (r & st1 & Htrack & Hr & _ & _ & Hfiles).
  specialize (Hfiles path Hl).
  unfold Ralph.init_progress_file. run_monad. rewrite Htrack.
  destruct Hr as [-> | [e ->]]; [|exact Hfiles].
  destruct (bool_decide _); cbn [fst snd disk files]; [exact Hfiles|].
  rewrite lookup_insert_ne by congruence. exact Hfiles.
Qed.

Lemma setup_keeps_inputs (st : State) (path : string) :
  setup_input dir path ->
  files (disk (Ralph.setup w o st).1.2) !! path = files (disk st) !! path.
Proof.
  intros Hin. destruct (setup_input_apart path Hin) as (Hp & Hl & _).
  rewrite setup_unfold. pose proof (archive_keeps_inputs st path Hin) as Harch.
  destruct (Ralph.archive_previous_run w o st) as [[[[]|e|c] st0] ev0];
    cbn [fst snd] in *; [|exact Harch..].
  rewrite track_then_ensure_keeps by assumption. exact Harch.
Qed.

End SetupFiles.

(** ** Exhaustion: every iteration runs *)

Lemma iteration_chats (w : World) (o : Orchestrator) (N i : Z) (st : State) :
  (count is_chat (Ralph.iteration w o N i st).2 <= 1)%nat.
Proof.
  rewrite iteration_unfold.
  destruct (run_iteration_spec w o st) as (r & st1 & body & -> & Hr).
  assert (exists oo, body_events body oo) as [oo Hbody].
  { destruct r as [[out complete]|e|c]; [destruct Hr; eauto | eauto | destruct Hr]. }
  destruct (body_counts _ _ Hbody) as (_ & _ & Hc).
  destruct r as [[out []]|e|c]; cbn [snd];
    unfold completed_events, continued_events, failed_events, banner;
    rewrite ?count_cons, ?count_app, ?count_cons, ?count_nil; simpl; lia.
Qed.




Lemma bind_unfold {A B} (m : M A) (k : A -> M B) (st : State) :
  bind m k st =
  match m st with
  | (Ret a, st1, ev1) => ((k a st1).1.1, (k a st1).1.2, ev1 ++ (k a st1).2)
  | (Raise e, st1, ev1) => (Raise e, st1, ev1)
  | (SysExit c, st1, ev1) => (SysExit c, st1, ev1)
  end.
Proof.
  unfold bind. destruct (m st) as [[[a|e|c] st1] ev1]; try reflexivity.
  destruct (k a st1) as [[r st2] ev2]. reflexivity.
Qed.

Section Track.

Variable w : World.
Variable o : Orchestrator.

(** What [track_current_branch] does, by what [prd.json] holds. *)
Lemma track_outcome (st : State) :
  exists r st1,
    Ralph.track_current_branch w o st = (r, st1, []) /\
    match files (disk st) !! prd_file o with
    | None => r = Ret tt /\ st1 = st
    | Some _ =>
        match task_identity w o st with
        | None => (exists e, r = Raise e) /\ st1 = st
        | Some current =>
            if Json.truthy current then
              match current with
              | JStr b =>
                  r = Ret tt /\
                  st1 = set_files (<[last_branch_file o := b]>
                                     (<[last_branch_file o := ""]> (files (disk st)))) st
              | _ =>
                  r = Raise TypeError /\
                  st1 = set_files (<[last_branch_file o := ""]> (files (disk st))) st
              end
            else r = Ret tt /\ st1 = st
        end
    end.
Proof.
  unfold Ralph.track_current_branch, Ralph.read_branch_name, task_identity.
  run_monad. simpl. rewrite is_Some_bool_decide.
  destruct (files (disk st) !! prd_file o) as [text|] eqn:Hprd; simpl; [|eauto].
  rewrite Hprd.
  destruct (json_loads w text) as [prd|]; simpl; [|eauto 6].
  destruct (Json.get prd "branchName" (JStr "")) as [current|]; simpl; [|eauto 6].
  destruct (Json.truthy current) eqn:Ht; simpl; [|eauto].
  destruct current; simpl; eauto.
Qed.

(** The last step of the setup. *)
Lemma ensure_progress_outcome (st : State) :
  (do has_progress <- path_exists (progress_file o);
   if has_progress then ret () else Ralph.init_progress_file w o) st =
  (Ret tt,
   match files (disk st) !! progress_file o with
   | Some _ => st
   | None => set_files (<[progress_file o := Ralph.progress_header w]> (files (disk st))) st
   end, []).
Proof.
  unfold Ralph.init_progress_file. run_monad. simpl. rewrite is_Some_bool_decide.
  destruct (files (disk st) !! progress_file o); reflexivity.
Qed.

(** A malformed [prd.json] stops the setup, before anything is written. *)
Lemma setup_on_malformed_prd (st : State) (text : string) :
  files (disk st) !! prd_file o = Some text ->
  json_loads w text = None ->
  Ralph.setup w o st = (Raise JSONDecodeError, st, []).
Proof.
  intros Hprd Hbad.
  unfold Ralph.setup, Ralph.archive_previous_run, Ralph.track_current_branch,
    Ralph.read_branch_name.
  run_monad. simpl. rewrite !is_Some_bool_decide, Hprd.
  destruct (files (disk st) !! last_branch_file o) as [l|]; simpl;
    rewrite ?is_Some_bool_decide, ?Hprd; simpl; rewrite ?Hprd, Hbad; reflexivity.
Qed.

End Track.

(** X12. A [prd.json] that is not JSON ends the run at once: the process
    exits with status 1 on the uncaught decoding error, before the
    detection, with no file written and nothing else printed. *)
Theorem malformed_prd_aborts_the_run (w : World) (o : Orchestrator) (N : Z)
    (st : State) (text : string) :
  files (disk st) !! prd_file o = Some text ->
  json_loads w text = None ->
  Ralph.exit_process (Ralph.run w o N) st = (1%Z, st, [EvErr (MsgUncaught JSONDecodeError)]).
Proof.
  intros Hprd Hbad. unfold Ralph.exit_process, Ralph.run.
  rewrite bind_unfold, (setup_on_malformed_prd w o st text Hprd Hbad). reflexivity.
Qed.

Lemma malformed_prd_aborts_the_run_witness :
  Ralph.exit_process
    (Ralph.run (Sample.world Sample.never_done) (Sample.orchestrator "ollama") 3)
    (Sample.state_of [("/work/prompt.md", "do the next task");
                      ("/work/prd.json", "{ branchName ")]) =
  (1%Z,
   Sample.state_of [("/work/prompt.md", "do the next task");
                    ("/work/prd.json", "{ branchName ")],
   [EvErr (MsgUncaught JSONDecodeError)]).
Proof.
  apply (malformed_prd_aborts_the_run (Sample.world Sample.never_done)
           (Sample.orchestrator "ollama") 3 _ "{ branchName "); vm_compute; reflexivity.
Defined.

Section SetupResult.

Variable w : World.
Variable o : Orchestrator.

Hypothesis Hpaths : last_branch_file o <> progress_file o.

Hypothesis Harchive :
  forall st, files (disk (Ralph.archive_previous_run w o st).1.2) !! prd_file o =
             files (disk st) !! prd_file o.

Lemma ensure_progress_exists (st : State) :
  is_Some (files (disk
    match files (disk st) !! progress_file o with
    | Some _ => st
    | None => set_files (<[progress_file o := Ralph.progress_header w]> (files (disk st))) st
    end) !! progress_file o).
Proof.
  destruct (files (disk st) !! progress_file o) eqn:E; [rewrite E; eauto|].
  cbn [set_files disk files]. rewrite lookup_insert_eq. eauto.
Qed.

Lemma ensure_progress_keeps (st : State) (path : string) :
  path <> progress_file o ->
  files (disk
    match files (disk st) !! progress_file o with
    | Some _ => st
    | None => set_files (<[progress_file o := Ralph.progress_header w]> (files (disk st))) st
    end) !! path = files (disk st) !! path.
Proof.
  intros Hp. destruct (files (disk st) !! progress_file o); [reflexivity|].
  cbn [set_files disk files]. apply lookup_insert_ne. congruence.
Qed.

(** What a setup that returns has established. *)
Lemma setup_establishes (st st1 : State) (ev : list event) :
  Ralph.setup w o st = (Ret tt, st1, ev) ->
  is_Some (files (disk st1) !! progress_file o) /\
  (files (disk st) !! prd_file o = None \/
   exists current,
     task_identity w o st = Some current /\
     (Json.truthy current = false \/
      exists b, current = JStr b /\ files (disk st1) !! last_branch_file o = Some b)).
Proof.
  rewrite setup_unfold. pose proof (Harchive st) as Hprd.
  assert (task_identity w o (Ralph.archive_previous_run w o st).1.2 = task_identity w o st)
    as Hid by (unfold task_identity; rewrite Hprd; reflexivity).
  destruct (Ralph.archive_previous_run w o st) as [[[[]|e|c] st0] ev0];
    cbn [fst snd] in *; [|discriminate..].
  rewrite bind_unfold.
  destruct (track_outcome w o st0) as (r & st2 & -> & Hout).
  rewrite Hprd, Hid in Hout.
  destruct (files (disk st) !! prd_file o) as [text|] eqn:Hfile.
  - destruct (task_identity w o st) as [current|].
    + destruct (Json.truthy current) eqn:Ht.
      * destruct current as [| | |b| |]; destruct Hout as [-> Hst2]; try discriminate.
        rewrite ensure_progress_outcome. cbn [fst snd]. intros [= <- <-].
        split; [apply ensure_progress_exists|].
        right. exists (JStr b). split; [reflexivity|]. right. exists b.
        split; [reflexivity|]. rewrite ensure_progress_keeps by exact Hpaths.
        rewrite Hst2. cbn [set_files disk files]. apply lookup_insert_eq.
      * destruct Hout as [-> Hst2].
        rewrite ensure_progress_outcome. cbn [fst snd]. intros [= <- <-].
        split; [apply ensure_progress_exists | eauto].
    + destruct Hout as [[e ->] Hst2]. discriminate.
  - destruct Hout as [-> Hst2].
    rewrite ensure_progress_outcome. cbn [fst snd]. intros [= <- <-].
    split; [apply ensure_progress_exists | auto].
Qed.

End SetupResult.

Section SetupAgain.

Variable w : World.
Variable o : Orchestrator.

Hypothesis Hpaths : last_branch_file o <> progress_file o.

Lemma archive_returns_when_not_due (st : State) :
  (forall last, ~ archival_due w o st last) ->
  files (disk st) !! prd_file o = None \/
  (is_Some (task_identity w o st) /\
   (files (disk st) !! last_branch_file o = None \/ is_Some (last_identity o st))) ->
  Ralph.archive_previous_run w o st = (Ret tt, st, []).
Proof.
  intros Hnot Hread.
  destruct (archive_when_not_due w o st Hnot) as (r & Hrun & [-> | [e ->]]); [exact Hrun|].
  exfalso. revert Hrun.
  unfold Ralph.archive_previous_run, Ralph.read_branch_name, task_identity, last_identity in *.
  run_monad. simpl. rewrite !is_Some_bool_decide.
  destruct Hread as [Hprd | [[current Hid] Hlast]].
  - rewrite Hprd. discriminate.
  - destruct (files (disk st) !! prd_file o) as [text|] eqn:Hprd; [|discriminate].
    destruct (files (disk st) !! last_branch_file o) as [l|] eqn:Hl; simpl; [|discriminate].
    rewrite Hprd. simpl.
    destruct (json_loads w text) as [prd|] eqn:Hload; [|discriminate]. simpl.
    rewrite Hid. simpl. rewrite Hl. simpl.
    destruct Hlast as [? | [last Hlast]]; [discriminate|]. simpl in Hlast.
    destruct (PyStr.decode l) as [read|] eqn:Hdec; [|discriminate]. simpl.
    destruct (Ralph.branch_changed current (PyStr.strip read)) eqn:Hchg; [|discriminate].
    intros _. apply (Hnot (PyStr.strip read)).
    apply branch_changed_true in Hchg. exists current.
    unfold task_identity, last_identity. rewrite Hprd, Hload, Hl. simpl.
    rewrite Hdec. simpl. tauto.
Qed.

(** An archival that returns has read [.last-branch], if there is one. *)
Lemma archive_returned_read (st st0 : State) (ev0 : list event) :
  Ralph.archive_previous_run w o st = (Ret tt, st0, ev0) ->
  is_Some (files (disk st) !! prd_file o) ->
  files (disk st) !! last_branch_file o = None \/ is_Some (last_identity o st).
Proof.
  intros Hrun [text Hprd].
  destruct (files (disk st) !! last_branch_file o) as [l|] eqn:Hl; [right | left; reflexivity].
  unfold last_identity. rewrite Hl. simpl.
  destruct (PyStr.decode l) as [read|] eqn:Hdec; [simpl; eauto|].
  exfalso. revert Hrun.
  unfold Ralph.archive_previous_run, Ralph.read_branch_name.
  run_monad. simpl. rewrite !is_Some_bool_decide, Hprd, Hl. simpl. rewrite Hprd. simpl.
  destruct (json_loads w text) as [prd|]; [|discriminate]. simpl.
  destruct (Json.get prd "branchName" (JStr "")) as [current|]; [|discriminate]. simpl.
  rewrite Hl, Hdec. discriminate.
Qed.

Lemma set_files_same (st : State) (f : gmap string string) :
  f = files (disk st) -> set_files f st = st.
Proof. intros ->. destruct st as [[f d] det c]. reflexivity. Qed.

(** A setup on a directory that a run has left in order does nothing. *)
Lemma setup_noop (st : State) :
  is_Some (files (disk st) !! progress_file o) ->
  (files (disk st) !! prd_file o = None \/
   exists current,
     task_identity w o st = Some current /\
     ((Json.truthy current = false /\
       (files (disk st) !! last_branch_file o = None \/ is_Some (last_identity o st))) \/
      exists b, current = JStr b /\ files (disk st) !! last_branch_file o = Some b /\
                last_identity o st = Some b)) ->
  Ralph.setup w o st = (Ret tt, st, []).
Proof.
  intros [p Hprog] Hcases.
  assert (forall last, ~ archival_due w o st last) as Hnot.
  { intros last (c & Hc & Hl & Ht & Hne & Hdiff).
    destruct Hcases as [Hprd | (current & Hid & [[Hfalse _] | (b & -> & Hlast & Hback)])].
    - unfold task_identity in Hc. rewrite Hprd in Hc. discriminate.
    - congruence.
    - congruence. }
  rewrite setup_unfold, archive_returns_when_not_due; [|exact Hnot|].
  2:{ destruct Hcases as [Hprd | (current & Hid & [[_ Hl] | (b & _ & _ & Hback)])];
        [left; exact Hprd | right; rewrite Hid; eauto..]. }
  rewrite bind_unfold.
  destruct (track_outcome w o st) as (r & st2 & -> & Hout).
  assert (r = Ret tt /\ st2 = st) as [-> ->].
  { destruct Hcases as [Hprd | (current & Hid & Hcur)].
    - rewrite Hprd in Hout. exact Hout.
    - assert (is_Some (files (disk st) !! prd_file o)) as [text Hprd].
      { unfold task_identity in Hid. destruct (files (disk st) !! prd_file o); [eauto|discriminate]. }
      rewrite Hprd, Hid in Hout.
      destruct Hcur as [[Hfalse _] | (b & -> & Hlast & Hback)].
      + rewrite Hfalse in Hout. exact Hout.
      + destruct (Json.truthy (JStr b)); [|exact Hout].
        destruct Hout as [-> ->]. split; [reflexivity|].
        apply set_files_same. rewrite insert_insert_eq. apply insert_id. exact Hlast. }
  rewrite ensure_progress_outcome, Hprog. reflexivity.
Qed.

(** A setup that returns with no branch named has read [.last-branch],
    if there is one, and has left it as it was. *)
Lemma setup_returned_read (st st1 : State) (ev : list event) (current : json) :
  Ralph.setup w o st = (Ret tt, st1, ev) ->
  task_identity w o st = Some current ->
  Json.truthy current = false ->
  files (disk st1) !! last_branch_file o = None \/ is_Some (last_identity o st1).
Proof.
  intros Hs Hid Hfalse. revert Hs. rewrite setup_unfold.
  assert (forall last, ~ archival_due w o st last) as Hnot
    by (intros last (c & Hc & _ & Ht & _); congruence).
  destruct (archive_when_not_due w o st Hnot) as (r & Hrun & Hr).
  rewrite Hrun. destruct Hr as [-> | [e ->]]; [|discriminate].
  assert (is_Some (files (disk st) !! prd_file o)) as Hprd.
  { unfold task_identity in Hid. destruct (files (disk st) !! prd_file o); [eauto|discriminate]. }
  pose proof (archive_returned_read st st [] Hrun Hprd) as Hlast.
  rewrite bind_unfold.
  destruct (track_outcome w o st) as (r & st2 & -> & Hout).
  destruct Hprd as [text Hprd]. rewrite Hprd, Hid, Hfalse in Hout. destruct Hout as [-> ->].
  rewrite ensure_progress_outcome. cbn [fst snd]. intros [= <- _].
  assert (files (disk
            match files (disk st) !! progress_file o with
            | Some _ => st
            | None => set_files (<[progress_file o := Ralph.progress_header w]>
                                   (files (disk st))) st
            end) !! last_branch_file o = files (disk st) !! last_branch_file o) as Hsame.
  { destruct (files (disk st) !! progress_file o); [reflexivity|].
    cbn [set_files disk files]. apply lookup_insert_ne. congruence. }
  unfold last_identity in *. rewrite Hsame. exact Hlast.
Qed.

End SetupAgain.

(** ** What the setup leaves behind *)

Lemma archive_keeps_prd (w : World) (dir : string) (cfg : LLMConfig) (st : State) :
  files (disk (Ralph.archive_previous_run w (Ralph.make dir cfg) st).1.2)
    !! prd_file (Ralph.make dir cfg) =
  files (disk st) !! prd_file (Ralph.make dir cfg).
Proof. apply archive_keeps_inputs. left. reflexivity. Qed.

(** X13. The setup of a run never writes to the files it is given: the
    task descriptor [prd.json], the prompt [prompt.md] and [config.json]
    hold after the setup what they held before, whether the setup archives,
    returns or fails. *)
Theorem setup_leaves_the_inputs_untouched (w : World) (dir : string)
    (cfg : LLMConfig) (st : State) :
  let o := Ralph.make dir cfg in
  let st1 := (Ralph.setup w o st).1.2 in
  files (disk st1) !! prd_file o = files (disk st) !! prd_file o /\
  files (disk st1) !! prompt_file o = files (disk st) !! prompt_file o /\
  files (disk st1) !! path_join dir "config.json" =
    files (disk st) !! path_join dir "config.json".
Proof.
  cbv zeta. repeat split; apply setup_keeps_inputs; unfold setup_input; auto.
Qed.

(** X14. A setup that returns has prepared the directory: the progress log
    exists, and when [prd.json] names a branch, [.last-branch] holds
    exactly that name; otherwise [prd.json] is absent or names no branch. *)
Theorem setup_prepares_the_directory (w : World) (dir : string) (cfg : LLMConfig)
    (st st1 : State) (ev : list event) :
  let o := Ralph.make dir cfg in
  Ralph.setup w o st = (Ret tt, st1, ev) ->
  is_Some (files (disk st1) !! progress_file o) /\
  (files (disk st) !! prd_file o = None \/
   exists current,
     task_identity w o st = Some current /\
     (Json.truthy current = false \/
      exists b, current = JStr b /\ files (disk st1) !! last_branch_file o = Some b)).
Proof.
  cbv zeta. apply setup_establishes.
  - apply last_branch_not_progress.
  - apply archive_keeps_prd.
Qed.

Lemma setup_prepares_the_directory_witness :
  let w := Sample.world Sample.never_done in
  let o := Ralph.make "/work" (Sample.config_of "auto") in
  let st1 := (Ralph.setup w o Sample.nested).1.2 in
  is_Some (files (disk st1) !! progress_file o) /\
  (files (disk Sample.nested) !! prd_file o = None \/
   exists current,
     task_identity w o Sample.nested = Some current /\
     (Json.truthy current = false \/
      exists b, current = JStr b /\ files (disk st1) !! last_branch_file o = Some b)).
Proof.
  cbv zeta.
  apply (setup_prepares_the_directory (Sample.world Sample.never_done) "/work"
           (Sample.config_of "auto") Sample.nested _
           (Ralph.setup (Sample.world Sample.never_done)
              (Ralph.make "/work" (Sample.config_of "auto")) Sample.nested).2).
  vm_compute. reflexivity.
Defined.



(** ** A run without a prompt *)

Lemma run_iteration_without_prompt (w : World) (o : Orchestrator) (st : State) :
  files (disk st) !! prompt_file o = None ->
  Ralph.run_iteration w o st = (Raise (FileNotFoundError (prompt_file o)), st, []).
Proof.
  intros Hnone. unfold Ralph.run_iteration. unfold bind at 1. unfold read_file.
  rewrite Hnone. reflexivity.
Qed.

Lemma loop_run_without_prompt (w : World) (o : Orchestrator) (N : Z)
    (indices : list Z) (st : State) (res : Z * State * list event) :
  loop_run w o N indices st res ->
  files (disk st) !! prompt_file o = None ->
  res.1.1 = 1%Z /\ res.1.2 = st /\ count is_chat res.2 = 0%nat /\
  count is_banner res.2 = length indices /\
  forall i e, In (EvErr (MsgIterationError i e)) res.2 ->
              e = FileNotFoundError (prompt_file o).
Proof.
  induction 1 as [st | i rest st out0 st1 body Hrun
                 | i rest st out0 st1 body code st2 ev Hrun Hloop IH
                 | i rest st e st1 body code st2 ev Hrun Hloop IH];
    intros Hnone; cbn [fst snd] in *;
    try (rewrite (run_iteration_without_prompt _ _ _ Hnone) in Hrun; discriminate).
  - repeat split; try reflexivity. intros i e [H | []]. discriminate.
  - rewrite (run_iteration_without_prompt _ _ _ Hnone) in Hrun.
    injection Hrun as <- <- <-.
    destruct (IH Hnone) as (Hcode & Hst & Hchat & Hban & Herr).
    unfold failed_events. cbn [app].
    rewrite !count_cons. cbn [is_chat is_banner banner length].
    repeat split; auto; try lia.
    intros j e' [H | [H | [H | H]]]; try discriminate; [|eauto].
    injection H as _ <-. reflexivity.
Qed.

Lemma setup_event_not_chat (e : event) : is_setup_event e = true -> is_chat e = false.
Proof. destruct e as [[]|[]| |]; simpl; congruence. Qed.

(** X16. Without a [prompt.md] the run never reaches a backend: whatever
    the provider and the budget, no chat call and no exchange is made, the
    exit code is 1, and every iteration error reported is the missing
    prompt file. *)
Theorem missing_prompt_never_reaches_a_backend (w : World) (dir : string)
    (cfg : LLMConfig) (N : Z) (st : State) :
  let o := Ralph.make dir cfg in
  files (disk st) !! prompt_file o = None ->
  let res := Ralph.exit_process (Ralph.run w o N) st in
  res.1.1 = 1%Z /\ count is_chat res.2 = 0%nat /\ calls res.1.2 = calls st /\
  files (disk res.1.2) !! prompt_file o = None /\
  forall i e, In (EvErr (MsgIterationError i e)) res.2 ->
              e = FileNotFoundError (prompt_file o).
Proof.
  cbv zeta. intros Hnone. set (o := Ralph.make dir cfg) in *.
  assert (forall r1 st1 ev1, Ralph.setup w o st = (r1, st1, ev1) ->
            files (disk st1) !! prompt_file o = None) as Hkeep.
  { intros r1 st1 ev1 Hs.
    pose proof (setup_keeps_inputs w dir cfg st (prompt_file o)
                  (or_intror (or_introl eq_refl))) as Hk.
    fold o in Hk. rewrite Hs in Hk. cbn [fst snd] in Hk. congruence. }
  assert (forall ev i e, quiet ev -> ~ In (EvErr (MsgIterationError i e)) ev) as Hq.
  { intros ev i e Hquiet Hin. unfold quiet in Hquiet. rewrite Forall_forall in Hquiet.
    specialize (Hquiet _ (proj2 (list_elem_of_In _ _) Hin)). discriminate. }
  destruct (run_process w o N st)
    as [e st1 ev1 Hs | e st1 ev1 st2 noise Hs Hd | p st1 ev1 st2 noise code st3 ev Hs Hd Hloop];
    cbn [fst snd].
  - destruct (setup_quiet_events _ _ _ _ _ _ Hs) as (Hquiet & _ & Hc).
    rewrite count_app, (quiet_count is_chat ev1) by (exact setup_event_not_chat || assumption).
    repeat split; eauto.
    intros i e' Hin. apply in_app_or in Hin as [Hin | [Hin | []]];
      [destruct (Hq _ _ _ Hquiet Hin) | discriminate].
  - destruct (startup_quiet _ _ _ _ _ _ _ _ _ Hs Hd) as (Hquiet & _ & Hc).
    destruct (detect_provider_spec w (config o) st1) as (r & st' & ev' & Hd' & _ & _ & Hdisk & _).
    rewrite Hd in Hd'. injection Hd' as <- <- <-.
    rewrite count_app, (quiet_count is_chat (ev1 ++ noise)) by (exact setup_event_not_chat || assumption).
    rewrite Hdisk. repeat split; eauto.
    intros i e' Hin. apply in_app_or in Hin as [Hin | [Hin | []]];
      [destruct (Hq _ _ _ Hquiet Hin) | discriminate].
  - destruct (startup_quiet _ _ _ _ _ _ _ _ _ Hs Hd) as (Hquiet & _ & Hc).
    destruct (detect_provider_spec w (config o) st1) as (r & st' & ev' & Hd' & _ & _ & Hdisk & _).
    rewrite Hd in Hd'. injection Hd' as <- <- <-.
    assert (files (disk st2) !! prompt_file o = None) as Hnone2
      by (rewrite Hdisk; eauto).
    destruct (loop_run_without_prompt _ _ _ _ _ _ Hloop Hnone2)
      as (Hcode & Hst & Hchat & _ & Herr). cbn [fst snd] in *. subst st3.
    rewrite count_app, count_cons, (quiet_count is_chat (ev1 ++ noise))
      by (exact setup_event_not_chat || assumption).
    repeat split; auto.
    intros i e' Hin. apply in_app_or in Hin as [Hin | [Hin | Hin]];
      [destruct (Hq _ _ _ Hquiet Hin) | discriminate | eauto].
Qed.

Lemma missing_prompt_never_reaches_a_backend_witness :
  let res := Ralph.exit_process
               (Ralph.run (Sample.world Sample.never_done)
                  (Ralph.make "/work" (Sample.config_of "ollama")) 3)
               Sample.promptless in
  res.1.1 = 1%Z /\ count is_chat res.2 = 0%nat.
Proof.
  cbv zeta.
  destruct (missing_prompt_never_reaches_a_backend (Sample.world Sample.never_done)
              "/work" (Sample.config_of "ollama") 3 Sample.promptless)
    as (Hcode & Hchat & _); [vm_compute; reflexivity | auto].
Defined.

(** ** A branch name that is not a string *)

Lemma setup_on_non_string_branch (w : World) (dir : string) (cfg : LLMConfig)
    (st : State) (current : json) :
  let o := Ralph.make dir cfg in
  task_identity w o st = Some current ->
  Json.truthy current = true ->
  (forall b, current <> JStr b) ->
  files (disk st) !! last_branch_file o = None \/ readable (disk st) (last_branch_file o) ->
  exists st1 ev,
    Ralph.setup w o st = (Raise TypeError, st1, ev) /\
    files (disk st1) !! last_branch_file o = Some "".
Proof.
  cbv zeta. intros Hid Htruthy Hnot Hread. set (o := Ralph.make dir cfg) in *.
  rewrite setup_unfold.
  pose proof (archive_keeps_prd w dir cfg st) as Hprd. fold o in Hprd.
  assert (exists st0 ev0, Ralph.archive_previous_run w o st = (Ret tt, st0, ev0))
    as (st0 & ev0 & Harch).
  { destruct (archival_due_dec w o st) as [[last Hdue] | Hnone].
    - rewrite (archive_when_due w o st last Hdue). eauto.
    - rewrite (archive_returns_when_not_due w o st Hnone); [eauto|].
      right. split; [eauto|].
      destruct Hread as [? | Hread]; [auto | right].
      unfold last_identity. apply fmap_is_Some. exact Hread. }
  rewrite Harch in *. cbn [fst snd] in Hprd.
  assert (task_identity w o st0 = Some current) as Hid0
    by (unfold task_identity in *; rewrite Hprd; exact Hid).
  rewrite bind_unfold.
  destruct (track_outcome w o st0) as (r & st2 & -> & Hout).
  rewrite Hid0, Htruthy in Hout.
  assert (is_Some (files (disk st0) !! prd_file o)) as [text Hfile].
  { unfold task_identity in Hid0. destruct (files (disk st0) !! prd_file o);
      [eauto | discriminate]. }
  rewrite Hfile in Hout.
  assert (r = Raise TypeError /\
          st2 = set_files (<[last_branch_file o := ""]> (files (disk st0))) st0)
    as [-> ->].
  { destruct current; try exact Hout. destruct (Hnot s eq_refl). }
  eexists _, _. split; [reflexivity|].
  cbn [set_files disk files]. apply lookup_insert_eq.
Qed.



(** ** [load_config] and [main] *)

Lemma main_unfold (w : World) (dir : string) (N : Z) (config_path : option string)
    (st : State) :
  Ralph.main w dir N config_path st =
  match load_config w (Ralph.config_location dir config_path) st with
  | (Ret cfg, st1, ev1) =>
      let r := Ralph.exit_process (Ralph.run w (Ralph.make dir cfg) N)
                 {| disk := disk st1; detected := None; calls := calls st1 |} in
      (r.1.1, r.1.2, ev1 ++ r.2)
  | (Raise e, st1, ev1) => (1%Z, st1, ev1 ++ [EvErr (MsgUncaught e)])
  | (SysExit c, st1, ev1) => (c, st1, ev1)
  end.
Proof.
  unfold Ralph.main, Ralph.exit_process, Ralph.init.
  unfold bind at 1. unfold bind at 1.
  destruct (load_config w _ st) as [[[cfg|e|c] st1] ev1]; try reflexivity.
  unfold bind at 1. unfold get_state. unfold bind at 1. unfold put_state, ret.
  simpl.
  destruct (Ralph.run w (Ralph.make dir cfg) N _) as [[[code|e|c] st'] ev];
    cbn [fst snd]; rewrite ?app_nil_r, <- ?app_assoc; reflexivity.
Qed.

(** The outcomes of [load_config]: it changes no state, and what it prints
    is a warning or an error about the file. *)
Lemma load_config_outcomes (w : World) (path : string) (st : State) :
  exists r ev,
    load_config w path st = (r, st, ev) /\
    ((exists cfg, r = Ret cfg) \/ r = Raise AttributeError \/ r = SysExit 1%Z) /\
    before_loop ev /\
    (r = Raise AttributeError -> ev = []).
Proof.
  unfold load_config.
  destruct (files (disk st) !! path) as [text|].
  - destruct (json_loads w text) as [data|].
    + run_monad.
      destruct (Json.get data "llm" (JObj [])) as [llm|];
        [|eexists _, _; split; [reflexivity|]; repeat split; auto; constructor].
      destruct (Json.get llm "provider" (JStr "auto")) as [p|] eqn:Hp;
        [|eexists _, _; split; [reflexivity|]; repeat split; auto; constructor].
      assert (forall k d, exists v, Json.get llm k d = Some v) as Hget.
      { intros k d. unfold Json.get in *. destruct llm; try discriminate. eauto. }
      destruct (Hget "model" (JStr "llama3.1")) as [m ->].
      destruct (Hget "apiKey" (JStr "")) as [k ->].
      destruct (Hget "ollamaUrl" (JStr "http://localhost:11434")) as [u ->].
      eexists _, _. split; [reflexivity|].
      split; [eauto|]. split; [constructor | discriminate].
    + eexists _, _. split; [reflexivity|].
      split; [auto|]. split; [repeat constructor | discriminate].
  - eexists _, _. split; [reflexivity|].
    split; [eauto|]. split; [repeat constructor | discriminate].
Qed.

(** X18. A configuration file that holds JSON of the wrong shape, a value
    that is not an object or an [llm] entry that is not one, is not
    reported as an invalid configuration: the [AttributeError] is caught
    by neither handler of [load_config], and [main] ends with status 1 and
    a traceback, before anything is run or written. *)
Theorem misshaped_config_is_an_uncaught_error (w : World) (dir : string) (N : Z)
    (config_path : option string) (st : State) (text : string) (data : json) :
  let path := Ralph.config_location dir config_path in
  files (disk st) !! path = Some text ->
  json_loads w text = Some data ->
  Json.get data "llm" (JObj []) = None \/
  (exists llm, Json.get data "llm" (JObj []) = Some llm /\
               Json.get llm "provider" (JStr "auto") = None) ->
  load_config w path st = (Raise AttributeError, st, []) /\
  Ralph.main w dir N config_path st = (1%Z, st, [EvErr (MsgUncaught AttributeError)]).
Proof.
  cbv zeta. intros Hfile Hload Hshape.
  assert (load_config w (Ralph.config_location dir config_path) st =
            (Raise AttributeError, st, [])) as Hcfg.
  { unfold load_config. rewrite Hfile, Hload. run_monad.
    destruct Hshape as [-> | (llm & -> & ->)]; reflexivity. }
  split; [exact Hcfg|]. rewrite main_unfold, Hcfg. reflexivity.
Qed.

Lemma misshaped_config_is_an_uncaught_error_witness :
  Ralph.main (world_loading (fun _ => Some (JArr []))) "/work" 3 None Sample.misconfigured =
    (1%Z, Sample.misconfigured, [EvErr (MsgUncaught AttributeError)]).
Proof.
  apply (misshaped_config_is_an_uncaught_error
           (world_loading (fun _ => Some (JArr []))) "/work" 3 None
           Sample.misconfigured "{ llm: " (JArr []));
    [vm_compute; reflexivity | reflexivity | left; reflexivity].
Defined.

(** X19. A configuration file that holds an object without an [llm] entry
    is read as the default configuration, and silently: [main] runs as it
    does with the defaults, without the warning of a missing file. *)
Theorem config_without_llm_runs_on_defaults (w : World) (dir : string) (N : Z)
    (config_path : option string) (st : State) (text : string)
    (fields : list (string * json)) :
  let path := Ralph.config_location dir config_path in
  files (disk st) !! path = Some text ->
  json_loads w text = Some (JObj fields) ->
  Json.assoc "llm" fields = None ->
  load_config w path st = (Ret default_config, st, []) /\
  Ralph.main w dir N config_path st =
    Ralph.exit_process (Ralph.run w (Ralph.make dir default_config) N)
      {| disk := disk st; detected := None; calls := calls st |}.
Proof.
  cbv zeta. intros Hfile Hload Hnone.
  assert (load_config w (Ralph.config_location dir config_path) st =
            (Ret default_config, st, [])) as Hcfg.
  { unfold load_config. rewrite Hfile, Hload. run_monad.
    unfold Json.get. rewrite Hnone. reflexivity. }
  split; [exact Hcfg|]. rewrite main_unfold, Hcfg. cbv zeta.
  destruct (Ralph.exit_process _ _) as [[code st'] ev]. reflexivity.
Qed.

Lemma config_without_llm_runs_on_defaults_witness :
  load_config (world_loading (fun _ => Some (JObj []))) "/work/config.json"
    Sample.misconfigured = (Ret default_config, Sample.misconfigured, []).
Proof.
  apply (config_without_llm_runs_on_defaults
           (world_loading (fun _ => Some (JObj []))) "/work" 3 None
           Sample.misconfigured "{ llm: " []);
    [vm_compute; reflexivity | reflexivity | reflexivity].
Defined.

(** X20. The exit status of [main] is 0 or 1, whatever the configuration,
    the directory and the backends; it is 0 exactly when some output of
    the model carried the completion marker. *)
Theorem main_status_reflects_the_marker (w : World) (dir : string) (N : Z)
    (config_path : option string) (st : State) :
  let res := Ralph.main w dir N config_path st in
  (res.1.1 = 0 \/ res.1.1 = 1)%Z /\
  (res.1.1 = 0%Z <->
   exists out, In (EvErr (MsgOutput out)) res.2 /\ substring_of completion_marker out).
Proof.
  cbv zeta. rewrite main_unfold.
  destruct (load_config_outcomes w (Ralph.config_location dir config_path) st)
    as (r & ev & -> & Hr & Hev & Hattr).
  assert (forall out, ~ In (EvErr (MsgOutput out)) ev) as Hnone.
  { intros out Hin. unfold before_loop in Hev. rewrite Forall_forall in Hev.
    specialize (Hev _ (proj2 (list_elem_of_In _ _) Hin)). discriminate. }
  destruct Hr as [[cfg ->] | [-> | ->]]; cbv zeta; cbn [fst snd].
  - destruct (run_code_and_marker w (Ralph.make dir cfg) N
                {| disk := disk st; detected := None; calls := calls st |})
      as (Hcode & Hiff).
    split; [exact Hcode|]. rewrite Hiff. split.
    + intros (out & Hin & Hsub). exists out. split; [apply in_or_app; auto | exact Hsub].
    + intros (out & Hin & Hsub). exists out. split; [|exact Hsub].
      apply in_app_or in Hin as [Hin | Hin]; [destruct (Hnone _ Hin) | exact Hin].
  - split; [auto|]. split; [discriminate|].
    intros (out & Hin & _). rewrite (Hattr eq_refl) in Hin.
    destruct Hin as [Hin | []]. discriminate.
  - split; [auto|]. split; [discriminate|].
    intros (out & Hin & _). destruct (Hnone _ Hin).
Qed.

(** ** A branch name that does not read back as itself *)


